(** * github-language-statistics-ts: the worker of [src/index.ts]

    A shallow embedding of the Cloudflare worker that renders a user's top
    GitHub languages as an SVG card, and the properties of its aggregation
    and rendering.

    Conventions of the embedding.
    - A JavaScript string is modelled by the [string] of its UTF-8 bytes, so
      that [TextEncoder.encode] is the list of the bytes of the string.
    - A JavaScript Number is an IEEE 754 binary64 value: [spec_float] with
      [prec = 53] and [emax = 1024], and the operations of [SpecFloat].
      Repository counts are integers below [2^32] (an array has fewer than
      [2^32] elements), where binary64 arithmetic is exact; they are kept
      as [Z] and turned into a binary64 value where the code divides.
    - A [Map] is the list of its entries in insertion order.
    - The network ([fetch]) is an argument of the handler. *)

From Stdlib Require Import ZArith QArith Qabs List Bool Ascii String Lia Floats.SpecFloat.
From Stdlib Require Import Permutation Sorted Reals Lra Psatz.
Import ListNotations.

Local Open Scope string_scope.
Local Open Scope Z_scope.

(** ** Strings *)

Definition dquote : string := String (ascii_of_nat 34) EmptyString.
Definition newline : string := String (ascii_of_nat 10) EmptyString.
Definition backslash : string := String (ascii_of_nat 92) EmptyString.

(** [lines.join('\n')] *)
Fixpoint unlines (ls : list string) : string :=
  match ls with
  | [] => EmptyString
  | [l] => l
  | l :: ls' => l ++ newline ++ unlines ls'
  end.

(** [Array.prototype.join('')] *)
Definition join (ls : list string) : string := fold_right append EmptyString ls.

(** [needle] is a prefix of [s]. *)
Fixpoint startsWith (needle s : string) : bool :=
  match needle, s with
  | EmptyString, _ => true
  | String a n', String b s' => Ascii.eqb a b && startsWith n' s'
  | String _ _, EmptyString => false
  end.

(** [s.includes(needle)], the test behind vitest's [toContain] on strings *)
Fixpoint includes (needle s : string) : bool :=
  startsWith needle s ||
  match s with
  | EmptyString => false
  | String _ s' => includes needle s'
  end.

(** A digit of a radix up to 16, in lower case as [Number.prototype.toString]
    prints it. *)
Definition digitChar (d : Z) : ascii :=
  nth (Z.to_nat d) (list_ascii_of_string "0123456789abcdef") "0"%char.

Fixpoint digitsRadix (fuel : nat) (radix n : Z) (acc : string) : string :=
  match fuel with
  | O => acc
  | S fuel' =>
      let acc' := String (digitChar (n mod radix)) acc in
      if n / radix =? 0 then acc' else digitsRadix fuel' radix (n / radix) acc'
  end.

(** [n.toString(radix)] for an integer Number [n] below [10^21] in absolute
    value. *)
Definition intToString (radix n : Z) : string :=
  if n <? 0
  then "-" ++ digitsRadix (S (Z.to_nat (Z.log2 (- n)))) radix (- n) EmptyString
  else digitsRadix (S (Z.to_nat (Z.log2 n))) radix n EmptyString.

Fixpoint repeatString (s : string) (n : nat) : string :=
  match n with
  | O => EmptyString
  | S n' => s ++ repeatString s n'
  end.

(** [s.padStart(n, '0')] *)
Definition padStart0 (n : nat) (s : string) : string :=
  repeatString "0" (n - String.length s) ++ s.

(** [s.slice(0, n)] for [0 <= n] *)
Definition sliceTo (n : nat) (s : string) : string := substring 0 n s.

(** ** SHA-1 ([crypto.subtle.digest('SHA-1', data)], FIPS 180-4) *)

Module SHA1.

Definition wrap32 (x : Z) : Z := x mod 2 ^ 32.

Definition add32 (x y : Z) : Z := wrap32 (x + y).

Definition rotl32 (n x : Z) : Z :=
  wrap32 (Z.lor (Z.shiftl x n) (Z.shiftr x (32 - n))).

Definition not32 (x : Z) : Z := Z.lxor x 4294967295.

Record state := mkState { h0 : Z; h1 : Z; h2 : Z; h3 : Z; h4 : Z }.

Definition init : state :=
  mkState 1732584193 4023233417 2562383102 271733878 3285377520.

(** The message followed by the bit 1, zero bytes up to 56 modulo 64, and
    the length of the message in bits as a 64-bit big-endian integer. *)
Definition be_bytes (count : nat) (x : Z) : list Z :=
  map (fun i => Z.land (Z.shiftr x (8 * Z.of_nat i)) 255) (rev (seq 0 count)).

Definition pad (msg : list Z) : list Z :=
  let len := Z.of_nat (List.length msg) in
  let zeros := Z.to_nat ((55 - len) mod 64) in
  (msg ++ [128] ++ repeat 0 zeros ++ be_bytes 8 (8 * len))%list.

Fixpoint words_of (fuel : nat) (bs : list Z) : list Z :=
  match fuel, bs with
  | S fuel', a :: b :: c :: d :: bs' =>
      (Z.shiftl a 24 + Z.shiftl b 16 + Z.shiftl c 8 + d) :: words_of fuel' bs'
  | _, _ => []
  end.

(** The message schedule, most recent word first: [W_t] is
    [ROTL^1 (W_(t-3) xor W_(t-8) xor W_(t-14) xor W_(t-16))]. *)
Fixpoint schedule (n : nat) (rev_ws : list Z) : list Z :=
  match n with
  | O => rev_ws
  | S n' =>
      let w := rotl32 1 (Z.lxor (Z.lxor (nth 2 rev_ws 0) (nth 7 rev_ws 0))
                                (Z.lxor (nth 13 rev_ws 0) (nth 15 rev_ws 0))) in
      schedule n' (w :: rev_ws)
  end.

Definition f (t : nat) (b c d : Z) : Z :=
  if (t <? 20)%nat then Z.lor (Z.land b c) (Z.land (not32 b) d)
  else if (t <? 40)%nat then Z.lxor (Z.lxor b c) d
  else if (t <? 60)%nat then Z.lor (Z.lor (Z.land b c) (Z.land b d)) (Z.land c d)
  else Z.lxor (Z.lxor b c) d.

Definition K (t : nat) : Z :=
  if (t <? 20)%nat then 1518500249
  else if (t <? 40)%nat then 1859775393
  else if (t <? 60)%nat then 2400959708
  else 3395469782.

Definition round (t : nat) (w : Z) (s : state) : state :=
  let tmp := add32 (add32 (add32 (add32 (rotl32 5 (h0 s)) (f t (h1 s) (h2 s) (h3 s)))
                                 (h4 s)) (K t)) w in
  mkState tmp (h0 s) (rotl32 30 (h1 s)) (h2 s) (h3 s).

Fixpoint rounds (t : nat) (ws : list Z) (s : state) : state :=
  match ws with
  | [] => s
  | w :: ws' => rounds (S t) ws' (round t w s)
  end.

Definition block (s : state) (bs : list Z) : state :=
  let ws := rev (schedule 64 (rev (words_of 16 bs))) in
  let r := rounds 0 ws s in
  mkState (add32 (h0 s) (h0 r)) (add32 (h1 s) (h1 r)) (add32 (h2 s) (h2 r))
          (add32 (h3 s) (h3 r)) (add32 (h4 s) (h4 r)).

Fixpoint blocks (fuel : nat) (s : state) (bs : list Z) : state :=
  match fuel, bs with
  | S fuel', _ :: _ => blocks fuel' (block s (firstn 64 bs)) (skipn 64 bs)
  | _, _ => s
  end.

(** The 20 bytes of the digest. *)
Definition digest (msg : list Z) : list Z :=
  let p := pad msg in
  let s := blocks (List.length p) init p in
  (be_bytes 4 (h0 s) ++ be_bytes 4 (h1 s) ++ be_bytes 4 (h2 s)
     ++ be_bytes 4 (h3 s) ++ be_bytes 4 (h4 s))%list.

End SHA1.

(** [new TextEncoder().encode(msg)] *)
Definition TextEncoder_encode (msg : string) : list Z :=
  map (fun a => Z.of_N (N_of_ascii a)) (list_ascii_of_string msg).

(** [sha1Hash]: the digest as lower-case hexadecimal, two characters a
    byte. *)
Definition sha1Hash (msg : string) : string :=
  let data := TextEncoder_encode msg in
  let hashArray := SHA1.digest data in
  join (map (fun b => padStart0 2 (intToString 16 b)) hashArray).

(** [stringToHexColor] *)
Definition stringToHexColor (str : string) : string :=
  let fullHash := sha1Hash str in
  "#" ++ sliceTo 6 fullHash.

(** ** Numbers *)

Definition prec : Z := 53.
Definition emax : Z := 1024.

(** The Number of an integer: the nearest binary64 value, ties to even. *)
Definition Z2Num (z : Z) : spec_float := binary_normalize prec emax z 0 false.

Definition Num_div : spec_float -> spec_float -> spec_float := SFdiv prec emax.
Definition Num_mul : spec_float -> spec_float -> spec_float := SFmul prec emax.
Definition Num_sub : spec_float -> spec_float -> spec_float := SFsub prec emax.
Definition Num_lt : spec_float -> spec_float -> bool := SFltb.

(** The Number of the quotient [num / den] of two positive integers, rounded
    once. *)
Definition ratio2Num (sign : bool) (num den : Z) : spec_float :=
  let '(q, e, l) := SFdiv_core_binary prec emax num 0 den 0 in
  binary_round_aux prec emax sign q e l.

(** The integer nearest to [m * 2^e * scale], the larger one on a tie. *)
Definition roundHalfUp (m : positive) (e : Z) (scale : Z) : Z :=
  if 0 <=? e then Zpos m * 2 ^ e * scale
  else (2 * Zpos m * scale + 2 ^ (- e)) / 2 ^ (1 - e).

(** [10^21 <= m * 2^e] *)
Definition atLeast1e21 (m : positive) (e : Z) : bool :=
  if 0 <=? e then 10 ^ 21 <=? Zpos m * 2 ^ e
  else 10 ^ 21 * 2 ^ (- e) <=? Zpos m.

(** The digits of [n] with a point before the last [f] of them, as
    [Number.prototype.toFixed] lays them out. *)
Definition fixedDigits (f : nat) (n : Z) : string :=
  let m := intToString 10 n in
  if (f =? 0)%nat then m
  else
    let m' := padStart0 (f + 1) m in
    let k := String.length m' in
    substring 0 (k - f) m' ++ "." ++ substring (k - f) f m'.

Inductive IntegerOrInfinity : Type :=
| PlusInfinity
| MinusInfinity
| Integer (z : Z).

Definition ToIntegerOrInfinity (x : spec_float) : IntegerOrInfinity :=
  match x with
  | S754_nan => Integer 0
  | S754_zero _ => Integer 0
  | S754_infinity false => PlusInfinity
  | S754_infinity true => MinusInfinity
  | S754_finite s m e =>
      Integer (cond_Zopp s (if 0 <=? e then Zpos m * 2 ^ e else Zpos m / 2 ^ (- e)))
  end.

(** [array.slice(0, end)] *)
Definition slice0 {A : Type} (l : list A) (end_ : spec_float) : list A :=
  let len := Z.of_nat (List.length l) in
  match ToIntegerOrInfinity end_ with
  | PlusInfinity => l
  | MinusInfinity => []
  | Integer z =>
      if z <? 0 then firstn (Z.to_nat (Z.max (len + z) 0)) l
      else firstn (Z.to_nat (Z.min z len)) l
  end.

(** *** Reading numbers: [parseInt] and [parseFloat] *)

Definition byteOf (a : ascii) : Z := Z.of_N (N_of_ascii a).

(** The three-byte UTF-8 sequences of the white space and line terminator
    code points above U+00FF: U+1680, U+2000 to U+200A, U+2028, U+2029,
    U+202F, U+205F, U+3000 and U+FEFF. *)
Definition whiteSpace3 (a b c : Z) : bool :=
  ((a =? 225) && (b =? 154) && (c =? 128))
  || ((a =? 226) && (b =? 128)
      && (((128 <=? c) && (c <=? 138)) || (c =? 168) || (c =? 169) || (c =? 175)))
  || ((a =? 226) && (b =? 129) && (c =? 159))
  || ((a =? 227) && (b =? 128) && (c =? 128))
  || ((a =? 239) && (b =? 187) && (c =? 191)).

(** TAB, LF, VT, FF, CR and SP. *)
Definition whiteSpace1 (a : Z) : bool :=
  ((9 <=? a) && (a <=? 13)) || (a =? 32).

(** [TrimString(s, start)] *)
Fixpoint trimStart (s : string) : string :=
  match s with
  | EmptyString => s
  | String a s1 =>
      if whiteSpace1 (byteOf a) then trimStart s1
      else
        match s1 with
        | EmptyString => s
        | String b s2 =>
            if (byteOf a =? 194) && (byteOf b =? 160) then trimStart s2
            else
              match s2 with
              | EmptyString => s
              | String c s3 =>
                  if whiteSpace3 (byteOf a) (byteOf b) (byteOf c) then trimStart s3
                  else s
              end
        end
  end.

Definition isDigit (a : ascii) : bool := (48 <=? byteOf a) && (byteOf a <=? 57).

(** The longest run of decimal digits at the start of [s]: its value on top
    of [acc], the number of digits on top of [count], and what follows. *)
Fixpoint spanDigits (s : string) (acc : Z) (count : nat) : Z * nat * string :=
  match s with
  | String a s' =>
      if isDigit a then spanDigits s' (10 * acc + (byteOf a - 48)) (S count)
      else (acc, count, s)
  | EmptyString => (acc, count, s)
  end.

(** An optional sign at the start of [s]: whether it is a minus, and what
    follows. *)
Definition spanSign (s : string) : bool * string :=
  match s with
  | String a s' =>
      if Ascii.eqb a "-" then (true, s')
      else if Ascii.eqb a "+" then (false, s')
      else (false, s)
  | EmptyString => (false, s)
  end.

(** [parseInt(input, 10)] *)
Definition parseInt10 (input : string) : spec_float :=
  let '(sign, str) := spanSign (trimStart input) in
  let '(mathInt, digits, _) := spanDigits str 0 0 in
  match digits with
  | O => S754_nan
  | _ => binary_normalize prec emax (cond_Zopp sign mathInt) 0 sign
  end.

(** The exponent part at the start of [s], 0 when there is none. *)
Definition spanExponent (s : string) : Z :=
  match s with
  | String a s' =>
      if Ascii.eqb a "e" || Ascii.eqb a "E" then
        let '(sign, s'') := spanSign s' in
        let '(x, digits, _) := spanDigits s'' 0 0 in
        match digits with
        | O => 0
        | _ => cond_Zopp sign x
        end
      else 0
  | EmptyString => 0
  end.

(** The Number of [mantissa * 10^exponent]. *)
Definition decimal2Num (sign : bool) (mantissa exponent : Z) : spec_float :=
  if mantissa =? 0 then S754_zero sign
  else if 0 <=? exponent
       then binary_normalize prec emax (cond_Zopp sign (mantissa * 10 ^ exponent)) 0 sign
       else ratio2Num sign mantissa (10 ^ (- exponent)).

(** What [parseFloat] reads: the longest prefix of the trimmed input that is
    a [StrDecimalLiteral]; [LitDecimal sign mantissa exponent] stands for
    [mantissa * 10^exponent], negated when [sign] is set. *)
Inductive StrDecimalLiteral : Type :=
| LitInfinity (sign : bool)
| LitDecimal (sign : bool) (mantissa exponent : Z).

Definition parseDecimalLiteral (input : string) : option StrDecimalLiteral :=
  let '(sign, str) := spanSign (trimStart input) in
  if startsWith "Infinity" str then Some (LitInfinity sign)
  else
    let '(ip, idigits, rest) := spanDigits str 0 0 in
    match rest with
    | String "."%char rest' =>
        let '(mantissa, digits, rest'') := spanDigits rest' ip idigits in
        match digits with
        | O => None
        | _ =>
            Some (LitDecimal sign mantissa
                    (spanExponent rest'' - Z.of_nat (digits - idigits)))
        end
    | _ =>
        match idigits with
        | O => None
        | _ => Some (LitDecimal sign ip (spanExponent rest))
        end
    end.

(** [parseFloat(input)]: the Number of the literal, [NaN] when there is
    none. *)
Definition parseFloat (input : string) : spec_float :=
  match parseDecimalLiteral input with
  | None => S754_nan
  | Some (LitInfinity sign) => S754_infinity sign
  | Some (LitDecimal sign mantissa exponent) => decimal2Num sign mantissa exponent
  end.

(** The mathematical value of the literal that [parseFloat] reads, when it
    is a decimal one. *)
Definition mathValue (input : string) : option Q :=
  match parseDecimalLiteral input with
  | Some (LitDecimal sign mantissa exponent) =>
      Some (inject_Z (cond_Zopp sign mantissa) * Qpower (10 # 1) exponent)%Q
  | _ => None
  end.

Fixpoint Qsum (qs : list Q) : Q :=
  match qs with
  | [] => 0%Q
  | q :: qs' => (q + Qsum qs')%Q
  end.

(** ** Maps *)

(** A [Map<string, V>]: its entries in insertion order, each key once. *)
Definition Map (V : Type) : Type := list (string * V).

Fixpoint Map_get {V : Type} (m : Map V) (key : string) : option V :=
  match m with
  | [] => None
  | (k, v) :: m' => if String.eqb k key then Some v else Map_get m' key
  end.

(** [m.set(key, value)]: the value of an existing key is replaced where the
    key stands, a new key goes last. *)
Fixpoint Map_set {V : Type} (m : Map V) (key : string) (value : V) : Map V :=
  match m with
  | [] => [(key, value)]
  | (k, v) :: m' =>
      if String.eqb k key then (k, value) :: m'
      else (k, v) :: Map_set m' key value
  end.

Definition Map_keys {V : Type} (m : Map V) : list string := map fst m.
Definition Map_values {V : Type} (m : Map V) : list V := map snd m.
Definition Map_entries {V : Type} (m : Map V) : list (string * V) := m.

(** [a ?? b] *)
Definition nullish {A : Type} (a : option A) (b : A) : A :=
  match a with
  | Some x => x
  | None => b
  end.

(** [array.sort(comparefn)]: the sort is stable; an element goes after
    another one when [comparefn] of the two is positive. *)
Section Sort.
Context {A : Type}.
Variable comparefn : A -> A -> spec_float.

Definition sortsAfter (x y : A) : bool := Num_lt (S754_zero false) (comparefn x y).

Fixpoint sort_insert (x : A) (l : list A) : list A :=
  match l with
  | [] => [x]
  | y :: l' => if sortsAfter x y then y :: sort_insert x l' else x :: l
  end.

Definition sort (l : list A) : list A := fold_right sort_insert [] l.
End Sort.

(** [array.map((x, index) => f(x, index))] *)
Fixpoint mapi_from {A B : Type} (f : A -> Z -> B) (index : Z) (l : list A) : list B :=
  match l with
  | [] => []
  | x :: l' => f x index :: mapi_from f (index + 1) l'
  end.

Definition mapi {A B : Type} (f : A -> Z -> B) (l : list A) : list B := mapi_from f 0 l.

(** ** The worker *)

(** An attribute in a template: the name, the equals sign and the value
    between double quotes. *)
Definition attr (name value : string) : string := name ++ "=" ++ dquote ++ value ++ dquote.

Record GitHubRepo : Type := mkGitHubRepo {
  id : Z;
  name : string;
  full_name : string;
  stargazers_count : Z;
  language : option string   (* [string | null] *)
}.

Record Env : Type := mkEnv { GH_KEY : string }.

(** What a call either returns or throws; [message] is the message of the
    [Error] thrown. *)
Inductive Result (A : Type) : Type :=
| Return (a : A)
| Throw (message : string).
Arguments Return {A} a.
Arguments Throw {A} message.

Definition Headers : Type := list (string * string).

(** The response of the GitHub API, as far as the worker looks at it;
    [api_json] is what [response.json()] gives, or the error that it or the
    use of its result as an array throws. *)
Record ApiResponse : Type := mkApiResponse {
  api_status : Z;
  api_statusText : string;
  api_json : Result (list GitHubRepo)
}.

(** [response.ok] *)
Definition api_ok (response : ApiResponse) : bool :=
  (200 <=? api_status response) && (api_status response <=? 299).

(** The global [fetch]: from an address and request headers to a response,
    or to the error of a failed request. *)
Definition Fetch : Type := string -> Headers -> Result ApiResponse.

Record URL : Type := mkURL {
  pathname : string;
  searchParams : list (string * string)
}.

Record Request : Type := mkRequest {
  method : string;
  url : URL
}.

Record Response : Type := mkResponse {
  status : Z;
  headers : Headers;
  body : option string
}.

(** [url.searchParams.get(key)] *)
Fixpoint searchParams_get (params : list (string * string)) (key : string) : option string :=
  match params with
  | [] => None
  | (k, v) :: params' => if String.eqb k key then Some v else searchParams_get params' key
  end.

(** [s.split(sep)] for a separator of one character; [cur] is the part read
    so far, in reverse. *)
Fixpoint split_from (sep : ascii) (s : string) (cur : list ascii) : list string :=
  match s with
  | EmptyString => [string_of_list_ascii (rev cur)]
  | String a s' =>
      if Ascii.eqb a sep then string_of_list_ascii (rev cur) :: split_from sep s' []
      else split_from sep s' (a :: cur)
  end.

Definition split (sep : ascii) (s : string) : list string := split_from sep s [].

(** [QuoteJSONString]: the string between quotes, with the quote, the
    backslash and the control characters escaped. *)
Definition escapeJSONChar (a : ascii) : string :=
  let c := byteOf a in
  if c =? 8 then backslash ++ "b"
  else if c =? 9 then backslash ++ "t"
  else if c =? 10 then backslash ++ "n"
  else if c =? 12 then backslash ++ "f"
  else if c =? 13 then backslash ++ "r"
  else if c =? 34 then backslash ++ dquote
  else if c =? 92 then backslash ++ backslash
  else if c <? 32 then backslash ++ "u" ++ padStart0 4 (intToString 16 c)
  else String a EmptyString.

Fixpoint escapeJSON (s : string) : string :=
  match s with
  | EmptyString => EmptyString
  | String a s' => escapeJSONChar a ++ escapeJSON s'
  end.

Definition QuoteJSONString (s : string) : string := dquote ++ escapeJSON s ++ dquote.

(** [JSON.stringify] of an object whose properties are strings. *)
Fixpoint JSON_properties (props : list (string * string)) : list string :=
  match props with
  | [] => []
  | (k, v) :: props' => (QuoteJSONString k ++ ":" ++ QuoteJSONString v) :: JSON_properties props'
  end.

Fixpoint joinWith (sep : string) (ls : list string) : string :=
  match ls with
  | [] => EmptyString
  | [l] => l
  | l :: ls' => l ++ sep ++ joinWith sep ls'
  end.

Definition JSON_stringify (props : list (string * string)) : string :=
  "{" ++ joinWith "," (JSON_properties props) ++ "}".

(** The address and the headers of the request of [fetchGitHubRepos]. *)
Definition reposUrl (username : string) : string :=
  let perPage := 100 in
  "https://api.github.com/users/" ++ username ++ "/repos?page=1&per_page="
    ++ intToString 10 perPage ++ "&sort=updated".

Definition reposHeaders (env : Env) : Headers :=
  [ ("User-Agent", "gh-lang-stats-ts")
  ; ("Accept", "application/vnd.github.v3+json")
  ; ("Authorization", "Bearer " ++ GH_KEY env) ].

(** [fetchGitHubRepos] *)
Definition fetchGitHubRepos (globalFetch : Fetch) (username : string) (env : Env)
  : Result (list GitHubRepo) :=
  match globalFetch (reposUrl username) (reposHeaders env) with
  | Throw message => Throw message
  | Return response =>
      if negb (api_ok response)
      then Throw ("GitHub API error: " ++ intToString 10 (api_status response) ++ " "
                  ++ api_statusText response)
      else api_json response
  end.

(** The comparison of [generateSvg]:
    [([, a], [, b]) => parseFloat(b) - parseFloat(a)] *)
Definition byPercentage (x y : string * string) : spec_float :=
  Num_sub (parseFloat (snd y)) (parseFloat (snd x)).

(** [topLangs] of [generateSvg] *)
Definition topLangs (percMap : Map string) (count : spec_float) : list (string * string) :=
  slice0 (sort byPercentage (Map_entries percMap)) count.

(** The template of one row of the chart. *)
Definition langItemTemplate (lang perc color : string) (index : Z) : string :=
  unlines
      [ EmptyString
      ; "      <g " ++ attr "transform" ("translate(0, " ++ intToString 10 (index * 40) ++ ")") ++ ">"
      ; "        <g>"
      ; "          <text " ++ attr "data-testid" "lang-name" ++ " " ++ attr "x" "2" ++ " " ++ attr "y" "15" ++ " " ++ attr "class" "lang-name" ++ ">" ++ lang ++ "</text>"
      ; "          <text " ++ attr "x" "215" ++ " " ++ attr "y" "34" ++ " " ++ attr "class" "lang-name" ++ ">" ++ perc ++ "%</text>"
      ; "          <svg " ++ attr "width" "205" ++ " " ++ attr "x" "0" ++ " " ++ attr "y" "25" ++ ">"
      ; "            <rect " ++ attr "rx" "5" ++ " " ++ attr "ry" "5" ++ " " ++ attr "x" "0" ++ " " ++ attr "y" "0" ++ " " ++ attr "width" "205" ++ " " ++ attr "height" "8" ++ " " ++ attr "fill" "#ddd" ++ "></rect>"
      ; "            <svg " ++ attr "width" (perc ++ "%") ++ ">"
      ; "              <rect"
      ; "                  " ++ attr "height" "8"
      ; "                  " ++ attr "fill" color
      ; "                  " ++ attr "rx" "5" ++ " " ++ attr "ry" "5" ++ " " ++ attr "x" "0" ++ " " ++ attr "y" "0"
      ; "                  " ++ attr "width" "100%"
      ; "                  " ++ attr "class" "lang-progress"
      ; "              />"
      ; "            </svg>"
      ; "          </svg>"
      ; "        </g>"
      ; "      </g>"
      ; "    " ].

(** One row of the chart: the callback of [topLangs.map]. *)
Definition langItem (entry : string * string) (index : Z) : string :=
  let '(lang, perc) := entry in
  let color := stringToHexColor lang in
  langItemTemplate lang perc color index.

(** The whole card: the template that [generateSvg] returns. *)
Definition svgDocument (height : Z) (langItems : string) : string :=
  unlines
    [ EmptyString
    ; "<svg"
    ; "  " ++ attr "width" "300"
    ; "  " ++ attr "height" (intToString 10 height)
    ; "  " ++ attr "viewBox" ("0 0 300 " ++ intToString 10 height)
    ; "  " ++ attr "fill" "none"
    ; "  " ++ attr "xmlns" "http://www.w3.org/2000/svg"
    ; "  " ++ attr "role" "img"
    ; "  " ++ attr "aria-labelledby" "descId"
    ; ">"
    ; "  <title " ++ attr "id" "titleId" ++ ">Top Languages</title>"
    ; "  <desc " ++ attr "id" "descId" ++ ">Top languages by main repo language</desc>"
    ; "  <style>"
    ; "    .header {"
    ; "      font: 600 20px Verdana, Sans-Serif;"
    ; "      fill:rgb(3, 38, 83);"
    ; "    }"
    ; "    @supports(-moz-appearance: auto) {"
    ; "      /* Selector detects Firefox */"
    ; "      .header { font-size: 15.5px; }"
    ; "    }"
    ; "    .stat {"
    ; "      font: 600 14px Verdana, Sans-Serif; fill: #434d58;"
    ; "    }"
    ; "    @supports(-moz-appearance: auto) {"
    ; "      /* Selector detects Firefox */"
    ; "      .stat { font-size:12px; }"
    ; "    }"
    ; "    .bold { font-weight: 700 }"
    ; "    .lang-name {"
    ; "      font: 400 11px Verdana, Sans-Serif;"
    ; "      fill: #434d58;"
    ; "    }"
    ; "  </style>"
    ; EmptyString
    ; "  <rect"
    ; "    " ++ attr "data-testid" "card-bg"
    ; "    " ++ attr "x" "0.5"
    ; "    " ++ attr "y" "0.5"
    ; "    " ++ attr "rx" "4.5"
    ; "    " ++ attr "height" "99%"
    ; "    " ++ attr "stroke" "#e4e2e2"
    ; "    " ++ attr "width" "299"
    ; "    " ++ attr "fill" "#fffefe"
    ; "    " ++ attr "stroke-opacity" "1"
    ; "  />"
    ; EmptyString
    ; "  <g " ++ attr "data-testid" "card-title" ++ " " ++ attr "transform" "translate(25, 35)" ++ ">"
    ; "    <g " ++ attr "transform" "translate(0, 0)" ++ ">"
    ; "      <text " ++ attr "x" "0" ++ " " ++ attr "y" "0" ++ " " ++ attr "class" "header" ++ " " ++ attr "data-testid" "header" ++ ">Top Languages</text>"
    ; "    </g>"
    ; "  </g>"
    ; EmptyString
    ; "  <g " ++ attr "data-testid" "main-card-body" ++ " " ++ attr "transform" "translate(0, 55)" ++ ">"
    ; "    <svg " ++ attr "data-testid" "lang-items" ++ " " ++ attr "x" "25" ++ ">"
    ; "      " ++ langItems
    ; "    </svg>"
    ; "  </g>"
    ; "</svg>"
    ; "    " ].

(** [generateSvg] *)
Definition generateSvg (percMap : Map string) (count : spec_float) : string :=
  let topLangs := topLangs percMap count in
  let listHeight := Z.of_nat (List.length topLangs) * 40 in
  let height := 55 + listHeight + 30 in
  let langItems := join (mapi langItem topLangs) in
  svgDocument height langItems.

Definition corsHeaders : Headers :=
  [ ("Access-Control-Allow-Origin", "*")
  ; ("Access-Control-Allow-Methods", "GET, OPTIONS")
  ; ("Access-Control-Allow-Headers", "Content-Type") ].

(** The repositories that pass [r => r.language !== null]. *)
Definition filterRepos (repos : list GitHubRepo) : list GitHubRepo :=
  filter (fun r => match language r with Some _ => true | None => false end) repos.

(** [langs]: the number of repositories of each language. *)
Definition langs (repos : list GitHubRepo) : Map Z :=
  fold_left
    (fun acc r =>
       Map_set acc (nullish (language r) EmptyString)
               (nullish (Map_get acc (nullish (language r) EmptyString)) 0 + 1))
    repos [].

(** [total] *)
Definition total (langs : Map Z) : Z :=
  fold_left (fun acc count => acc + count) (Map_values langs) 0.

(** [count]: the number of languages to show, from the [top] parameter. *)
Definition count (top : option string) : spec_float :=
  match top with
  | Some t =>
      if negb (String.eqb t EmptyString) && Num_lt (Z2Num 0) (parseInt10 t)
      then parseInt10 t
      else Z2Num 5
  | None => Z2Num 5
  end.

(** [username]: the first non-empty part of the path, [undefined] when
    there is none. *)
Definition username (pathname : string) : option string :=
  hd_error (filter (fun p => negb (String.eqb p EmptyString)) (split "/" pathname)).

Section Worker.

(** [Number::toString] for a finite Number of [10^21] or more. ECMA-262
    does not fix its last digit, and no percentage is that large. *)
Variable NumberToString : spec_float -> string.

(** [x.toFixed(fractionDigits)] *)
Definition toFixed (fractionDigits : nat) (x : spec_float) : string :=
  match x with
  | S754_nan => "NaN"
  | S754_infinity false => "Infinity"
  | S754_infinity true => "-Infinity"
  | S754_zero _ => fixedDigits fractionDigits 0
  | S754_finite s m e =>
      (if s then "-" else EmptyString)
      ++ (if atLeast1e21 m e then NumberToString (S754_finite false m e)
          else fixedDigits fractionDigits (roundHalfUp m e (10 ^ Z.of_nat fractionDigits)))
  end.

(** [perc] of one language: [((val / total) * 100).toFixed(2)] *)
Definition perc (val total : Z) : string :=
  toFixed 2 (Num_mul (Num_div (Z2Num val) (Z2Num total)) (Z2Num 100)).

(** [percMap] *)
Definition percMap (langs : Map Z) : Map string :=
  let total := total langs in
  fold_left (fun percMap '(key, val) => Map_set percMap key (perc val total)) langs [].

(** The [fetch] handler of the worker. *)
Definition fetch (globalFetch : Fetch) (request : Request) (env : Env) : Response :=
  if String.eqb (method request) "OPTIONS" then mkResponse 200 corsHeaders None
  else if negb (String.eqb (method request) "GET")
  then mkResponse 405 corsHeaders (Some "Method not allowed")
  else
    let username := nullish (username (pathname (url request))) "undefined" in
    match fetchGitHubRepos globalFetch username env with
    | Return fetched =>
        let repos := filterRepos fetched in
        let langs := langs repos in
        let percMap := percMap langs in
        let top := searchParams_get (searchParams (url request)) "top" in
        let count := count top in
        let svg := generateSvg percMap count in
        mkResponse 200 (("Content-Type", "image/svg+xml") :: corsHeaders) (Some svg)
    | Throw message =>
        mkResponse 500 (("Content-Type", "application/json") :: corsHeaders)
          (Some (JSON_stringify [ ("error", "Failed to fetch repository data")
                                ; ("message", message) ]))
    end.

End Worker.

(** ** Vocabulary of the properties *)

(** The repositories of the test suite ([mockRepos]). *)
Definition mockRepos : list GitHubRepo :=
  [ mkGitHubRepo 1 "repo1" "user/repo1" 1 (Some "TypeScript")
  ; mkGitHubRepo 2 "repo2" "user/repo2" 1 (Some "TypeScript")
  ; mkGitHubRepo 3 "repo3" "user/repo3" 1 (Some "JavaScript")
  ; mkGitHubRepo 4 "repo4" "user/repo4" 1 (Some "Python")
  ; mkGitHubRepo 5 "repo5" "user/repo5" 1 (Some "Python")
  ; mkGitHubRepo 6 "repo6" "user/repo6" 1 (Some "Python")
  ; mkGitHubRepo 7 "repo7" "user/repo7" 1 None ].

(** A digit or a letter from [a] to [f]. *)
Definition isLowerHex (a : ascii) : bool :=
  isDigit a || ((97 <=? byteOf a) && (byteOf a <=? 102)).

Fixpoint allLowerHex (s : string) : bool :=
  match s with
  | EmptyString => true
  | String a s' => isLowerHex a && allLowerHex s'
  end.

(** [#] and six lower-case hexadecimal digits. *)
Definition isHexColor (s : string) : bool :=
  match s with
  | String a s' => Ascii.eqb a "#" && (String.length s' =? 6)%nat && allLowerHex s'
  | EmptyString => false
  end.

(** The number of repositories whose language is [key]. *)
Definition countLang (key : string) (repos : list GitHubRepo) : nat :=
  List.length
    (filter (fun r => match language r with
                      | Some l => String.eqb l key
                      | None => false
                      end) repos).

(** The languages of a list of repositories, each one once, in the order in
    which they first appear. *)
Fixpoint firstSeen (seen : list string) (repos : list GitHubRepo) : list string :=
  match repos with
  | [] => []
  | r :: repos' =>
      match language r with
      | Some l =>
          if existsb (String.eqb l) seen then firstSeen seen repos'
          else l :: firstSeen (seen ++ [l]) repos'
      | None => firstSeen seen repos'
      end
  end.

(** The number that a share shows: the mathematical value of its
    percentage. *)
Definition numericValue (share : string * string) : Q :=
  match mathValue (snd share) with
  | Some q => q
  | None => 0%Q
  end.

(** A positive integer in decimal digits, and nothing else. *)
Definition isPositiveInteger (s : string) : bool :=
  let '(n, digits, rest) := spanDigits s 0 0 in
  negb (digits =? 0)%nat && String.eqb rest EmptyString && (0 <? n).

(** *** Balanced markup

    [wellFormed s]: [s] is one element, with white space around it; in it
    every element is closed by the end tag of its name or is empty
    ([<name ... />]); what stands between double quotes in a tag is not
    markup. *)
Inductive ScanState : Type :=
| InText
| AfterLt
| InStartName (name : list ascii)
| InAttributes (name : list ascii) (slash : bool)
| InValue (name : list ascii)
| InEndName (name : list ascii).

Definition isNameChar (a : ascii) : bool :=
  let c := byteOf a in
  ((97 <=? c) && (c <=? 122)) || ((65 <=? c) && (c <=? 90)) || isDigit a
  || (c =? 45) || (c =? 95) || (c =? 58).

Definition isSpace (a : ascii) : bool := whiteSpace1 (byteOf a).

Fixpoint scanMarkup (s : string) (st : ScanState) (open : list (list ascii)) (roots : nat)
  : bool :=
  match s with
  | EmptyString =>
      match st, open with
      | InText, [] => (roots =? 1)%nat
      | _, _ => false
      end
  | String a s' =>
      match st with
      | InText =>
          if Ascii.eqb a "<" then scanMarkup s' AfterLt open roots
          else
            match open with
            | [] => isSpace a && scanMarkup s' InText open roots
            | _ => scanMarkup s' InText open roots
            end
      | AfterLt =>
          if Ascii.eqb a "/" then scanMarkup s' (InEndName []) open roots
          else if isNameChar a then
                 match open, roots with
                 | [], S _ => false
                 | _, _ => scanMarkup s' (InStartName [a]) open roots
                 end
          else false
      | InStartName name =>
          if isNameChar a then scanMarkup s' (InStartName (a :: name)) open roots
          else if isSpace a then scanMarkup s' (InAttributes name false) open roots
          else if Ascii.eqb a "/" then scanMarkup s' (InAttributes name true) open roots
          else if Ascii.eqb a ">" then scanMarkup s' InText (name :: open) roots
          else false
      | InAttributes name slash =>
          if Ascii.eqb a ">" then
            if slash then
              scanMarkup s' InText open
                (match open with [] => S roots | _ => roots end)
            else scanMarkup s' InText (name :: open) roots
          else if Ascii.eqb a "<" then false
          else if Ascii.eqb a "/" then scanMarkup s' (InAttributes name true) open roots
          else if Ascii.eqb a (ascii_of_nat 34) then scanMarkup s' (InValue name) open roots
          else scanMarkup s' (InAttributes name false) open roots
      | InValue name =>
          if Ascii.eqb a (ascii_of_nat 34) then scanMarkup s' (InAttributes name false) open roots
          else if Ascii.eqb a "<" then false
          else scanMarkup s' (InValue name) open roots
      | InEndName name =>
          if isNameChar a then scanMarkup s' (InEndName (a :: name)) open roots
          else if Ascii.eqb a ">" then
                 match open with
                 | top :: open' =>
                     if String.eqb (string_of_list_ascii top) (string_of_list_ascii name)
                     then scanMarkup s' InText open'
                            (match open' with [] => S roots | _ => roots end)
                     else false
                 | [] => false
                 end
          else false
      end
  end.

Definition wellFormed (s : string) : bool := scanMarkup s InText [] 0.

(** *** Auxiliary definitions of the proofs *)

(** One step of the fold that builds [langs]. *)
Definition tallyStep (acc : Map Z) (r : GitHubRepo) : Map Z :=
  Map_set acc (nullish (language r) EmptyString)
          (nullish (Map_get acc (nullish (language r) EmptyString)) 0 + 1).

(** The number of repositories counted under [key]. *)
Definition countKey (key : string) (repos : list GitHubRepo) : nat :=
  List.length (filter (fun r => String.eqb (nullish (language r) EmptyString) key) repos).


(** The two characters of a byte in [sha1Hash] are hexadecimal digits. *)
Definition hexByteOk (b : Z) : bool :=
  match padStart0 2 (intToString 16 b) with
  | String c1 (String c2 EmptyString) => isLowerHex c1 && isLowerHex c2
  | _ => false
  end.

(** [rounded m' e' M E]: the binary64 number [m' * 2^e'] is one of the two
    numbers of 53 digits around the values between [M * 2^E] and
    [(M + 1) * 2^E]: with [q] the first 53 digits of [M] and [n] the number
    of the digits that follow, it is [q * 2^(E + n)] or [(q + 1) * 2^(E + n)]. *)
Definition rounded (m' : positive) (e' : Z) (M E : Z) : Prop :=
  exists q n : Z,
    0 <= n /\ 2 ^ 52 <= q < 2 ^ 53 /\ q * 2 ^ n <= M < (q + 1) * 2 ^ n
    /\ ((Zpos m' = q /\ e' = E + n)
        \/ (Zpos m' = q + 1 /\ e' = E + n)
        \/ (q + 1 = 2 ^ 53 /\ Zpos m' = 2 ^ 52 /\ e' = E + n + 1)).

(** A binary64 number with a mantissa of 53 digits. *)
Definition normal (m : positive) (e : Z) : Prop :=
  2 ^ 52 <= Zpos m < 2 ^ 53 /\ -1074 <= e <= 971.

(** The real number [m * 2^e]. *)
Definition bpow2 (e : Z) : R := powerRZ 2 e.
Definition F2R (m e : Z) : R := (IZR m * bpow2 e)%R.

Fixpoint sumZ (l : list Z) : Z :=
  match l with
  | [] => 0
  | x :: l' => x + sumZ l'
  end.

(** One more repository of the language [key] in the tally. *)
Definition bump (m : Map Z) (key : string) : Map Z :=
  Map_set m key (nullish (Map_get m key) 0 + 1).

(** The hundredths that a share shows, and the shares that [percMap] can
    hold. *)
Definition hundredths (share : string * string) : Z :=
  match parseDecimalLiteral (snd share) with
  | Some (LitDecimal _ mantissa _) => mantissa
  | _ => 0
  end.

Definition isShare (share : string * string) : Prop :=
  exists n : Z, 0 <= n <= 10000 /\ snd share = fixedDigits 2 n.

(** ** Vocabulary of the further properties *)

(** No character of [s] is [a]. *)
Fixpoint without (a : ascii) (s : string) : bool :=
  match s with
  | EmptyString => true
  | String b s' => negb (Ascii.eqb b a) && without a s'
  end.

(** A text that opens no tag, and one that also closes no attribute value. *)
Definition plainText (s : string) : bool := without "<" s.
Definition plainValue (s : string) : bool := without "<" s && without (ascii_of_nat 34) s.

(** [GET /<path>]: the request of a card, and the response of GitHub with a
    list of repositories. *)
Definition getRequest (pathname : string) (searchParams : list (string * string)) : Request :=
  mkRequest "GET" (mkURL pathname searchParams).

Definition okResponse (repos : list GitHubRepo) : ApiResponse :=
  mkApiResponse 200 "OK" (Return repos).

(** [headers.get(name)] for a name in the case of the list. *)
Fixpoint Headers_get (headers : Headers) (name : string) : option string :=
  match headers with
  | [] => None
  | (k, v) :: headers' => if String.eqb k name then Some v else Headers_get headers' name
  end.

(** *** Reading JSON

    [JSON_parse text]: what [JSON.parse] reads from the text of an object
    whose members are strings, as the list of its members in the order of
    the text; [None] for any other text. Strings are read with all their
    escapes; a [\u] escape gives the UTF-8 bytes of its code point, two
    escapes of a surrogate pair give those of the pair. *)
Definition hexDigitValue (a : ascii) : option Z :=
  let c := byteOf a in
  if (48 <=? c) && (c <=? 57) then Some (c - 48)
  else if (97 <=? c) && (c <=? 102) then Some (c - 87)
  else if (65 <=? c) && (c <=? 70) then Some (c - 55)
  else None.

Definition readHex4 (s : string) : option (Z * string) :=
  match s with
  | String a (String b (String c (String d rest))) =>
      match hexDigitValue a, hexDigitValue b, hexDigitValue c, hexDigitValue d with
      | Some x, Some y, Some z, Some w => Some (((x * 16 + y) * 16 + z) * 16 + w, rest)
      | _, _, _, _ => None
      end
  | _ => None
  end.

Definition asciiOf (c : Z) : ascii := ascii_of_N (Z.to_N c).

(** The UTF-8 bytes of a code point. *)
Definition utf8 (cp : Z) : string :=
  if cp <? 128 then String (asciiOf cp) EmptyString
  else if cp <? 2048
  then String (asciiOf (192 + cp / 64)) (String (asciiOf (128 + cp mod 64)) EmptyString)
  else if cp <? 65536
  then String (asciiOf (224 + cp / 4096))
         (String (asciiOf (128 + cp / 64 mod 64))
            (String (asciiOf (128 + cp mod 64)) EmptyString))
  else String (asciiOf (240 + cp / 262144))
         (String (asciiOf (128 + cp / 4096 mod 64))
            (String (asciiOf (128 + cp / 64 mod 64))
               (String (asciiOf (128 + cp mod 64)) EmptyString))).

(** The character of an escape of one letter. *)
Definition simpleEscape (e : ascii) : option ascii :=
  let c := byteOf e in
  if c =? 34 then Some e
  else if c =? 92 then Some e
  else if c =? 47 then Some e
  else if c =? 98 then Some (asciiOf 8)
  else if c =? 102 then Some (asciiOf 12)
  else if c =? 110 then Some (asciiOf 10)
  else if c =? 114 then Some (asciiOf 13)
  else if c =? 116 then Some (asciiOf 9)
  else None.

Definition prepend (prefix : string) (read : option (string * string))
  : option (string * string) :=
  match read with
  | Some (value, rest) => Some (prefix ++ value, rest)
  | None => None
  end.

(** The second half of a surrogate pair at the start of [s], when there is
    one. *)
Definition readLowSurrogate (s : string) : option (Z * string) :=
  match s with
  | String b (String u s') =>
      if (byteOf b =? 92) && (byteOf u =? 117) then
        match readHex4 s' with
        | Some (lo, rest) => if (56320 <=? lo) && (lo <=? 57343) then Some (lo, rest) else None
        | None => None
        end
      else None
  | _ => None
  end.

(** A string from after its opening quote: its value and what follows its
    closing quote. *)
Fixpoint readJSONString (fuel : nat) (s : string) : option (string * string) :=
  match fuel with
  | O => None
  | S fuel' =>
      match s with
      | EmptyString => None
      | String a s' =>
          if byteOf a =? 34 then Some (EmptyString, s')
          else if byteOf a <? 32 then None
          else if byteOf a =? 92 then
            match s' with
            | EmptyString => None
            | String e s'' =>
                match simpleEscape e with
                | Some c => prepend (String c EmptyString) (readJSONString fuel' s'')
                | None =>
                    if byteOf e =? 117 then
                      match readHex4 s'' with
                      | Some (hi, rest) =>
                          if (55296 <=? hi) && (hi <=? 56319) then
                            match readLowSurrogate rest with
                            | Some (lo, rest') =>
                                prepend (utf8 (65536 + (hi - 55296) * 1024 + (lo - 56320)))
                                        (readJSONString fuel' rest')
                            | None => prepend (utf8 hi) (readJSONString fuel' rest)
                            end
                          else prepend (utf8 hi) (readJSONString fuel' rest)
                      | None => None
                      end
                    else None
                end
            end
          else prepend (String a EmptyString) (readJSONString fuel' s')
      end
  end.

(** Space, tab, line feed and carriage return. *)
Definition isJSONSpace (a : ascii) : bool :=
  let c := byteOf a in (c =? 32) || (c =? 9) || (c =? 10) || (c =? 13).

Fixpoint skipSpace (s : string) : string :=
  match s with
  | String a s' => if isJSONSpace a then skipSpace s' else s
  | EmptyString => s
  end.

Definition readQuoted (s : string) : option (string * string) :=
  match skipSpace s with
  | String a s' =>
      if byteOf a =? 34 then readJSONString (S (String.length s')) s' else None
  | EmptyString => None
  end.

(** One member, [name : value], and what follows it. *)
Definition readMember (s : string) : option ((string * string) * string) :=
  match readQuoted s with
  | Some (name, rest) =>
      match skipSpace rest with
      | String a rest' =>
          if byteOf a =? 58 then
            match readQuoted rest' with
            | Some (value, rest'') => Some ((name, value), skipSpace rest'')
            | None => None
            end
          else None
      | EmptyString => None
      end
  | None => None
  end.

(** The members from the first one to the closing brace, after which only
    white space may stand. *)
Fixpoint readMembers (fuel : nat) (s : string) : option (list (string * string)) :=
  match fuel with
  | O => None
  | S fuel' =>
      match readMember s with
      | Some (member, String a rest) =>
          if byteOf a =? 44 then
            match readMembers fuel' rest with
            | Some members => Some (member :: members)
            | None => None
            end
          else if byteOf a =? 125 then
            match skipSpace rest with
            | EmptyString => Some [member]
            | String _ _ => None
            end
          else None
      | _ => None
      end
  end.

Definition JSON_parse (text : string) : option (list (string * string)) :=
  match skipSpace text with
  | String a rest =>
      if byteOf a =? 123 then
        match skipSpace rest with
        | String b rest' =>
            if byteOf b =? 125 then
              match skipSpace rest' with
              | EmptyString => Some []
              | String _ _ => None
              end
            else readMembers (String.length rest) rest
        | EmptyString => None
        end
      else None
  | EmptyString => None
  end.

(** * Properties *)

(** ** The test vectors of SHA-1 and the values of the test suite *)

Example sha1Hash_abc : sha1Hash "abc" = "a9993e364706816aba3e25717850c26c9cd0d89d".
Proof. vm_compute. reflexivity. Qed.

Example sha1Hash_empty : sha1Hash EmptyString = "da39a3ee5e6b4b0d3255bfef95601890afd80709".
Proof. vm_compute. reflexivity. Qed.

Example sha1Hash_two_blocks :
  sha1Hash "abcdbcdecdefdefgefghfghighijhijkijkljklmklmnlmnomnopnopq"
  = "84983e441c3bd26ebaae4aa1f95129e5e54670f1".
Proof. vm_compute. reflexivity. Qed.

Example parseFloat_examples :
  parseFloat "33.33" = S754_finite false 4690780486883082 (-47)
  /\ parseFloat "0.00" = S754_zero false
  /\ parseFloat "NaN" = S754_nan
  /\ parseFloat " .5x" = S754_finite false 4503599627370496 (-53).
Proof. vm_compute. repeat split. Qed.

(** ** Strings *)

Lemma append_assoc (a b c : string) : (a ++ b) ++ c = a ++ (b ++ c).
Proof. induction a as [|x a IH]; simpl; [reflexivity | now rewrite IH]. Qed.

Lemma append_nil_r (a : string) : a ++ EmptyString = a.
Proof. induction a as [|x a IH]; simpl; [reflexivity | now rewrite IH]. Qed.

Lemma length_append (a b : string) :
  String.length (a ++ b) = (String.length a + String.length b)%nat.
Proof. induction a as [|x a IH]; simpl; [reflexivity | now rewrite IH]. Qed.

Lemma startsWith_append (needle rest : string) : startsWith needle (needle ++ rest) = true.
Proof.
  induction needle as [|x needle IH]; simpl; [reflexivity|].
  now rewrite Ascii.eqb_refl, IH.
Qed.

Lemma includes_startsWith (needle s : string) :
  startsWith needle s = true -> includes needle s = true.
Proof. intros H. destruct s; simpl; rewrite H; reflexivity. Qed.

Lemma includes_append (needle before after : string) :
  includes needle (before ++ needle ++ after) = true.
Proof.
  induction before as [|x before IH].
  - cbn [append]. apply includes_startsWith, startsWith_append.
  - simpl. rewrite IH. apply orb_true_r.
Qed.

Lemma includes_append_l (needle a b : string) :
  includes needle a = true -> includes needle (a ++ b) = true.
Proof.
  assert (P : forall n s t, startsWith n s = true -> startsWith n (s ++ t) = true).
  { induction n as [|x n IH]; intros [|y s] t; simpl; try reflexivity; try discriminate.
    intros H. apply andb_true_iff in H as [H1 H2]. now rewrite H1, IH. }
  induction a as [|x a IH]; simpl; intros H.
  - rewrite orb_false_r in H. destruct needle; [|discriminate].
    destruct b; reflexivity.
  - apply orb_true_iff in H as [H|H].
    + pose proof (P needle (String x a) b H) as Q. cbn [append] in Q.
      rewrite Q. reflexivity.
    + rewrite (IH H). apply orb_true_r.
Qed.

Lemma includes_append_r (needle a b : string) :
  includes needle b = true -> includes needle (a ++ b) = true.
Proof.
  intros H. induction a as [|x a IH]; simpl; [exact H|].
  rewrite IH. apply orb_true_r.
Qed.

(** ** Maps *)

Lemma Map_get_set {V : Type} (m : Map V) (key key' : string) (value : V) :
  Map_get (Map_set m key value) key'
  = if String.eqb key key' then Some value else Map_get m key'.
Proof.
  induction m as [|[k v] m IH]; simpl.
  - reflexivity.
  - destruct (String.eqb k key) eqn:E; simpl.
    + apply String.eqb_eq in E. subst k.
      destruct (String.eqb key key'); reflexivity.
    + rewrite IH. destruct (String.eqb k key') eqn:E'; [|reflexivity].
      apply String.eqb_eq in E'. subst k. now rewrite String.eqb_sym, E.
Qed.

Lemma Map_get_In {V : Type} (m : Map V) (key : string) :
  In key (Map_keys m) <-> Map_get m key <> None.
Proof.
  induction m as [|[k v] m IH]; simpl.
  - split; [intros [] | intros H; now apply H].
  - destruct (String.eqb k key) eqn:E.
    + apply String.eqb_eq in E. split; [discriminate | now left].
    + apply String.eqb_neq in E. rewrite <- IH. split; [intros [H|H] | intros H].
      * contradiction.
      * exact H.
      * now right.
Qed.

Lemma Map_keys_set {V : Type} (m : Map V) (key : string) (value : V) :
  Map_keys (Map_set m key value)
  = if existsb (String.eqb key) (Map_keys m) then Map_keys m
    else (Map_keys m ++ [key])%list.
Proof.
  induction m as [|[k v] m IH]; simpl; [reflexivity|].
  rewrite (String.eqb_sym key k).
  destruct (String.eqb k key) eqn:E; simpl; [reflexivity|].
  rewrite IH. destruct (existsb (String.eqb key) (Map_keys m)); reflexivity.
Qed.

(** ** The tally *)

Lemma countKey_cons (key : string) (r : GitHubRepo) (repos : list GitHubRepo) :
  countKey key (r :: repos)
  = if String.eqb (nullish (language r) EmptyString) key then S (countKey key repos)
    else countKey key repos.
Proof.
  unfold countKey. cbn [filter].
  destruct (String.eqb (nullish (language r) EmptyString) key); reflexivity.
Qed.

Lemma tally_get (repos : list GitHubRepo) (acc : Map Z) (key : string) :
  Map_get (fold_left tallyStep repos acc) key
  = if (countKey key repos =? 0)%nat then Map_get acc key
    else Some (nullish (Map_get acc key) 0 + Z.of_nat (countKey key repos)).
Proof.
  revert acc. induction repos as [|r repos IH]; intros acc; [reflexivity|].
  cbn [fold_left]. rewrite IH, countKey_cons. unfold tallyStep. rewrite Map_get_set.
  destruct (String.eqb (nullish (language r) EmptyString) key) eqn:E.
  - apply String.eqb_eq in E. rewrite E.
    destruct (countKey key repos =? 0)%nat eqn:C.
    + apply Nat.eqb_eq in C. rewrite C. cbn; f_equal; lia.
    + cbn [nullish Nat.eqb]; f_equal; lia.
  - reflexivity.
Qed.

Lemma filterRepos_In (repos : list GitHubRepo) (r : GitHubRepo) :
  In r (filterRepos repos) <-> In r repos /\ language r <> None.
Proof.
  unfold filterRepos. rewrite filter_In.
  destruct (language r); split; intros [H1 H2]; split; auto; discriminate.
Qed.

Lemma countKey_filterRepos (key : string) (repos : list GitHubRepo) :
  countKey key (filterRepos repos) = countLang key repos.
Proof.
  unfold countKey, countLang, filterRepos.
  induction repos as [|r repos IH]; [reflexivity|].
  cbn [filter]. destruct (language r) as [l|] eqn:E; cbn [filter].
  - rewrite E. cbn [nullish]. destruct (String.eqb l key); cbn [List.length]; now rewrite IH.
  - exact IH.
Qed.

Lemma countLang_pos (key : string) (repos : list GitHubRepo) :
  countLang key repos <> O <-> exists r, In r repos /\ language r = Some key.
Proof.
  unfold countLang. split.
  - intros H.
    destruct (filter _ repos) as [|r rs] eqn:E; [contradiction|].
    assert (I : In r (r :: rs)) by now left.
    rewrite <- E in I. apply filter_In in I as [I1 I2].
    exists r. split; [exact I1|].
    destruct (language r); [|discriminate]. apply String.eqb_eq in I2. now subst.
  - intros [r [I L]] H.
    assert (I' : In r (filter (fun r => match language r with
                                        | Some l => String.eqb l key
                                        | None => false
                                        end) repos)).
    { apply filter_In. split; [exact I|]. rewrite L. apply String.eqb_refl. }
    destruct (filter _ repos); [destruct I' | discriminate].
Qed.

(** C9, as the code has it. Only the repositories whose language is [null]
    are dropped. The tally then holds, for every string [key], the number
    of repositories whose language is [key], and no entry when there is
    none; its keys are the languages of the repositories, the empty string
    among them when a repository has it as its language. *)
Theorem C9_tally_counts_non_null_languages (repos : list GitHubRepo) (key : string) :
  (forall r, In r (filterRepos repos) <-> In r repos /\ language r <> None)
  /\ Map_get (langs (filterRepos repos)) key
     = (if (countLang key repos =? 0)%nat then None
        else Some (Z.of_nat (countLang key repos)))
  /\ (In key (Map_keys (langs (filterRepos repos)))
      <-> exists r, In r repos /\ language r = Some key).
Proof.
  assert (G : Map_get (langs (filterRepos repos)) key
              = (if (countLang key repos =? 0)%nat then None
                 else Some (Z.of_nat (countLang key repos)))).
  { unfold langs. fold tallyStep. rewrite tally_get, countKey_filterRepos. reflexivity. }
  split; [intros r; apply filterRepos_In|]. split; [exact G|].
  rewrite Map_get_In, G, <- countLang_pos.
  destruct (countLang key repos =? 0)%nat eqn:E.
  - apply Nat.eqb_eq in E. split; intros H; contradiction.
  - apply Nat.eqb_neq in E. split; intros H; [exact E | discriminate].
Qed.

(** C9 fails as stated: a repository whose language is the empty string
    passes the filter, and the empty string becomes a key of the tally. *)
Lemma C9_counterexample_empty_language :
  let r := mkGitHubRepo 1 "repo1" "user/repo1" 1 (Some EmptyString) in
  filterRepos [r] = [r] /\ langs (filterRepos [r]) = [(EmptyString, 1)].
Proof. split; reflexivity. Qed.

(** ** The colour of a language *)

Lemma hexByteOk_all : forallb (fun n => hexByteOk (Z.of_nat n)) (seq 0 256) = true.
Proof. vm_compute. reflexivity. Qed.

Lemma hexByteOk_range (b : Z) : 0 <= b < 256 -> hexByteOk b = true.
Proof.
  intros H. pose proof hexByteOk_all as A. rewrite forallb_forall in A.
  specialize (A (Z.to_nat b)). rewrite Z2Nat.id in A by lia.
  apply A, in_seq. lia.
Qed.

Lemma allLowerHex_append (a b : string) :
  allLowerHex (a ++ b) = allLowerHex a && allLowerHex b.
Proof.
  induction a as [|x a IH]; simpl; [reflexivity|].
  now rewrite IH, andb_assoc.
Qed.

Lemma hex_of_bytes (bs : list Z) :
  Forall (fun b => 0 <= b < 256) bs ->
  let hex := join (map (fun b => padStart0 2 (intToString 16 b)) bs) in
  String.length hex = (2 * List.length bs)%nat /\ allLowerHex hex = true.
Proof.
  induction 1 as [|b bs Hb _ IH]; [split; reflexivity|].
  cbn zeta in *. cbn [map join fold_right]. fold (join (map (fun b => padStart0 2 (intToString 16 b)) bs)).
  destruct IH as [IH1 IH2]. apply hexByteOk_range in Hb. unfold hexByteOk in Hb.
  destruct (padStart0 2 (intToString 16 b)) as [|c1 [|c2 [|c3 s]]]; try discriminate.
  apply andb_true_iff in Hb as [A B].
  rewrite length_append, allLowerHex_append, IH1, IH2.
  cbn [allLowerHex String.length List.length].
  rewrite A, B. split; [lia | reflexivity].
Qed.

Lemma be_bytes_range (count : nat) (x : Z) :
  Forall (fun b => 0 <= b < 256) (SHA1.be_bytes count x).
Proof.
  unfold SHA1.be_bytes. apply Forall_forall. intros b H.
  apply in_map_iff in H as [i [<- _]].
  change 255 with (Z.ones 8). rewrite Z.land_ones by lia.
  apply Z.mod_pos_bound. reflexivity.
Qed.

Lemma digest_bytes (msg : list Z) :
  List.length (SHA1.digest msg) = 20%nat
  /\ Forall (fun b => 0 <= b < 256) (SHA1.digest msg).
Proof.
  unfold SHA1.digest. cbn zeta.
  generalize (SHA1.blocks (List.length (SHA1.pad msg)) SHA1.init (SHA1.pad msg)).
  intros s. split; [reflexivity|].
  repeat (apply Forall_app; split); apply be_bytes_range.
Qed.

Lemma sha1Hash_hex (msg : string) :
  String.length (sha1Hash msg) = 40%nat /\ allLowerHex (sha1Hash msg) = true.
Proof.
  unfold sha1Hash. cbn zeta.
  destruct (digest_bytes (TextEncoder_encode msg)) as [L F].
  destruct (hex_of_bytes _ F) as [H1 H2]. cbn zeta in H1, H2.
  rewrite H1, L. split; [reflexivity | exact H2].
Qed.

Lemma substring0_length (n : nat) (s : string) :
  String.length (substring 0 n s) = Nat.min n (String.length s).
Proof.
  revert s. induction n as [|n IH]; intros [|a s]; simpl; try reflexivity.
  now rewrite IH.
Qed.

Lemma substring0_allLowerHex (n : nat) (s : string) :
  allLowerHex s = true -> allLowerHex (substring 0 n s) = true.
Proof.
  revert s. induction n as [|n IH]; intros [|a s]; simpl; try reflexivity.
  intros H. apply andb_true_iff in H as [H1 H2]. now rewrite H1, IH.
Qed.

Lemma stringToHexColor_isHexColor (str : string) :
  isHexColor (stringToHexColor str) = true.
Proof.
  destruct (sha1Hash_hex str) as [L H].
  unfold stringToHexColor, sliceTo. cbn zeta. cbn [append isHexColor].
  rewrite substring0_length, L, substring0_allLowerHex by exact H.
  reflexivity.
Qed.

(** C10. For every string, the empty one included, the digest in
    hexadecimal has 40 characters, all of them digits or letters from [a] to
    [f], and the colour is [#] followed by the first six of them. *)
Theorem C10_color_is_well_formed (str : string) :
  String.length (sha1Hash str) = 40%nat
  /\ allLowerHex (sha1Hash str) = true
  /\ stringToHexColor str = "#" ++ substring 0 6 (sha1Hash str)
  /\ isHexColor (stringToHexColor str) = true.
Proof.
  destruct (sha1Hash_hex str) as [L H].
  repeat split; [exact L | exact H | apply stringToHexColor_isHexColor].
Qed.

Example colors_of_the_test_suite :
  stringToHexColor "Python" = "#6e3604"
  /\ stringToHexColor "TypeScript" = "#d4a86c"
  /\ stringToHexColor "JavaScript" = "#ee6209".
Proof. vm_compute. repeat split. Qed.

(** ** Failure of the request to GitHub *)

Lemma svgDocument_starts_with_newline (height : Z) (langItems : string) :
  exists rest, svgDocument height langItems = String (ascii_of_nat 10) rest.
Proof. eexists. reflexivity. Qed.

(** C8. When the response of GitHub is not a success, [fetchGitHubRepos]
    throws the error [GitHub API error: <status> <status text>]; the worker
    answers with status 500 and one JSON object that carries this message,
    and renders no SVG document. *)
Theorem C8_upstream_error_is_reported
  (NumberToString : spec_float -> string) (globalFetch : Fetch)
  (request : Request) (env : Env) (response : ApiResponse) :
  method request = "GET" ->
  globalFetch (reposUrl (nullish (username (pathname (url request))) "undefined"))
              (reposHeaders env) = Return response ->
  api_ok response = false ->
  let message := "GitHub API error: " ++ intToString 10 (api_status response) ++ " "
                 ++ api_statusText response in
  fetchGitHubRepos globalFetch (nullish (username (pathname (url request))) "undefined") env
  = Throw message
  /\ includes (intToString 10 (api_status response) ++ " " ++ api_statusText response)
              message = true
  /\ fetch NumberToString globalFetch request env
     = mkResponse 500 (("Content-Type", "application/json") :: corsHeaders)
         (Some (JSON_stringify [ ("error", "Failed to fetch repository data")
                               ; ("message", message) ]))
  /\ forall (percMap : Map string) (count : spec_float),
       body (fetch NumberToString globalFetch request env) <> Some (generateSvg percMap count).
Proof.
  intros Hm Hf Hok message.
  assert (T : fetchGitHubRepos globalFetch
                (nullish (username (pathname (url request))) "undefined") env
              = Throw message).
  { unfold fetchGitHubRepos. rewrite Hf, Hok. reflexivity. }
  assert (R : fetch NumberToString globalFetch request env
              = mkResponse 500 (("Content-Type", "application/json") :: corsHeaders)
                  (Some (JSON_stringify [ ("error", "Failed to fetch repository data")
                                        ; ("message", message) ]))).
  { unfold fetch. rewrite Hm. cbn [String.eqb Ascii.eqb Bool.eqb negb]. cbn zeta.
    rewrite T. reflexivity. }
  split; [exact T|]. split.
  - unfold message. apply includes_append_r, includes_startsWith.
    rewrite <- (append_nil_r (_ ++ _ ++ _)) at 2. apply startsWith_append.
  - split; [exact R|]. intros pm c. rewrite R. cbn [body].
    unfold generateSvg. cbn zeta.
    destruct (svgDocument_starts_with_newline
                (55 + Z.of_nat (List.length (topLangs pm c)) * 40 + 30)
                (join (mapi langItem (topLangs pm c)))) as [rest E].
    rewrite E. unfold JSON_stringify. cbn [append]. discriminate.
Qed.

Lemma C8_witness_403_forbidden :
  method (mkRequest "GET" (mkURL "/testuser" [])) = "GET"
  /\ api_ok (mkApiResponse 403 "Forbidden" (Throw EmptyString)) = false
  /\ fetch (fun _ => EmptyString)
           (fun _ _ => Return (mkApiResponse 403 "Forbidden" (Throw EmptyString)))
           (mkRequest "GET" (mkURL "/testuser" [])) (mkEnv "key")
     = mkResponse 500 (("Content-Type", "application/json") :: corsHeaders)
         (Some (JSON_stringify [ ("error", "Failed to fetch repository data")
                               ; ("message", "GitHub API error: 403 Forbidden") ])).
Proof.
  split; [reflexivity|]. split; [reflexivity|].
  exact (proj1 (proj2 (proj2
    (C8_upstream_error_is_reported (fun _ => EmptyString)
       (fun _ _ => Return (mkApiResponse 403 "Forbidden" (Throw EmptyString)))
       (mkRequest "GET" (mkURL "/testuser" [])) (mkEnv "key")
       (mkApiResponse 403 "Forbidden" (Throw EmptyString)) eq_refl eq_refl eq_refl)))).
Defined.

(** ** The reference set and the empty set *)

(** C1. On the repositories of the test suite (TypeScript twice,
    JavaScript once, Python three times, one repository without language)
    the shares are 33.33, 16.67 and 50.00, and the ranking is Python,
    TypeScript, JavaScript. *)
Theorem C1_reference_shares (NumberToString : spec_float -> string) :
  map language mockRepos
  = [ Some "TypeScript"; Some "TypeScript"; Some "JavaScript"
    ; Some "Python"; Some "Python"; Some "Python"; None ]
  /\ percMap NumberToString (langs (filterRepos mockRepos))
     = [ ("TypeScript", "33.33"); ("JavaScript", "16.67"); ("Python", "50.00") ]
  /\ sort byPercentage (percMap NumberToString (langs (filterRepos mockRepos)))
     = [ ("Python", "50.00"); ("TypeScript", "33.33"); ("JavaScript", "16.67") ]
  /\ topLangs (percMap NumberToString (langs (filterRepos mockRepos))) (count None)
     = [ ("Python", "50.00"); ("TypeScript", "33.33"); ("JavaScript", "16.67") ].
Proof. vm_compute. repeat split. Qed.

Lemma filterRepos_all_null (repos : list GitHubRepo) :
  (forall r, In r repos -> language r = None) -> filterRepos repos = [].
Proof.
  induction repos as [|r repos IH]; intros H; [reflexivity|].
  unfold filterRepos. cbn [filter]. rewrite (H r) by now left.
  apply IH. intros r' I. apply H. now right.
Qed.

Lemma slice0_nil {A : Type} (end_ : spec_float) : slice0 (@nil A) end_ = [].
Proof.
  unfold slice0. destruct (ToIntegerOrInfinity end_) as [| |z]; try reflexivity.
  destruct (z <? 0); apply firstn_nil.
Qed.

Lemma generateSvg_nil (count : spec_float) : generateSvg [] count = svgDocument 85 EmptyString.
Proof. unfold generateSvg, topLangs. cbn [Map_entries sort fold_right]. now rewrite slice0_nil. Qed.

(** C4. When every repository has a [null] language, nothing is divided:
    the tally and the map of percentages are empty, and the worker answers
    with the card of height 85 that has no row. The card is balanced markup
    and holds no [NaN]. *)
Theorem C4_no_language_gives_empty_chart
  (NumberToString : spec_float -> string) (globalFetch : Fetch)
  (request : Request) (env : Env) (response : ApiResponse) (fetched : list GitHubRepo) :
  method request = "GET" ->
  globalFetch (reposUrl (nullish (username (pathname (url request))) "undefined"))
              (reposHeaders env) = Return response ->
  api_ok response = true ->
  api_json response = Return fetched ->
  (forall r, In r fetched -> language r = None) ->
  langs (filterRepos fetched) = []
  /\ percMap NumberToString (langs (filterRepos fetched)) = []
  /\ fetch NumberToString globalFetch request env
     = mkResponse 200 (("Content-Type", "image/svg+xml") :: corsHeaders)
         (Some (svgDocument 85 EmptyString))
  /\ includes "NaN" (svgDocument 85 EmptyString) = false
  /\ includes "lang-progress" (svgDocument 85 EmptyString) = false
  /\ wellFormed (svgDocument 85 EmptyString) = true.
Proof.
  intros Hm Hf Hok Hj Hnull.
  pose proof (filterRepos_all_null fetched Hnull) as F.
  split; [now rewrite F|]. split; [now rewrite F|]. split.
  - unfold fetch. rewrite Hm. cbn [String.eqb Ascii.eqb Bool.eqb negb]. cbn zeta.
    unfold fetchGitHubRepos. rewrite Hf, Hok. cbn [negb]. rewrite Hj, F.
    cbn [langs fold_left]. cbn [percMap fold_left]. now rewrite generateSvg_nil.
  - vm_compute. repeat split.
Qed.

(** ** Binary64 arithmetic *)

Lemma emin_value : emin prec emax = -1074.
Proof. reflexivity. Qed.

Lemma fexp_value (e : Z) : fexp prec emax e = Z.max (e - 53) (-1074).
Proof. reflexivity. Qed.

Lemma digits2_pos_size (p : positive) : digits2_pos p = Pos.size p.
Proof. induction p as [p IH|p IH|]; simpl; now rewrite ?IH. Qed.

Lemma Zdigits2_bounds (m : Z) :
  0 < m -> 2 ^ (Zdigits2 m - 1) <= m < 2 ^ Zdigits2 m.
Proof.
  destruct m as [|p|p]; try lia. intros _. cbn [Zdigits2].
  rewrite digits2_pos_size.
  pose proof (Pos.size_gt p) as G. pose proof (Pos.size_le p) as L.
  assert (E : Zpos (2 ^ Pos.size p) = 2 ^ Zpos (Pos.size p)) by apply Pos2Z.inj_pow.
  assert (2 ^ Zpos (Pos.size p) = 2 * 2 ^ (Zpos (Pos.size p) - 1)).
  { rewrite <- Z.pow_succ_r by lia. f_equal. lia. }
  lia.
Qed.

Lemma Zdigits2_unique (m d : Z) : 2 ^ (d - 1) <= m < 2 ^ d -> 0 < m -> Zdigits2 m = d.
Proof.
  intros [L U] P. pose proof (Zdigits2_bounds m P) as [L' U'].
  assert (0 < Zdigits2 m) by (destruct m; try lia; reflexivity).
  destruct (Z.lt_trichotomy (Zdigits2 m) d) as [C|[C|C]]; [|exact C|]; exfalso.
  - assert (2 ^ Zdigits2 m <= 2 ^ (d - 1)) by (apply Z.pow_le_mono_r; lia). lia.
  - destruct (Z.le_gt_cases d 0) as [D|D].
    + assert (2 ^ d <= 2 ^ 0) by (apply Z.pow_le_mono_r; lia). change (2 ^ 0) with 1 in *. lia.
    + assert (2 ^ d <= 2 ^ (Zdigits2 m - 1)) by (apply Z.pow_le_mono_r; lia). lia.
Qed.

Lemma shr_1_m (r : shr_record) : 0 <= shr_m r -> shr_m (shr_1 r) = shr_m r / 2.
Proof.
  destruct r as [m b s]. cbn [shr_m]. intros P.
  destruct m as [|[p|p|]|p]; try lia; cbn [shr_1 shr_m].
  - reflexivity.
  - apply Z.div_unique with (r := 1); lia.
  - apply Z.div_unique with (r := 0); lia.
  - reflexivity.
Qed.

Lemma pow2_xO (p : positive) : 2 ^ Zpos p~0 = 2 ^ Zpos p * 2 ^ Zpos p.
Proof. replace (Zpos p~0) with (Zpos p + Zpos p) by lia. apply Z.pow_add_r; lia. Qed.

Lemma pow2_xI (p : positive) : 2 ^ Zpos p~1 = 2 * (2 ^ Zpos p * 2 ^ Zpos p).
Proof.
  replace (Zpos p~1) with (1 + (Zpos p + Zpos p)) by lia.
  rewrite Z.pow_add_r, Z.pow_add_r by lia. reflexivity.
Qed.

Lemma iter_pos_shr_1_m (p : positive) (r : shr_record) :
  0 <= shr_m r -> shr_m (SpecFloat.iter_pos shr_1 p r) = shr_m r / 2 ^ Zpos p.
Proof.
  revert r. induction p as [p IH|p IH|]; intros r P; cbn [SpecFloat.iter_pos].
  - assert (P1 : 0 <= shr_m (shr_1 r)) by (rewrite shr_1_m by exact P; apply Z.div_pos; lia).
    assert (P2 : 0 <= shr_m (SpecFloat.iter_pos shr_1 p (shr_1 r)))
      by (rewrite IH by exact P1; apply Z.div_pos; lia).
    rewrite IH, IH, shr_1_m by assumption.
    rewrite !Z.div_div by lia. f_equal. rewrite pow2_xI. lia.
  - assert (P2 : 0 <= shr_m (SpecFloat.iter_pos shr_1 p r))
      by (rewrite IH by exact P; apply Z.div_pos; lia).
    rewrite IH, IH by assumption.
    rewrite !Z.div_div by lia. f_equal. rewrite pow2_xO. lia.
  - rewrite shr_1_m by exact P. reflexivity.
Qed.

Lemma shr_m_of_loc (m : Z) (l : location) : shr_m (shr_record_of_loc m l) = m.
Proof. destruct l as [|[ | | ]]; reflexivity. Qed.

Lemma loc_of_shr_record_of_loc (m : Z) (l : location) :
  loc_of_shr_record (shr_record_of_loc m l) = l.
Proof. destruct l as [|[ | | ]]; reflexivity. Qed.

(** [shr_fexp] divides the mantissa by [2^n] and adds [n] to the exponent,
    for the [n] that brings the exponent to [fexp]; it does nothing when the
    exponent is there already. *)
Lemma shr_fexp_m (m e : Z) (l : location) :
  0 < m ->
  let n := Z.max (fexp prec emax (Zdigits2 m + e) - e) 0 in
  exists r, shr_fexp prec emax m e l = (r, e + n)
            /\ shr_m r = m / 2 ^ n
            /\ (n = 0 -> r = shr_record_of_loc m l).
Proof.
  intros P n. unfold shr_fexp, shr. subst n.
  destruct (fexp prec emax (Zdigits2 m + e) - e) as [|p|p] eqn:E.
  - eexists. split; [f_equal; lia|]. split; [|reflexivity].
    rewrite shr_m_of_loc. cbn. now rewrite Z.div_1_r.
  - eexists. split; [reflexivity|]. split; [|discriminate].
    rewrite iter_pos_shr_1_m by (rewrite shr_m_of_loc; lia).
    now rewrite shr_m_of_loc.
  - eexists. split; [f_equal; lia|]. split; [|reflexivity].
    rewrite shr_m_of_loc. cbn. now rewrite Z.div_1_r.
Qed.

Lemma round_nearest_even_cases (m : Z) (l : location) :
  round_nearest_even m l = m \/ round_nearest_even m l = m + 1.
Proof.
  destruct l as [|[ | | ]]; cbn; auto. destruct (Z.even m); auto.
Qed.

(** A mantissa of 53 bits in the range of the normal numbers is left as it
    is. *)
Lemma binary_round_aux_exact (sx : bool) (m : positive) (e : Z) :
  2 ^ 52 <= Zpos m < 2 ^ 53 -> -1074 <= e <= 971 ->
  binary_round_aux prec emax sx (Zpos m) e loc_Exact = S754_finite sx m e.
Proof.
  intros M E.
  assert (D : Zdigits2 (Zpos m) = 53) by (apply Zdigits2_unique; [exact M | lia]).
  assert (S0 : shr_fexp prec emax (Zpos m) e loc_Exact
               = (shr_record_of_loc (Zpos m) loc_Exact, e)).
  { destruct (shr_fexp_m (Zpos m) e loc_Exact) as (r & R1 & _ & R3); [lia|].
    rewrite D, fexp_value in R1, R3.
    replace (Z.max (Z.max (53 + e - 53) (-1074) - e) 0) with 0 in R1, R3 by lia.
    rewrite R1, R3 by reflexivity. f_equal. lia. }
  unfold binary_round_aux. rewrite S0. cbn [shr_record_of_loc shr_m loc_of_shr_record round_nearest_even].
  rewrite S0. cbn [shr_record_of_loc shr_m].
  replace (e <=? emax - prec) with true; [reflexivity|].
  symmetry. apply Z.leb_le. change (emax - prec) with 971. lia.
Qed.

Lemma pow2_split (a b : Z) : 0 <= a -> 0 <= b -> 2 ^ (a + b) = 2 ^ a * 2 ^ b.
Proof. intros. apply Z.pow_add_r; assumption. Qed.

Lemma pow2_pos (a : Z) : 0 <= a -> 0 < 2 ^ a.
Proof. intros. apply Z.pow_pos_nonneg; lia. Qed.

(** The mantissa of a number with [d >= 53] digits loses its last [d - 53]
    digits and keeps 53. *)
Lemma truncated_mantissa (mx d : Z) :
  0 < mx -> Zdigits2 mx = d -> 53 <= d ->
  2 ^ 52 <= mx / 2 ^ (d - 53) < 2 ^ 53.
Proof.
  intros P D L. pose proof (Zdigits2_bounds mx P) as [B1 B2]. rewrite D in B1, B2.
  pose proof (pow2_pos (d - 53) ltac:(lia)) as Q.
  replace (d - 1) with (52 + (d - 53)) in B1 by lia.
  replace d with (53 + (d - 53)) in B2 at 1 by lia.
  rewrite pow2_split in B1, B2 by lia. split.
  - apply Z.div_le_lower_bound; lia.
  - apply Z.div_lt_upper_bound; lia.
Qed.

(** Rounding in the range of the normal numbers: the result is the
    truncated mantissa [q] or its successor, at the exponent that leaves 53
    digits; when the successor is [2^53], the result is [2^52] one exponent
    higher. *)
Lemma binary_round_aux_normal (sx : bool) (mx ex : Z) (lx : location) (d : Z) :
  0 < mx -> Zdigits2 mx = d -> 53 <= d ->
  -1074 <= ex + d - 53 -> ex + d - 53 < 971 ->
  let q := mx / 2 ^ (d - 53) in
  exists m' e',
    binary_round_aux prec emax sx mx ex lx = S754_finite sx m' e'
    /\ 2 ^ 52 <= Zpos m' < 2 ^ 53
    /\ -1074 <= e' <= 971
    /\ ((Zpos m' = q /\ e' = ex + d - 53)
        \/ (Zpos m' = q + 1 /\ e' = ex + d - 53)
        \/ (q + 1 = 2 ^ 53 /\ Zpos m' = 2 ^ 52 /\ e' = ex + d - 52)).
Proof.
  intros P D L R1 R2 q.
  pose proof (truncated_mantissa mx d P D L) as Q. fold q in Q.
  destruct (shr_fexp_m mx ex lx P) as (r1 & E1 & M1 & _).
  rewrite D, fexp_value in E1, M1.
  replace (Z.max (Z.max (d + ex - 53) (-1074) - ex) 0) with (d - 53) in E1, M1 by lia.
  fold q in M1.
  unfold binary_round_aux. rewrite E1. cbv beta iota.
  set (m1 := round_nearest_even (shr_m r1) (loc_of_shr_record r1)).
  assert (C : m1 = q \/ m1 = q + 1)
    by (unfold m1; rewrite <- M1; apply round_nearest_even_cases).
  assert (P1 : 0 < m1) by lia.
  destruct (shr_fexp_m m1 (ex + (d - 53)) loc_Exact P1) as (r2 & E2 & M2 & _).
  rewrite fexp_value in E2, M2.
  destruct (Z.eq_dec m1 (2 ^ 53)) as [T|T].
  - (* the mantissa has reached 2^53 *)
    assert (D1 : Zdigits2 m1 = 54) by (rewrite T; reflexivity).
    rewrite D1 in E2, M2.
    replace (Z.max (Z.max (54 + (ex + (d - 53)) - 53) (-1074) - (ex + (d - 53))) 0)
      with 1 in E2, M2 by lia.
    rewrite E2. cbv beta iota. rewrite M2, T.
    change (2 ^ 53 / 2 ^ 1) with (Zpos (4503599627370496)).
    cbv beta iota.
    replace (ex + (d - 53) + 1 <=? emax - prec) with true
      by (symmetry; apply Z.leb_le; change (emax - prec) with 971; lia).
    eexists. eexists. split; [reflexivity|].
    split; [split; [reflexivity | reflexivity]|]. split; [lia|].
    right. right. split; [lia|]. split; [reflexivity | lia].
  - assert (D1 : Zdigits2 m1 = 53) by (apply Zdigits2_unique; lia).
    rewrite D1 in E2, M2.
    replace (Z.max (Z.max (53 + (ex + (d - 53)) - 53) (-1074) - (ex + (d - 53))) 0)
      with 0 in E2, M2 by lia.
    rewrite E2. cbv beta iota. rewrite M2. change (2 ^ 0) with 1. rewrite Z.div_1_r.
    destruct m1 as [|m'|m'] eqn:Em; try lia.
    replace (ex + (d - 53) + 0 <=? emax - prec) with true
      by (symmetry; apply Z.leb_le; change (emax - prec) with 971; lia).
    exists m', (ex + (d - 53) + 0). split; [reflexivity|].
    split; [lia|]. split; [lia|].
    destruct C as [C|C]; [left | right; left]; split; lia.
Qed.

Lemma binary_round_aux_rounded (sx : bool) (mx ex : Z) (lx : location) (d : Z) :
  0 < mx -> Zdigits2 mx = d -> 53 <= d ->
  -1074 <= ex + d - 53 -> ex + d - 53 < 971 ->
  exists m' e',
    binary_round_aux prec emax sx mx ex lx = S754_finite sx m' e'
    /\ normal m' e' /\ rounded m' e' mx ex.
Proof.
  intros P D L R1 R2.
  destruct (binary_round_aux_normal sx mx ex lx d P D L R1 R2)
    as (m' & e' & E & N1 & N2 & C).
  exists m', e'. split; [exact E|]. split; [split; assumption|].
  exists (mx / 2 ^ (d - 53)), (d - 53).
  pose proof (pow2_pos (d - 53) ltac:(lia)) as Q.
  split; [lia|]. split; [now apply truncated_mantissa|]. split.
  - split.
    + rewrite Z.mul_comm. apply Z.mul_div_le. exact Q.
    + rewrite Z.mul_comm. apply Z.mul_succ_div_gt. exact Q.
  - replace (ex + (d - 53)) with (ex + d - 53) by lia.
    replace (ex + d - 53 + 1) with (ex + d - 52) by lia. exact C.
Qed.

Lemma pos_iter_xO (p k : positive) : Zpos (Pos.iter xO p k) = Zpos p * 2 ^ Zpos k.
Proof.
  rewrite (Pos.iter_swap_gen _ _ Zpos xO (Z.mul 2)) by reflexivity.
  change (Pos.iter (Z.mul 2) (Zpos p) k) with (Z.shiftl (Zpos p) (Zpos k)).
  apply Z.shiftl_mul_pow2. lia.
Qed.

Lemma shl_align_spec (mx : positive) (ex ex' : Z) :
  ex' <= ex ->
  exists mz, shl_align mx ex ex' = (mz, ex') /\ Zpos mz = Zpos mx * 2 ^ (ex - ex').
Proof.
  intros L. unfold shl_align. destruct (ex' - ex) as [|k|k] eqn:E; try lia.
  - exists mx. assert (ex' = ex) by lia. subst ex'. rewrite Z.sub_diag. split; [reflexivity | lia].
  - eexists. split; [reflexivity|]. rewrite pos_iter_xO. do 2 f_equal. lia.
Qed.

(** The Number of a positive integer below [2^53] is the integer itself. *)
Lemma Z2Num_normal (v : Z) :
  0 < v < 2 ^ 53 ->
  exists m e, Z2Num v = S754_finite false m e
              /\ normal m e /\ -52 <= e <= 0 /\ Zpos m = v * 2 ^ (- e).
Proof.
  intros [P U]. destruct v as [|p|p]; try lia.
  pose proof (Zdigits2_bounds (Zpos p) P) as [B1 B2].
  set (d := Zdigits2 (Zpos p)) in *.
  assert (D0 : 0 < d) by reflexivity.
  assert (D : d <= 53).
  { destruct (Z.le_gt_cases d 53) as [C|C]; [exact C|].
    assert (2 ^ 53 <= 2 ^ (d - 1)) by (apply Z.pow_le_mono_r; lia). lia. }
  unfold Z2Num, binary_normalize, binary_round.
  change (Zpos (digits2_pos p)) with d. rewrite fexp_value.
  replace (Z.max (d + 0 - 53) (-1074)) with (d - 53) by lia.
  destruct (shl_align_spec p 0 (d - 53)) as (mz & E & M); [lia|].
  rewrite E. replace (0 - (d - 53)) with (53 - d) in M by lia.
  pose proof (pow2_pos (53 - d) ltac:(lia)) as Q.
  assert (N : 2 ^ 52 <= Zpos mz < 2 ^ 53).
  { assert (T1 : 2 ^ 52 = 2 ^ (d - 1) * 2 ^ (53 - d))
      by (rewrite <- pow2_split by lia; f_equal; lia).
    assert (T2 : 2 ^ 53 = 2 ^ d * 2 ^ (53 - d))
      by (rewrite <- pow2_split by lia; f_equal; lia).
    rewrite M, T1, T2. split.
    - apply Z.mul_le_mono_nonneg_r; lia.
    - apply Z.mul_lt_mono_pos_r; lia. }
  exists mz, (d - 53). split; [apply binary_round_aux_exact; [exact N | lia]|].
  split; [split; [exact N | lia]|]. split; [lia|].
  rewrite M. do 2 f_equal. lia.
Qed.

(** The quotient of two positive integers before rounding: 53 or 54
    digits of it, and the exponent that goes with them. *)
Lemma SFdiv_core_binary_spec (m1 e1 m2 e2 d1 d2 : Z) :
  0 < m1 -> 0 < m2 -> Zdigits2 m1 = d1 -> Zdigits2 m2 = d2 ->
  d1 - d2 <= 52 -> -1074 <= d1 + e1 - (d2 + e2) - 53 ->
  exists q l,
    SFdiv_core_binary prec emax m1 e1 m2 e2 = (q, d1 + e1 - (d2 + e2) - 53, l)
    /\ 2 ^ 52 <= q < 2 ^ 54
    /\ m2 * q <= m1 * 2 ^ (53 - d1 + d2) < m2 * (q + 1).
Proof.
  intros P1 P2 D1 D2 L R.
  pose proof (Zdigits2_bounds m1 P1) as [A1 A2]. rewrite D1 in A1, A2.
  pose proof (Zdigits2_bounds m2 P2) as [B1 B2]. rewrite D2 in B1, B2.
  assert (0 < d1) by (destruct m1; try lia; subst d1; reflexivity).
  assert (0 < d2) by (destruct m2; try lia; subst d2; reflexivity).
  unfold SFdiv_core_binary. rewrite D1, D2, fexp_value.
  replace (Z.min (Z.max (d1 + e1 - (d2 + e2) - 53) (-1074)) (e1 - e2))
    with (d1 + e1 - (d2 + e2) - 53) by lia.
  replace (e1 - e2 - (d1 + e1 - (d2 + e2) - 53)) with (53 - d1 + d2) by lia.
  set (s := 53 - d1 + d2).
  assert (S0 : 0 < s) by (unfold s; lia).
  replace (match s with 0 => m1 | Zpos _ => Z.shiftl m1 s | Zneg _ => 0 end)
    with (m1 * 2 ^ s)
    by (destruct s; try lia; now rewrite Z.shiftl_mul_pow2 by lia).
  pose proof (Z_div_mod (m1 * 2 ^ s) m2 ltac:(lia)) as DM.
  destruct (Z.div_eucl (m1 * 2 ^ s) m2) as [q r]. destruct DM as [DM1 DM2].
  exists q. eexists. split; [reflexivity|].
  pose proof (pow2_pos s ltac:(lia)) as Q.
  assert (M1 : 2 ^ (d2 + 52) <= m1 * 2 ^ s < 2 ^ (d2 + 53)).
  { replace (d2 + 52) with ((d1 - 1) + s) by (unfold s; lia).
    replace (d2 + 53) with (d1 + s) by (unfold s; lia).
    rewrite !pow2_split by lia. split.
    - apply Z.mul_le_mono_nonneg_r; lia.
    - apply Z.mul_lt_mono_pos_r; lia. }
  assert (T1 : 2 ^ (d2 + 52) = 2 ^ d2 * 2 ^ 52) by (apply pow2_split; lia).
  assert (T2 : 2 ^ (d2 + 53) = 2 ^ (d2 - 1) * 2 ^ 54).
  { replace (d2 + 53) with ((d2 - 1) + 54) by lia. apply pow2_split; lia. }
  pose proof (pow2_pos (d2 - 1) ltac:(lia)) as Q1.
  split; [|lia]. split; nia.
Qed.

(** ** The real value of a binary64 number *)

Lemma bpow2_pos (e : Z) : (0 < bpow2 e)%R.
Proof. apply powerRZ_lt. lra. Qed.

Lemma bpow2_add (a b : Z) : bpow2 (a + b) = (bpow2 a * bpow2 b)%R.
Proof. apply powerRZ_add. lra. Qed.

Lemma bpow2_IZR (n : Z) : 0 <= n -> bpow2 n = IZR (2 ^ n).
Proof.
  intros P. unfold bpow2. rewrite <- (Z2Nat.id n P), <- pow_powerRZ, pow_IZR.
  reflexivity.
Qed.

Lemma bpow2_opp (n : Z) : (bpow2 (- n) * bpow2 n = 1)%R.
Proof.
  rewrite <- bpow2_add. replace (- n + n) with 0 by lia. reflexivity.
Qed.

Lemma F2R_pos (m : positive) (e : Z) : (0 < F2R (Zpos m) e)%R.
Proof.
  unfold F2R. apply Rmult_lt_0_compat; [apply IZR_lt; lia | apply bpow2_pos].
Qed.

(** The error of a rounding is at most one unit in the last place, which is
    at most [2^-52] times the value. *)
Lemma rounded_error (m' : positive) (e' M E : Z) (X : R) :
  rounded m' e' M E ->
  (F2R M E <= X < F2R (M + 1) E)%R ->
  (Rabs (F2R (Zpos m') e' - X) * IZR (2 ^ 52) <= X)%R.
Proof.
  intros (q & n & Hn & [Q1 Q2] & [M1 M2] & C) [X1 X2].
  pose proof (bpow2_pos E) as PE.
  pose proof (pow2_pos n Hn) as PN. apply IZR_lt in PN.
  set (u := (bpow2 E * IZR (2 ^ n))%R).
  assert (U : (0 < u)%R) by (apply Rmult_lt_0_compat; assumption).
  assert (EU : bpow2 (E + n) = u) by (rewrite bpow2_add, (bpow2_IZR n Hn); reflexivity).
  assert (EU1 : bpow2 (E + n + 1) = (2 * u)%R).
  { rewrite bpow2_add, EU, (bpow2_IZR 1) by lia. change (2 ^ 1)%Z with 2%Z. lra. }
  apply IZR_le in M1. assert (M2' : (M + 1 <= (q + 1) * 2 ^ n)%Z) by lia.
  apply IZR_le in M2'. rewrite mult_IZR in M1, M2'. rewrite plus_IZR in M2'.
  rewrite plus_IZR in M2'. unfold F2R in X1, X2. rewrite plus_IZR in X2.
  apply IZR_le in Q1.
  assert (L1 : (IZR q * u <= X)%R).
  { apply Rle_trans with (2 := X1). unfold u.
    replace (IZR q * (bpow2 E * IZR (2 ^ n)))%R with (IZR q * IZR (2 ^ n) * bpow2 E)%R by ring.
    apply Rmult_le_compat_r; lra. }
  assert (L2 : (X < (IZR q + 1) * u)%R).
  { apply Rlt_le_trans with (1 := X2). unfold u.
    replace ((IZR q + 1) * (bpow2 E * IZR (2 ^ n)))%R
      with ((IZR q + 1) * IZR (2 ^ n) * bpow2 E)%R by ring.
    apply Rmult_le_compat_r; lra. }
  assert (V : F2R (Zpos m') e' = (IZR q * u)%R \/ F2R (Zpos m') e' = ((IZR q + 1) * u)%R).
  { unfold F2R. destruct C as [[C1 C2]|[[C1 C2]|[C1 [C2 C3]]]]; rewrite C1 || rewrite C2.
    - left. now rewrite C2, EU.
    - right. now rewrite C2, EU, plus_IZR.
    - right. rewrite C3, EU1.
      assert (T : (IZR q + 1 = IZR (2 ^ 53))%R) by (rewrite <- C1, plus_IZR; reflexivity).
      rewrite T. change (2 ^ 53) with (2 * 2 ^ 52). rewrite mult_IZR. ring. }
  assert (B : (u * IZR (2 ^ 52) <= X)%R).
  { apply Rle_trans with (2 := L1). rewrite Rmult_comm.
    apply Rmult_le_compat_r; lra. }
  assert (P52 : (0 < IZR (2 ^ 52))%R) by (apply IZR_lt; reflexivity).
  assert (A : (Rabs (F2R (Zpos m') e' - X) <= u)%R).
  { apply Rabs_le. destruct V as [V|V]; rewrite V; lra. }
  apply Rle_trans with (2 := B). apply Rmult_le_compat_r; lra.
Qed.

Lemma pow2_lt_inv (a b : Z) : 0 <= b -> 2 ^ a < 2 ^ b -> a < b.
Proof. intros P H. apply (Z.pow_lt_mono_r_iff 2); [lia | exact P | exact H]. Qed.

Lemma Zdigits2_range (m a b : Z) :
  0 <= a -> 0 <= b -> 2 ^ a <= m < 2 ^ b -> a < Zdigits2 m <= b.
Proof.
  intros A B [L U]. pose proof (pow2_pos a A) as PA.
  pose proof (Zdigits2_bounds m ltac:(lia)) as [L' U'].
  assert (0 < Zdigits2 m) by (destruct m; try lia; reflexivity).
  split.
  - apply pow2_lt_inv; lia.
  - assert (Zdigits2 m - 1 < b) by (apply pow2_lt_inv; lia). lia.
Qed.

Lemma Z2Num_value (v : Z) :
  0 < v < 2 ^ 53 ->
  exists m e, Z2Num v = S754_finite false m e
              /\ normal m e /\ -52 <= e <= 0 /\ F2R (Zpos m) e = IZR v.
Proof.
  intros H. destruct (Z2Num_normal v H) as (m & e & E & N & B & M).
  exists m, e. split; [exact E|]. split; [exact N|]. split; [exact B|].
  unfold F2R. rewrite M, mult_IZR, <- bpow2_IZR by lia.
  rewrite Rmult_assoc, bpow2_opp. ring.
Qed.

(** The quotient of two integers of at most 53 digits, scaled by powers of
    two and rounded: the error is at most [2^-52] times the quotient. *)
Lemma quotient_error (s : bool) (m1 e1 m2 e2 : Z) :
  0 < m1 < 2 ^ 53 -> 0 < m2 < 2 ^ 53 -> -900 <= e1 - e2 <= 900 ->
  exists m e,
    (let '(q, e', l) := SFdiv_core_binary prec emax m1 e1 m2 e2 in
     binary_round_aux prec emax s q e' l) = S754_finite s m e
    /\ normal m e
    /\ e1 - e2 - 106 <= e <= e1 - e2 + 1
    /\ (Rabs (F2R (Zpos m) e - F2R m1 e1 / F2R m2 e2) * IZR (2 ^ 52)
        <= F2R m1 e1 / F2R m2 e2)%R.
Proof.
  intros [P1 U1] [P2 U2] R.
  destruct (Zdigits2_range m1 0 53) as [A1 A2]; [lia | lia | change (2 ^ 0) with 1; lia|].
  destruct (Zdigits2_range m2 0 53) as [B1 B2]; [lia | lia | change (2 ^ 0) with 1; lia|].
  set (d1 := Zdigits2 m1) in *. set (d2 := Zdigits2 m2) in *.
  destruct (SFdiv_core_binary_spec m1 e1 m2 e2 d1 d2) as (q & l & E & Q & D);
    try reflexivity; try lia.
  rewrite E.
  destruct (Zdigits2_range q 52 54) as [C1 C2]; [lia | lia | exact Q|].
  destruct (binary_round_aux_rounded s q (d1 + e1 - (d2 + e2) - 53) l (Zdigits2 q))
    as (m & e & Eb & N & Rd); try reflexivity; try lia.
  exists m, e. split; [exact Eb|]. split; [exact N|].
  assert (EB : e1 - e2 - 106 <= e <= e1 - e2 + 1).
  { destruct Rd as (q' & n & Hn & [Q1 Q2] & [M1 M2] & C).
    assert (n < 2).
    { apply pow2_lt_inv; [lia|]. change (2 ^ 2) with 4.
      pose proof (pow2_pos n Hn). nia. }
    lia. }
  split; [exact EB|].
  apply (rounded_error m e q (d1 + e1 - (d2 + e2) - 53)); [exact Rd|].
  set (sh := 53 - d1 + d2) in *.
  pose proof (bpow2_pos (d1 + e1 - (d2 + e2) - 53)) as PE.
  set (w := bpow2 (d1 + e1 - (d2 + e2) - 53)) in *.
  pose proof (bpow2_pos e2) as P2'.
  assert (W : bpow2 e1 = (IZR (2 ^ sh) * w * bpow2 e2)%R).
  { unfold w. rewrite <- bpow2_IZR, <- !bpow2_add by (unfold sh; lia).
    apply (f_equal bpow2). unfold sh. lia. }
  assert (X : (F2R m1 e1 / F2R m2 e2 = IZR (m1 * 2 ^ sh) / IZR m2 * w)%R).
  { unfold F2R. rewrite W, mult_IZR. field.
    split; [apply not_0_IZR; lia | lra]. }
  rewrite X. destruct D as [D1 D2].
  apply IZR_le in D1.
  apply IZR_lt in D2. rewrite (mult_IZR m2) in D1, D2. rewrite plus_IZR in D2.
  assert (PM : (0 < IZR m2)%R) by (apply IZR_lt; lia).
  unfold F2R. rewrite plus_IZR. fold w. split.
  - apply Rmult_le_compat_r; [lra|].
    apply Rmult_le_reg_r with (r := IZR m2); [exact PM|].
    unfold Rdiv. rewrite Rmult_assoc, Rinv_l by lra. lra.
  - apply Rmult_lt_compat_r; [lra|].
    apply Rmult_lt_reg_r with (r := IZR m2); [exact PM|].
    unfold Rdiv. rewrite Rmult_assoc, Rinv_l by lra. lra.
Qed.

Lemma Num_div_error (sa sb : bool) (ma mb : positive) (ea eb : Z) :
  normal ma ea -> normal mb eb -> -900 <= ea - eb <= 900 ->
  exists m e,
    Num_div (S754_finite sa ma ea) (S754_finite sb mb eb) = S754_finite (xorb sa sb) m e
    /\ normal m e
    /\ ea - eb - 106 <= e <= ea - eb + 1
    /\ (Rabs (F2R (Zpos m) e - F2R (Zpos ma) ea / F2R (Zpos mb) eb) * IZR (2 ^ 52)
        <= F2R (Zpos ma) ea / F2R (Zpos mb) eb)%R.
Proof.
  intros [A _] [B _] R.
  exact (quotient_error (xorb sa sb) (Zpos ma) ea (Zpos mb) eb
           ltac:(lia) ltac:(lia) R).
Qed.

Lemma Num_mul_error (sa sb : bool) (ma mb : positive) (ea eb : Z) :
  normal ma ea -> normal mb eb -> -1000 <= ea + eb <= 800 ->
  exists m e,
    Num_mul (S754_finite sa ma ea) (S754_finite sb mb eb) = S754_finite (xorb sa sb) m e
    /\ normal m e
    /\ (Rabs (F2R (Zpos m) e - F2R (Zpos ma) ea * F2R (Zpos mb) eb) * IZR (2 ^ 52)
        <= F2R (Zpos ma) ea * F2R (Zpos mb) eb)%R.
Proof.
  intros [[A1 A2] _] [[B1 B2] _] R.
  unfold Num_mul, SFmul.
  assert (P : 2 ^ 104 <= Zpos (ma * mb) < 2 ^ 106).
  { rewrite Pos2Z.inj_mul. change (2 ^ 104) with (2 ^ 52 * 2 ^ 52).
    change (2 ^ 106) with (2 ^ 53 * 2 ^ 53). split; nia. }
  destruct (Zdigits2_range (Zpos (ma * mb)) 104 106) as [C1 C2]; [lia | lia | exact P|].
  destruct (binary_round_aux_rounded (xorb sa sb) (Zpos (ma * mb)) (ea + eb) loc_Exact
              (Zdigits2 (Zpos (ma * mb))))
    as (m & e & Eb & N & Rd); try reflexivity; try lia.
  exists m, e. split; [exact Eb|]. split; [exact N|].
  apply (rounded_error m e (Zpos (ma * mb)) (ea + eb)); [exact Rd|].
  assert (X : (F2R (Zpos ma) ea * F2R (Zpos mb) eb = F2R (Zpos (ma * mb)) (ea + eb))%R).
  { unfold F2R. rewrite Pos2Z.inj_mul, mult_IZR, bpow2_add. ring. }
  rewrite X. pose proof (bpow2_pos (ea + eb)). unfold F2R. rewrite plus_IZR.
  split; [lra|]. apply Rmult_lt_compat_r; lra.
Qed.

(** ** The percentage of a language *)

Lemma F2R_scaled (m e : Z) : e <= 0 -> (F2R m e * IZR (2 ^ (- e)) = IZR m)%R.
Proof.
  intros H. unfold F2R. rewrite <- bpow2_IZR by lia.
  rewrite Rmult_assoc, (Rmult_comm (bpow2 e)), bpow2_opp. ring.
Qed.

Lemma roundHalfUp_error (m : positive) (e : Z) :
  0 <= roundHalfUp m e 100
  /\ (2 * IZR (roundHalfUp m e 100) - 1 <= 200 * F2R (Zpos m) e
      <= 2 * IZR (roundHalfUp m e 100) + 1)%R.
Proof.
  unfold roundHalfUp. destruct (0 <=? e) eqn:E.
  - apply Z.leb_le in E. pose proof (pow2_pos e E). split; [nia|].
    unfold F2R. rewrite bpow2_IZR, !mult_IZR by exact E. lra.
  - apply Z.leb_gt in E.
    pose proof (pow2_pos (- e) ltac:(lia)) as P.
    assert (D : 2 ^ (1 - e) = 2 * 2 ^ (- e)).
    { replace (1 - e) with (1 + - e) by lia. rewrite pow2_split by lia. reflexivity. }
    rewrite D.
    set (N := 2 * Zpos m * 100 + 2 ^ (- e)).
    pose proof (Z.mul_div_le N (2 * 2 ^ (- e)) ltac:(lia)) as L.
    pose proof (Z.mul_succ_div_gt N (2 * 2 ^ (- e)) ltac:(lia)) as U.
    set (n := N / (2 * 2 ^ (- e))) in *.
    split; [apply Z.div_pos; unfold N; lia|].
    pose proof (F2R_scaled (Zpos m) e ltac:(lia)) as S.
    apply IZR_lt in P. set (p := IZR (2 ^ (- e))) in *.
    apply IZR_le in L. apply IZR_lt in U. unfold N, Z.succ in L, U.
    rewrite !mult_IZR, !plus_IZR, ?mult_IZR in L, U. fold p in L, U.
    rewrite <- S in L, U. clearbody p n. clear N. rewrite plus_IZR in U.
    split; (apply Rmult_le_reg_r with (r := p); [exact P|]); lra.
Qed.

Lemma atLeast1e21_small (m : positive) (e : Z) :
  (F2R (Zpos m) e < 101)%R -> atLeast1e21 m e = false.
Proof.
  intros H. unfold atLeast1e21. destruct (0 <=? e) eqn:E.
  - apply Z.leb_le in E. apply Z.leb_gt.
    unfold F2R in H. rewrite bpow2_IZR, <- mult_IZR in H by exact E.
    apply lt_IZR in H. change (10 ^ 21) with 1000000000000000000000. lia.
  - apply Z.leb_gt in E. apply Z.leb_gt.
    pose proof (pow2_pos (- e) ltac:(lia)) as P.
    pose proof (F2R_scaled (Zpos m) e ltac:(lia)) as S.
    assert (T : (IZR (Zpos m) < IZR (101 * 2 ^ (- e)))%R).
    { rewrite <- S, mult_IZR. apply Rmult_lt_compat_r; [apply IZR_lt; exact P | exact H]. }
    apply lt_IZR in T. change (10 ^ 21) with 1000000000000000000000. lia.
Qed.

(** The share of a language that [val] of [total] repositories have, read
    in hundredths, is within one hundredth of [100 * val / total]. *)
Lemma perc_value (NumberToString : spec_float -> string) (val total : Z) :
  0 < val <= total -> total < 2 ^ 53 ->
  exists n, perc NumberToString val total = fixedDigits 2 n
            /\ 0 <= n /\ - total < total * n - 10000 * val < total.
Proof.
  intros [V1 V2] T.
  destruct (Z2Num_value val ltac:(lia)) as (ma & ea & Ea & Na & Ba & Va).
  destruct (Z2Num_value total ltac:(lia)) as (mb & eb & Eb & Nb & Bb & Vb).
  destruct (Z2Num_value 100 ltac:(lia)) as (mh & eh & Eh & Nh & Bh & Vh).
  destruct (Num_div_error false false ma mb ea eb Na Nb ltac:(lia))
    as (mq & eq & Eq & Nq & Bq & Rq).
  destruct (Num_mul_error false false mq mh eq eh Nq Nh ltac:(lia))
    as (mp & ep & Ep & Np & Rp).
  cbn [xorb] in Eq, Ep.
  unfold perc. rewrite Ea, Eb, Eh, Eq, Ep. cbn [toFixed].
  rewrite Va, Vb in Rq. rewrite Vh in Rp.
  set (q := F2R (Zpos mq) eq) in *. set (x := F2R (Zpos mp) ep) in *.
  assert (PT : (0 < IZR total)%R) by (apply IZR_lt; lia).
  assert (PV : (0 < IZR val)%R) by (apply IZR_lt; lia).
  set (r := (IZR val / IZR total)%R) in *.
  assert (R0 : (0 < r)%R) by (apply Rdiv_lt_0_compat; assumption).
  assert (R1 : (r <= 1)%R).
  { apply Rmult_le_reg_r with (r := IZR total); [exact PT|].
    unfold r, Rdiv. rewrite Rmult_assoc, Rinv_l by lra. apply IZR_le in V2. lra. }
  assert (RT : (r * IZR total = IZR val)%R).
  { unfold r, Rdiv. rewrite Rmult_assoc, Rinv_l by lra. ring. }
  change (2 ^ 52) with 4503599627370496 in Rq, Rp.
  pose proof (Rle_abs (q - r)) as A1.
  pose proof (Rle_abs (- (q - r))) as A2. rewrite Rabs_Ropp in A2.
  pose proof (Rle_abs (x - q * 100)) as A3.
  pose proof (Rle_abs (- (x - q * 100))) as A4. rewrite Rabs_Ropp in A4.
  assert (X : (x < 101)%R) by lra.
  rewrite (atLeast1e21_small mp ep X). cbn [append].
  change (10 ^ Z.of_nat 2) with 100.
  destruct (roundHalfUp_error mp ep) as (N0 & N1 & N2). fold x in N1, N2.
  set (n := roundHalfUp mp ep 100) in *.
  exists n. split; [reflexivity|]. split; [exact N0|].
  assert (B1 : (IZR n < 10000 * r + 1)%R) by lra.
  assert (B2 : (10000 * r - 1 < IZR n)%R) by lra.
  apply (Rmult_lt_compat_r (IZR total) _ _ PT) in B1, B2.
  rewrite Rmult_plus_distr_r, Rmult_assoc, RT in B1.
  rewrite Rmult_minus_distr_r, Rmult_assoc, RT in B2.
  clearbody n q x r.
  assert (C1 : (IZR (total * n - 10000 * val) < IZR total)%R)
    by (rewrite minus_IZR, !mult_IZR; lra).
  assert (C2 : (IZR (- total) < IZR (total * n - 10000 * val))%R)
    by (rewrite opp_IZR, minus_IZR, !mult_IZR; lra).
  apply lt_IZR in C1, C2. lia.
Qed.

(** ** Printing and reading decimal digits *)

Lemma digitChar_decimal (d : Z) :
  0 <= d < 10 -> isDigit (digitChar d) = true /\ byteOf (digitChar d) = 48 + d.
Proof.
  intros H.
  assert (C : d = 0 \/ d = 1 \/ d = 2 \/ d = 3 \/ d = 4 \/ d = 5 \/ d = 6 \/ d = 7
              \/ d = 8 \/ d = 9) by lia.
  repeat (destruct C as [C|C]; [subst d; split; reflexivity|]).
  subst d; split; reflexivity.
Qed.

Lemma digitsRadix_append (fuel : nat) (n : Z) (acc : string) :
  digitsRadix fuel 10 n acc = digitsRadix fuel 10 n EmptyString ++ acc.
Proof.
  revert n acc. induction fuel as [|fuel IH]; intros n acc; [reflexivity|].
  cbn [digitsRadix]. destruct (n / 10 =? 0); [reflexivity|].
  rewrite IH, (IH _ (String _ EmptyString)), append_assoc. reflexivity.
Qed.

Lemma digitsRadix_S (fuel : nat) (n : Z) (acc : string) :
  digitsRadix (S fuel) 10 n acc
  = if n / 10 =? 0 then String (digitChar (n mod 10)) acc
    else digitsRadix fuel 10 (n / 10) (String (digitChar (n mod 10)) acc).
Proof. reflexivity. Qed.

Lemma pow10_pos (f : nat) : 0 < 10 ^ Z.of_nat f.
Proof. apply Z.pow_pos_nonneg; lia. Qed.

Lemma pow10_succ (f : nat) : 10 ^ Z.of_nat (S f) = 10 * 10 ^ Z.of_nat f.
Proof. rewrite Nat2Z.inj_succ, Z.pow_succ_r by lia. reflexivity. Qed.

(** With enough fuel, the amount of fuel does not matter. *)
Lemma digitsRadix_fuel (f1 f2 : nat) (n : Z) (acc : string) :
  0 <= n < 10 ^ Z.of_nat (S f1) -> n < 10 ^ Z.of_nat (S f2) ->
  digitsRadix (S f1) 10 n acc = digitsRadix (S f2) 10 n acc.
Proof.
  revert f2 n acc. induction f1 as [|f1 IH]; intros f2 n acc [N0 N1] N2.
  - change (10 ^ Z.of_nat 1) with 10 in N1. cbn [digitsRadix].
    replace (n / 10 =? 0) with true; [reflexivity|].
    symmetry. apply Z.eqb_eq, Z.div_small. lia.
  - rewrite pow10_succ in N1, N2. rewrite (digitsRadix_S (S f1)), (digitsRadix_S f2).
    destruct (n / 10 =? 0) eqn:E; [reflexivity|]. apply Z.eqb_neq in E.
    assert (Q1 : 0 < n / 10) by (pose proof (Z.div_pos n 10); lia).
    assert (Q2 : n / 10 < 10 ^ Z.of_nat (S f1)) by (apply Z.div_lt_upper_bound; lia).
    assert (Q3 : n / 10 < 10 ^ Z.of_nat f2) by (apply Z.div_lt_upper_bound; lia).
    destruct f2 as [|f2]; [change (10 ^ Z.of_nat 0) with 1 in Q3; lia|].
    apply IH; lia.
Qed.

Lemma intToString_fuel (n : Z) : 0 <= n -> n < 10 ^ Z.of_nat (S (Z.to_nat (Z.log2 n))).
Proof.
  intros N. rewrite Nat2Z.inj_succ, Z2Nat.id by apply Z.log2_nonneg.
  destruct (Z.eq_dec n 0) as [->|P]; [reflexivity|].
  pose proof (Z.log2_spec n ltac:(lia)) as [_ U].
  pose proof (Z.log2_nonneg n).
  assert (2 ^ Z.succ (Z.log2 n) <= 10 ^ Z.succ (Z.log2 n))
    by (apply Z.pow_le_mono_l; lia).
  lia.
Qed.

Lemma intToString_nonneg (n : Z) (fuel : nat) :
  0 <= n < 10 ^ Z.of_nat (S fuel) ->
  intToString 10 n = digitsRadix (S fuel) 10 n EmptyString.
Proof.
  intros [N0 N1]. unfold intToString.
  replace (n <? 0) with false by (symmetry; apply Z.ltb_ge; exact N0).
  apply digitsRadix_fuel; [|exact N1]. split; [exact N0 | now apply intToString_fuel].
Qed.

(** The digits of [n] are those of [n / 10] and the last one. *)
Lemma intToString_step (n : Z) :
  10 <= n -> intToString 10 n = intToString 10 (n / 10) ++ String (digitChar (n mod 10)) EmptyString.
Proof.
  intros N.
  set (f := Z.to_nat (Z.log2 (n / 10))).
  assert (Q : 0 < n / 10) by (apply Z.div_str_pos; lia).
  pose proof (intToString_fuel (n / 10) ltac:(lia)) as F. fold f in F.
  rewrite (intToString_nonneg n (S f)).
  - rewrite (intToString_nonneg (n / 10) f) by lia.
    rewrite (digitsRadix_S (S f) n).
    replace (n / 10 =? 0) with false by (symmetry; apply Z.eqb_neq; lia).
    apply digitsRadix_append.
  - rewrite pow10_succ. split; [lia|].
    pose proof (Z.mul_succ_div_gt n 10 ltac:(lia)). lia.
Qed.

Lemma intToString_digit (n : Z) :
  0 <= n < 10 -> intToString 10 n = String (digitChar n) EmptyString.
Proof.
  intros N. rewrite (intToString_nonneg n 0) by (change (10 ^ Z.of_nat 1) with 10; lia).
  cbn [digitsRadix].
  rewrite Z.mod_small by lia.
  replace (n / 10 =? 0) with true; [reflexivity|].
  symmetry. apply Z.eqb_eq, Z.div_small. lia.
Qed.

Lemma substring_prefix (a b : string) : substring 0 (String.length a) (a ++ b) = a.
Proof. induction a as [|x a IH]; cbn; [now destruct b | now rewrite IH]. Qed.

Lemma substring_all (b : string) : substring 0 (String.length b) b = b.
Proof. induction b as [|x b IH]; cbn; [reflexivity | now rewrite IH]. Qed.

Lemma substring_suffix (a b : string) :
  substring (String.length a) (String.length b) (a ++ b) = b.
Proof. induction a as [|x a IH]; cbn; [apply substring_all | exact IH]. Qed.

Lemma intToString_length (n : Z) : 0 <= n -> (1 <= String.length (intToString 10 n))%nat.
Proof.
  intros N. rewrite (intToString_nonneg n _ (conj N (intToString_fuel n N))).
  rewrite digitsRadix_S. destruct (n / 10 =? 0); [cbn; lia|].
  rewrite digitsRadix_append, length_append. cbn. lia.
Qed.

(** [toFixed(2)] prints the hundreds, a point and two digits. *)
Lemma fixedDigits_2 (n : Z) :
  0 <= n ->
  fixedDigits 2 n
  = intToString 10 (n / 100)
    ++ "." ++ String (digitChar (n / 10 mod 10)) (String (digitChar (n mod 10)) EmptyString).
Proof.
  intros N.
  set (c1 := digitChar (n / 10 mod 10)). set (c0 := digitChar (n mod 10)).
  assert (A : padStart0 3 (intToString 10 n)
              = intToString 10 (n / 100) ++ String c1 (String c0 EmptyString)).
  { destruct (Z.lt_ge_cases n 10) as [C|C].
    - rewrite (intToString_digit n) by lia.
      rewrite (Z.div_small n 100) by lia. unfold c1, c0.
      rewrite (Z.div_small n 10), (Z.mod_small n 10) by lia. reflexivity.
    - rewrite (intToString_step n C). fold c0.
      destruct (Z.lt_ge_cases n 100) as [D|D].
      + rewrite (intToString_digit (n / 10))
          by (split; [apply Z.div_pos; lia | apply Z.div_lt_upper_bound; lia]).
        rewrite (Z.div_small n 100) by lia. unfold c1.
        rewrite (Z.mod_small (n / 10)) by
          (split; [apply Z.div_pos; lia | apply Z.div_lt_upper_bound; lia]).
        reflexivity.
      + assert (C' : 10 <= n / 10) by (apply Z.div_le_lower_bound; lia).
        rewrite (intToString_step (n / 10) C'). fold c1.
        rewrite Z.div_div by lia. change (10 * 10) with 100.
        rewrite append_assoc. cbn [append].
        unfold padStart0.
        pose proof (intToString_length (n / 100) ltac:(apply Z.div_pos; lia)) as Ln.
        rewrite length_append. cbn [String.length].
        replace (3 - (String.length (intToString 10 (n / 100)) + 2))%nat with 0%nat by lia.
        reflexivity. }
  unfold fixedDigits. cbn [Nat.eqb Nat.add]. cbn zeta. rewrite A.
  rewrite length_append. cbn [String.length].
  replace (String.length (intToString 10 (n / 100)) + 2 - 2)%nat
    with (String.length (intToString 10 (n / 100))) by lia.
  rewrite substring_prefix.
  change 2%nat with (String.length (String c1 (String c0 EmptyString))) at 1.
  rewrite substring_suffix. reflexivity.
Qed.

Lemma spanDigits_printed (fuel : nat) (n : Z) (rest : string) :
  0 <= n < 10 ^ Z.of_nat (S fuel) ->
  exists k : nat,
    (1 <= k)%nat
    /\ forall (a : Z) (c : nat),
         spanDigits (digitsRadix (S fuel) 10 n rest) a c
         = spanDigits rest (a * 10 ^ Z.of_nat k + n) (c + k).
Proof.
  revert n rest. induction fuel as [|fuel IH]; intros n rest [N0 N1].
  - change (10 ^ Z.of_nat 1) with 10 in N1. exists 1%nat. split; [lia|]. intros a c.
    rewrite digitsRadix_S, Z.div_small, Z.mod_small by lia. cbn [Z.eqb spanDigits].
    destruct (digitChar_decimal n ltac:(lia)) as [D1 D2]. rewrite D1, D2.
    change (10 ^ Z.of_nat 1) with 10. f_equal; lia.
  - rewrite digitsRadix_S.
    pose proof (Z.mod_pos_bound n 10 ltac:(lia)) as M.
    destruct (digitChar_decimal (n mod 10) M) as [D1 D2].
    pose proof (Z.div_mod n 10 ltac:(lia)) as DM.
    destruct (n / 10 =? 0) eqn:E.
    + apply Z.eqb_eq in E. exists 1%nat. split; [lia|]. intros a c.
      cbn [spanDigits]. rewrite D1, D2. change (10 ^ Z.of_nat 1) with 10. f_equal; lia.
    + rewrite pow10_succ in N1.
      destruct (IH (n / 10) (String (digitChar (n mod 10)) rest)) as (k & K & Sp).
      { split; [apply Z.div_pos; lia | apply Z.div_lt_upper_bound; lia]. }
      exists (S k). split; [lia|]. intros a c. rewrite Sp. cbn [spanDigits].
      rewrite D1, D2, pow10_succ. f_equal; lia.
Qed.

Lemma digitsRadix_head (fuel : nat) (n : Z) (rest : string) :
  0 <= n -> exists d s, 0 <= d < 10 /\ digitsRadix (S fuel) 10 n rest = String (digitChar d) s.
Proof.
  revert n rest. induction fuel as [|fuel IH]; intros n rest N; rewrite digitsRadix_S;
    pose proof (Z.mod_pos_bound n 10 ltac:(lia)) as M.
  - destruct (n / 10 =? 0); exists (n mod 10); eexists; split; try exact M; reflexivity.
  - destruct (n / 10 =? 0).
    + exists (n mod 10). eexists. split; [exact M | reflexivity].
    + apply IH. apply Z.div_pos; lia.
Qed.

Lemma isDigit_byte (c : ascii) : isDigit c = true -> 48 <= byteOf c <= 57.
Proof. unfold isDigit. intros H. apply andb_true_iff in H as [A B]. lia. Qed.

Lemma eqb_byte (c x : ascii) : byteOf c <> byteOf x -> Ascii.eqb c x = false.
Proof. intros H. destruct (Ascii.eqb_spec c x) as [->|]; [contradiction | reflexivity]. Qed.

Lemma trimStart_digit (c : ascii) (s : string) :
  isDigit c = true -> trimStart (String c s) = String c s.
Proof.
  intros H. apply isDigit_byte in H. cbn [trimStart].
  assert (W1 : whiteSpace1 (byteOf c) = false) by (unfold whiteSpace1; lia).
  rewrite W1. destruct s as [|b [|d s]]; try reflexivity.
  - replace (byteOf c =? 194) with false by lia. reflexivity.
  - replace (byteOf c =? 194) with false by lia. cbn [andb].
    assert (W3 : whiteSpace3 (byteOf c) (byteOf b) (byteOf d) = false).
    { unfold whiteSpace3.
      replace (byteOf c =? 225) with false by lia.
      replace (byteOf c =? 226) with false by lia.
      replace (byteOf c =? 227) with false by lia.
      replace (byteOf c =? 239) with false by lia. reflexivity. }
    rewrite W3. reflexivity.
Qed.

(** Reading what [toFixed(2)] printed gives the hundredths back. *)
Lemma parseDecimalLiteral_fixedDigits (n : Z) :
  0 <= n -> parseDecimalLiteral (fixedDigits 2 n) = Some (LitDecimal false n (-2)).
Proof.
  intros N. rewrite fixedDigits_2 by exact N.
  assert (H0 : 0 <= n / 100) by (apply Z.div_pos; lia).
  set (f := Z.to_nat (Z.log2 (n / 100))).
  pose proof (intToString_fuel (n / 100) H0) as F. fold f in F.
  rewrite (intToString_nonneg (n / 100) f (conj H0 F)).
  rewrite <- digitsRadix_append.
  set (rest := "." ++ _).
  destruct (digitsRadix_head f (n / 100) rest H0) as (d & s & D & E).
  destruct (digitChar_decimal d D) as [D1 D2].
  destruct (spanDigits_printed f (n / 100) rest (conj H0 F)) as (k & K & Sp).
  unfold parseDecimalLiteral.
  rewrite E, (trimStart_digit _ _ D1). cbn [spanSign].
  rewrite (eqb_byte _ "-") by (rewrite D2; change (byteOf "-") with 45; lia).
  rewrite (eqb_byte _ "+") by (rewrite D2; change (byteOf "+") with 43; lia).
  cbn [startsWith].
  rewrite (Ascii.eqb_sym "I"), (eqb_byte _ "I")
    by (rewrite D2; change (byteOf "I") with 73; lia).
  cbn [andb].
  rewrite <- E, Sp. unfold rest. cbn [append spanDigits].
  change (isDigit ".") with false. cbv iota.
  pose proof (Z.mod_pos_bound (n / 10) 10 ltac:(lia)) as M1.
  pose proof (Z.mod_pos_bound n 10 ltac:(lia)) as M0.
  destruct (digitChar_decimal _ M1) as [A1 A2].
  destruct (digitChar_decimal _ M0) as [B1 B2].
  cbn [spanDigits]. rewrite A1, A2, B1, B2. cbn [spanExponent Nat.add].
  replace (S (S k) - k)%nat with 2%nat by lia.
  f_equal. f_equal.
  pose proof (Z.div_mod n 10 ltac:(lia)). pose proof (Z.div_mod (n / 10) 10 ltac:(lia)).
  rewrite Z.div_div in * by lia. change (10 * 10) with 100 in *.
  lia.
Qed.

Lemma mathValue_fixedDigits (n : Z) :
  0 <= n -> mathValue (fixedDigits 2 n) = Some (inject_Z n * Qpower (10 # 1) (-2))%Q.
Proof.
  intros N. unfold mathValue. now rewrite parseDecimalLiteral_fixedDigits.
Qed.

(** ** The shape of the tally and of the percentages *)

Lemma bump_cons (k key : string) (v : Z) (m : Map Z) :
  bump ((k, v) :: m) key
  = if String.eqb k key then (k, v + 1) :: m else (k, v) :: bump m key.
Proof.
  unfold bump. cbn [Map_get Map_set]. destruct (String.eqb k key); reflexivity.
Qed.

Lemma bump_sum (m : Map Z) (key : string) :
  sumZ (Map_values (bump m key)) = sumZ (Map_values m) + 1.
Proof.
  induction m as [|[k v] m IH]; [reflexivity|].
  rewrite bump_cons. unfold Map_values in *.
  destruct (String.eqb k key); cbn [map snd sumZ]; lia.
Qed.

Lemma bump_positive (m : Map Z) (key : string) :
  Forall (fun v => 0 < v) (Map_values m) -> Forall (fun v => 0 < v) (Map_values (bump m key)).
Proof.
  induction m as [|[k v] m IH]; intros H.
  - repeat constructor.
  - rewrite bump_cons. unfold Map_values in *. cbn [map snd] in H.
    inversion H as [|? ? H1 H2]; subst.
    destruct (String.eqb k key); cbn [map snd]; constructor; auto. lia.
Qed.

Lemma existsb_eqb_In (key : string) (l : list string) :
  existsb (String.eqb key) l = true <-> In key l.
Proof.
  rewrite existsb_exists. split.
  - intros (x & I & E). apply String.eqb_eq in E. now subst.
  - intros I. exists key. split; [exact I | apply String.eqb_refl].
Qed.

Lemma bump_keys (m : Map Z) (key : string) :
  Map_keys (bump m key)
  = if existsb (String.eqb key) (Map_keys m) then Map_keys m
    else (Map_keys m ++ [key])%list.
Proof. apply Map_keys_set. Qed.

Lemma bump_NoDup (m : Map Z) (key : string) :
  NoDup (Map_keys m) -> NoDup (Map_keys (bump m key)).
Proof.
  intros H. rewrite bump_keys. destruct (existsb (String.eqb key) (Map_keys m)) eqn:E.
  - exact H.
  - apply NoDup_app; [exact H | repeat constructor; intros [] |].
    intros x I [<-|[]]. apply existsb_eqb_In in I. congruence.
Qed.

Lemma langs_fold (repos : list GitHubRepo) (acc : Map Z) :
  let m := fold_left tallyStep repos acc in
  (NoDup (Map_keys acc) -> NoDup (Map_keys m))
  /\ (Forall (fun v => 0 < v) (Map_values acc) -> Forall (fun v => 0 < v) (Map_values m))
  /\ sumZ (Map_values m) = sumZ (Map_values acc) + Z.of_nat (List.length repos).
Proof.
  revert acc. induction repos as [|r repos IH]; intros acc; cbn zeta.
  - cbn [fold_left List.length]. split; [auto|]. split; [auto | cbn; lia].
  - cbn [fold_left]. destruct (IH (tallyStep acc r)) as (I1 & I2 & I3). cbn zeta in *.
    change (tallyStep acc r) with (bump acc (nullish (language r) EmptyString)) in *.
    split; [intros H; apply I1, bump_NoDup, H|].
    split; [intros H; apply I2, bump_positive, H|].
    rewrite I3, bump_sum. cbn [List.length]. lia.
Qed.

Lemma total_sum (m : Map Z) : total m = sumZ (Map_values m).
Proof.
  unfold total. generalize (Map_values m). intros l.
  assert (G : forall a, fold_left (fun acc count => acc + count) l a = a + sumZ l).
  { induction l as [|x l IH]; intros a; cbn [fold_left sumZ]; [lia|]. rewrite IH. lia. }
  apply G.
Qed.

(** The tally has each language once, with a positive number, and counts
    every repository once. *)
Lemma langs_shape (repos : list GitHubRepo) :
  NoDup (Map_keys (langs repos))
  /\ Forall (fun v => 0 < v) (Map_values (langs repos))
  /\ total (langs repos) = Z.of_nat (List.length repos).
Proof.
  destruct (langs_fold repos []) as (I1 & I2 & I3). cbn zeta in *.
  unfold langs. fold tallyStep. rewrite total_sum.
  split; [apply I1; constructor|]. split; [apply I2; constructor|].
  rewrite I3. reflexivity.
Qed.

Lemma Map_set_new {V : Type} (m : Map V) (key : string) (value : V) :
  ~ In key (Map_keys m) -> Map_set m key value = (m ++ [(key, value)])%list.
Proof.
  induction m as [|[k v] m IH]; intros H; [reflexivity|].
  cbn [Map_set]. cbn [Map_keys map fst In] in H.
  destruct (String.eqb_spec k key) as [->|N]; [tauto|].
  cbn [app]. f_equal. apply IH. tauto.
Qed.

Lemma fold_Map_set {V W : Type} (f : V -> W) (l : Map V) (acc : Map W) :
  NoDup (Map_keys acc ++ Map_keys l) ->
  fold_left (fun pm '(key, val) => Map_set pm key (f val)) l acc
  = (acc ++ map (fun '(key, val) => (key, f val)) l)%list.
Proof.
  revert acc. induction l as [|[k v] l IH]; intros acc H.
  - cbn. now rewrite app_nil_r.
  - cbn [fold_left map]. cbn [Map_keys map fst] in H.
    assert (NI : ~ In k (Map_keys acc)).
    { intros I. apply NoDup_remove_2 in H. apply H, in_or_app. now left. }
    rewrite (Map_set_new acc k (f v) NI), IH.
    + rewrite <- app_assoc. reflexivity.
    + unfold Map_keys. rewrite map_app. cbn [map fst].
      rewrite <- app_assoc. exact H.
Qed.

Lemma percMap_map (NumberToString : spec_float -> string) (m : Map Z) :
  NoDup (Map_keys m) ->
  percMap NumberToString m
  = map (fun '(key, val) => (key, perc NumberToString val (total m))) m.
Proof.
  intros H. unfold percMap. cbn zeta.
  rewrite (fold_Map_set (fun val => perc NumberToString val (total m)) m []); [reflexivity|].
  exact H.
Qed.

Lemma sumZ_upper (l : list Z) (v : Z) :
  Forall (fun x => 0 < x) l -> In v l -> 0 < v <= sumZ l.
Proof.
  induction 1 as [|x l X F IH]; intros I; [destruct I|].
  assert (0 <= sumZ l) by (clear IH I; induction F; cbn; lia).
  cbn [sumZ]. destruct I as [->|I]; [lia|]. specialize (IH I). lia.
Qed.

Lemma percs_values (NumberToString : spec_float -> string) (l : Map Z) (t : Z) :
  (forall v, In v (Map_values l) -> 0 < v <= t) -> t < 2 ^ 53 ->
  exists ns : list Z,
    Forall2 (fun e n => perc NumberToString (snd e) t = fixedDigits 2 n
                        /\ 0 <= n /\ - t < t * n - 10000 * snd e < t) l ns.
Proof.
  intros H T. induction l as [|[k v] l IH].
  - exists []. constructor.
  - destruct IH as [ns F].
    { intros x I. apply H. cbn. now right. }
    destruct (perc_value NumberToString v t) as (n & E & N & B);
      [apply H; cbn; now left | exact T|].
    exists (n :: ns). constructor; [cbn [snd]; auto | exact F].
Qed.

Lemma hundredths_sum (l : Map Z) (ns : list Z) (t : Z) (P : string * Z -> Z -> Prop) :
  Forall2 (fun e n => P e n /\ 0 <= n /\ - t < t * n - 10000 * snd e < t) l ns ->
  - t * Z.of_nat (List.length l)
  <= t * sumZ ns - 10000 * sumZ (Map_values l)
  <= t * Z.of_nat (List.length l).
Proof.
  induction 1 as [|e n l ns (_ & _ & B) F IH]; [cbn; lia|].
  cbn [List.length Map_values map sumZ]. fold (Map_values l).
  rewrite Nat2Z.inj_succ. lia.
Qed.

Lemma Qsum_hundredths (ns : list Z) :
  (Qsum (map (fun n => inject_Z n * Qpower (10 # 1) (-2)) ns)
   == inject_Z (sumZ ns) * (1 # 100))%Q.
Proof.
  induction ns as [|n ns IH]; cbn [map Qsum sumZ]; [reflexivity|].
  rewrite IH, inject_Z_plus. change (Qpower (10 # 1) (-2)) with (1 # 100)%Q. ring.
Qed.

Lemma shares_values (NumberToString : spec_float -> string) (l : Map Z) (ns : list Z)
  (t : Z) (P : string * Z -> Z -> Prop) :
  Forall2 (fun e n => perc NumberToString (snd e) t = fixedDigits 2 n
                      /\ 0 <= n /\ P e n) l ns ->
  Forall2 (fun share q => mathValue (snd share) = Some q)
    (map (fun '(key, val) => (key, perc NumberToString val t)) l)
    (map (fun n => inject_Z n * Qpower (10 # 1) (-2))%Q ns).
Proof.
  induction 1 as [|[k v] n l ns (E & N & _) F IH]; cbn [map]; constructor.
  - cbn [snd] in *. rewrite E. now apply mathValue_fixedDigits.
  - exact IH.
Qed.

Lemma hundredths_close (s k : Z) :
  - k <= s - 10000 <= k ->
  (Qabs (inject_Z s * (1 # 100) - 100) <= (1 # 100) * inject_Z k)%Q.
Proof.
  intros H. apply Qabs_Qle_condition. unfold Qle. destruct k; cbn; lia.
Qed.

(** C2. When at least one repository has a language, the percentages, read
    back as decimal numbers, add up to 100 within one hundredth for each
    language. (An array has fewer than [2^32] elements; the bound [2^53] is
    where the counts stop being exact Numbers.) *)
Theorem C2_percentages_sum_to_100
  (NumberToString : spec_float -> string) (repos : list GitHubRepo) :
  (exists r, In r repos /\ language r <> None) ->
  Z.of_nat (List.length repos) < 2 ^ 53 ->
  let shares := percMap NumberToString (langs (filterRepos repos)) in
  NoDup (Map_keys shares)
  /\ exists qs : list Q,
       Forall2 (fun share q => mathValue (snd share) = Some q) shares qs
       /\ (Qabs (Qsum qs - 100)
           <= (1 # 100) * inject_Z (Z.of_nat (List.length shares)))%Q.
Proof.
  intros (r & I & L) B shares.
  destruct (langs_shape (filterRepos repos)) as (ND & POS & TOT).
  set (m := langs (filterRepos repos)) in *. set (t := total m) in *.
  assert (T1 : 0 < t).
  { rewrite TOT. assert (In r (filterRepos repos)) by (apply filterRepos_In; auto).
    destruct (filterRepos repos); [contradiction | cbn; lia]. }
  assert (T2 : t < 2 ^ 53).
  { rewrite TOT. unfold filterRepos.
    pose proof (filter_length_le (fun r => match language r with
                                           | Some _ => true
                                           | None => false
                                           end) repos). lia. }
  assert (S : shares = map (fun '(key, val) => (key, perc NumberToString val t)) m)
    by (apply percMap_map; exact ND).
  assert (K : Map_keys shares = Map_keys m).
  { rewrite S. unfold Map_keys. rewrite map_map. apply map_ext. now intros [k v]. }
  split; [rewrite K; exact ND|].
  destruct (percs_values NumberToString m t) as [ns F]; [|exact T2|].
  { intros v Iv. unfold t. rewrite total_sum. apply sumZ_upper; assumption. }
  exists (map (fun n => inject_Z n * Qpower (10 # 1) (-2))%Q ns). split.
  - rewrite S. exact (shares_values NumberToString m ns t _ F).
  - rewrite Qsum_hundredths. apply hundredths_close.
    pose proof (hundredths_sum m ns t _ F) as HS.
    assert (LS : List.length shares = List.length m) by (rewrite S; apply length_map).
    rewrite LS. fold t in HS. rewrite <- total_sum in HS. fold t in HS. nia.
Qed.

(** ** The sign of a difference *)

Lemma shr_fexp_positive (m e : Z) (l : location) :
  0 < m -> -1074 <= e ->
  exists r e', shr_fexp prec emax m e l = (r, e') /\ 0 < shr_m r /\ -1074 <= e'.
Proof.
  intros P E. destruct (shr_fexp_m m e l P) as (r & R1 & R2 & _).
  rewrite fexp_value in R1, R2.
  exists r. eexists. split; [exact R1|]. split; [|lia]. rewrite R2.
  destruct (Z.le_gt_cases (Zdigits2 m) 53) as [C|C].
  - replace (Z.max (Z.max (Zdigits2 m + e - 53) (-1074) - e) 0) with 0 by lia.
    change (2 ^ 0) with 1. rewrite Z.div_1_r. exact P.
  - replace (Z.max (Z.max (Zdigits2 m + e - 53) (-1074) - e) 0) with (Zdigits2 m - 53) by lia.
    pose proof (truncated_mantissa m (Zdigits2 m) P eq_refl ltac:(lia)). lia.
Qed.

Lemma binary_round_aux_positive (mx ex : Z) (lx : location) :
  0 < mx -> -1074 <= ex ->
  (exists m e, binary_round_aux prec emax false mx ex lx = S754_finite false m e)
  \/ binary_round_aux prec emax false mx ex lx = S754_infinity false.
Proof.
  intros P E. unfold binary_round_aux.
  destruct (shr_fexp_positive mx ex lx P E) as (r1 & e1 & E1 & P1 & B1). rewrite E1.
  assert (P1' : 0 < round_nearest_even (shr_m r1) (loc_of_shr_record r1))
    by (destruct (round_nearest_even_cases (shr_m r1) (loc_of_shr_record r1)); lia).
  destruct (shr_fexp_positive _ e1 loc_Exact P1' B1) as (r2 & e2 & E2 & P2 & B2).
  rewrite E2. destruct (shr_m r2) as [|m|m]; try lia.
  destruct (e2 <=? emax - prec); [left; eauto | right; reflexivity].
Qed.

Lemma binary_round_positive (mx : positive) (ex : Z) :
  -1074 <= ex ->
  (exists m e, binary_round prec emax false mx ex = S754_finite false m e)
  \/ binary_round prec emax false mx ex = S754_infinity false.
Proof.
  intros E. unfold binary_round.
  pose proof (fexp_value (Zpos (digits2_pos mx) + ex)) as F.
  destruct (Z.le_gt_cases (fexp prec emax (Zpos (digits2_pos mx) + ex)) ex) as [C|C].
  - destruct (shl_align_spec mx ex _ C) as (mz & Ez & _). rewrite Ez.
    apply binary_round_aux_positive; lia.
  - assert (Ez : shl_align mx ex (fexp prec emax (Zpos (digits2_pos mx) + ex)) = (mx, ex)).
    { unfold shl_align.
      destruct (fexp prec emax (Zpos (digits2_pos mx) + ex) - ex) eqn:D; try reflexivity; lia. }
    rewrite Ez. apply binary_round_aux_positive; lia.
Qed.

Lemma binary_round_negative (mx : positive) (ex : Z) :
  Num_lt (S754_zero false) (binary_round prec emax true mx ex) = false.
Proof.
  unfold binary_round, binary_round_aux.
  destruct (shl_align mx ex _) as [mz ez].
  destruct (shr_fexp prec emax (Zpos mz) ez loc_Exact) as [r1 e1].
  destruct (shr_fexp prec emax _ e1 loc_Exact) as [r2 e2].
  destruct (shr_m r2); [reflexivity | destruct (e2 <=? emax - prec); reflexivity | reflexivity].
Qed.

Lemma Num_lt_zero_normalize (z e : Z) (szero : bool) :
  -1074 <= e ->
  Num_lt (S754_zero false) (binary_normalize prec emax z e szero) = (0 <? z).
Proof.
  intros E. destruct z as [|p|p]; cbn [binary_normalize Z.ltb Z.compare].
  - destruct szero; reflexivity.
  - destruct (binary_round_positive p e E) as [(m & e' & ->)| ->]; reflexivity.
  - apply binary_round_negative.
Qed.

Lemma F2R_align (m : positive) (e ez : Z) (mz : positive) :
  ez <= e -> Zpos mz = Zpos m * 2 ^ (e - ez) -> F2R (Zpos mz) ez = F2R (Zpos m) e.
Proof.
  intros L E. unfold F2R. rewrite E, mult_IZR, <- bpow2_IZR by lia.
  rewrite Rmult_assoc, <- bpow2_add. do 2 f_equal. lia.
Qed.

(** The difference of two binary64 numbers is positive exactly when the
    first is the larger one. *)
Lemma Num_sub_positive (ma mb : positive) (ea eb : Z) :
  -1074 <= ea -> -1074 <= eb ->
  Num_lt (S754_zero false)
         (Num_sub (S754_finite false mb eb) (S754_finite false ma ea)) = true
  <-> (F2R (Zpos ma) ea < F2R (Zpos mb) eb)%R.
Proof.
  intros A B. unfold Num_sub, SFsub.
  destruct (shl_align_spec mb eb (Z.min eb ea) ltac:(lia)) as (Mb & Eb & Vb).
  destruct (shl_align_spec ma ea (Z.min eb ea) ltac:(lia)) as (Ma & Ea & Va).
  rewrite Eb, Ea. cbn [fst cond_Zopp].
  rewrite Num_lt_zero_normalize by lia.
  rewrite <- (F2R_align ma ea (Z.min eb ea) Ma), <- (F2R_align mb eb (Z.min eb ea) Mb)
    by (assumption || lia).
  unfold F2R. pose proof (bpow2_pos (Z.min eb ea)) as Q.
  rewrite Z.ltb_lt. split; intros H.
  - apply Rmult_lt_compat_r; [exact Q|]. apply IZR_lt. lia.
  - apply Rmult_lt_reg_r in H; [|exact Q]. apply lt_IZR in H. lia.
Qed.

(** ** The comparison of two percentages *)

Lemma parseFloat_fixedDigits (n : Z) :
  0 <= n -> parseFloat (fixedDigits 2 n) = decimal2Num false n (-2).
Proof. intros N. unfold parseFloat. now rewrite parseDecimalLiteral_fixedDigits. Qed.

Lemma F2R_0 (z : Z) : F2R z 0 = IZR z.
Proof. unfold F2R. change (bpow2 0) with 1%R. ring. Qed.

Lemma decimal2Num_hundredths (n : Z) :
  0 < n < 2 ^ 53 ->
  exists m e, decimal2Num false n (-2) = S754_finite false m e
              /\ normal m e
              /\ (Rabs (F2R (Zpos m) e - IZR n / 100) * IZR (2 ^ 52) <= IZR n / 100)%R.
Proof.
  intros [N0 N1]. unfold decimal2Num.
  replace (n =? 0) with false by (symmetry; apply Z.eqb_neq; lia).
  cbn [Z.leb Z.compare Z.opp]. change (10 ^ 2) with 100.
  destruct (quotient_error false n 0 100 0) as (m & e & E & N & _ & R); try lia.
  exists m, e. split; [exact E|]. split; [exact N|].
  rewrite !F2R_0 in R. exact R.
Qed.

Lemma hundredths_increasing (n1 n2 : Z) (m1 m2 : positive) (e1 e2 : Z) :
  0 < n1 -> n1 < n2 <= 10000 ->
  (Rabs (F2R (Zpos m1) e1 - IZR n1 / 100) * IZR (2 ^ 52) <= IZR n1 / 100)%R ->
  (Rabs (F2R (Zpos m2) e2 - IZR n2 / 100) * IZR (2 ^ 52) <= IZR n2 / 100)%R ->
  (F2R (Zpos m1) e1 < F2R (Zpos m2) e2)%R.
Proof.
  intros P [L U] R1 R2.
  set (a1 := F2R (Zpos m1) e1) in *. set (a2 := F2R (Zpos m2) e2) in *.
  change (2 ^ 52) with 4503599627370496 in R1, R2.
  pose proof (Rle_abs (a1 - IZR n1 / 100)) as A1.
  pose proof (Rle_abs (- (a2 - IZR n2 / 100))) as A2. rewrite Rabs_Ropp in A2.
  assert (L' : (IZR n1 + 1 <= IZR n2)%R) by (rewrite <- plus_IZR; apply IZR_le; lia).
  apply IZR_le in U. apply IZR_lt in P. clearbody a1 a2. lra.
Qed.

(** Of two shares, the first goes after the second in the ranking exactly
    when it has fewer hundredths. *)
Lemma sortsAfter_shares (x y : string * string) (n1 n2 : Z) :
  snd x = fixedDigits 2 n1 -> snd y = fixedDigits 2 n2 ->
  0 <= n1 <= 10000 -> 0 <= n2 <= 10000 ->
  sortsAfter byPercentage x y = (n1 <? n2).
Proof.
  intros E1 E2 [L1 U1] [L2 U2]. unfold sortsAfter, byPercentage.
  rewrite E1, E2, !parseFloat_fixedDigits by assumption.
  destruct (Z.eq_dec n1 0) as [Z1|Z1]; destruct (Z.eq_dec n2 0) as [Z2|Z2].
  - subst. reflexivity.
  - subst n1. destruct (decimal2Num_hundredths n2) as (m & e & -> & _); [lia|].
    cbn. symmetry. apply Z.ltb_lt. lia.
  - subst n2. destruct (decimal2Num_hundredths n1) as (m & e & -> & _); [lia|].
    cbn. symmetry. apply Z.ltb_ge. lia.
  - destruct (decimal2Num_hundredths n1) as (m1 & e1 & D1 & [_ B1] & R1); [lia|].
    destruct (decimal2Num_hundredths n2) as (m2 & e2 & D2 & [_ B2] & R2); [lia|].
    rewrite D1, D2.
    pose proof (Num_sub_positive m1 m2 e1 e2 ltac:(lia) ltac:(lia)) as S.
    destruct (Z.ltb_spec n1 n2) as [C|C].
    + apply S. apply (hundredths_increasing n1 n2); assumption || lia.
    + apply not_true_is_false. intros T. apply (proj1 S) in T.
      destruct (Z.eq_dec n1 n2) as [Q|Q].
      * subst n2. rewrite D1 in D2. injection D2 as -> ->. lra.
      * pose proof (hundredths_increasing n2 n1 m2 m1 e2 e1 ltac:(lia) ltac:(lia) R2 R1). lra.
Qed.

(** ** Sorting by a key *)

Section SortByKey.
Context {A : Type}.
Variable comparefn : A -> A -> spec_float.
Variable key : A -> Z.
Variable good : A -> Prop.
Hypothesis sortsAfter_key :
  forall x y, good x -> good y -> sortsAfter comparefn x y = (key x <? key y).

Lemma sort_insert_Permutation (x : A) (l : list A) :
  Permutation (x :: l) (sort_insert comparefn x l).
Proof.
  induction l as [|y l IH]; cbn [sort_insert]; [reflexivity|].
  destruct (sortsAfter comparefn x y); [|reflexivity].
  rewrite perm_swap. now constructor.
Qed.

Lemma sort_Permutation (l : list A) : Permutation l (sort comparefn l).
Proof.
  induction l as [|x l IH]; cbn [sort fold_right]; [reflexivity|].
  fold (sort comparefn l). rewrite <- sort_insert_Permutation. now constructor.
Qed.

Lemma sort_good (l : list A) : Forall good l -> Forall good (sort comparefn l).
Proof. intros H. now rewrite <- sort_Permutation. Qed.

Lemma sort_insert_sorted (x : A) (l : list A) :
  good x -> Forall good l ->
  StronglySorted (fun a b => key b <= key a) l ->
  StronglySorted (fun a b => key b <= key a) (sort_insert comparefn x l).
Proof.
  intros Gx G S. induction S as [|y l S IH F]; cbn [sort_insert].
  - repeat constructor.
  - inversion G as [|? ? Gy G']; subst. rewrite (sortsAfter_key x y Gx Gy).
    destruct (Z.ltb_spec (key x) (key y)) as [C|C].
    + constructor; [apply IH, G'|].
      rewrite <- sort_insert_Permutation. constructor; [lia | exact F].
    + constructor; [constructor; assumption|].
      constructor; [exact C|]. rewrite Forall_forall in *. intros z I.
      specialize (F z I). lia.
Qed.

Lemma sort_sorted (l : list A) :
  Forall good l -> StronglySorted (fun a b => key b <= key a) (sort comparefn l).
Proof.
  induction 1 as [|x l Gx G IH]; cbn [sort fold_right]; [constructor|].
  fold (sort comparefn l). apply sort_insert_sorted; [exact Gx | now apply sort_good | exact IH].
Qed.

Variable f : A -> bool.
Hypothesis f_one_key :
  forall a b, good a -> good b -> f a = true -> f b = true -> key a = key b.

Lemma sort_insert_stable (x : A) (l : list A) :
  good x -> Forall good l ->
  filter f (sort_insert comparefn x l) = filter f (x :: l).
Proof.
  intros Gx G. induction G as [|y l Gy G IH]; cbn [sort_insert]; [reflexivity|].
  rewrite (sortsAfter_key x y Gx Gy).
  destruct (Z.ltb_spec (key x) (key y)) as [C|C]; [|reflexivity].
  cbn [filter] in *. rewrite IH.
  destruct (f x) eqn:Fx; destruct (f y) eqn:Fy; try reflexivity.
  pose proof (f_one_key x y Gx Gy Fx Fy). lia.
Qed.

Lemma sort_stable (l : list A) :
  Forall good l -> filter f (sort comparefn l) = filter f l.
Proof.
  induction 1 as [|x l Gx G IH]; cbn [sort fold_right]; [reflexivity|].
  fold (sort comparefn l). rewrite sort_insert_stable by (assumption || now apply sort_good).
  cbn [filter]. now rewrite IH.
Qed.
End SortByKey.

(** ** The ranking *)

Lemma keys_firstSeen (repos : list GitHubRepo) (acc : Map Z) :
  Map_keys (fold_left tallyStep (filterRepos repos) acc)
  = (Map_keys acc ++ firstSeen (Map_keys acc) repos)%list.
Proof.
  revert acc. induction repos as [|r repos IH]; intros acc.
  - cbn. now rewrite app_nil_r.
  - unfold filterRepos. cbn [filter firstSeen]. fold (filterRepos repos).
    destruct (language r) as [l|] eqn:L; [|apply IH].
    cbn [fold_left]. rewrite IH. unfold tallyStep. rewrite L. cbn [nullish].
    fold (bump acc l). rewrite bump_keys.
    destruct (existsb (String.eqb l) (Map_keys acc)); [reflexivity|].
    now rewrite <- app_assoc.
Qed.

Lemma hundredths_share (x : string * string) (n : Z) :
  0 <= n -> snd x = fixedDigits 2 n -> hundredths x = n.
Proof.
  intros N E. unfold hundredths. now rewrite E, parseDecimalLiteral_fixedDigits.
Qed.

Lemma numericValue_share (x : string * string) (n : Z) :
  0 <= n -> snd x = fixedDigits 2 n -> numericValue x = (inject_Z n * (1 # 100))%Q.
Proof.
  intros N E. unfold numericValue. now rewrite E, mathValue_fixedDigits.
Qed.

Lemma sortsAfter_isShare (x y : string * string) :
  isShare x -> isShare y ->
  sortsAfter byPercentage x y = (hundredths x <? hundredths y).
Proof.
  intros (n1 & B1 & E1) (n2 & B2 & E2).
  rewrite (hundredths_share x n1), (hundredths_share y n2) by (assumption || lia).
  now apply sortsAfter_shares.
Qed.

Lemma shares_isShare (NumberToString : spec_float -> string) (m : Map Z) :
  Forall (fun v => 0 < v) (Map_values m) -> total m < 2 ^ 53 ->
  Forall isShare (map (fun '(key, val) => (key, perc NumberToString val (total m))) m).
Proof.
  intros POS T.
  assert (B : forall v, In v (Map_values m) -> 0 < v <= total m)
    by (intros v I; rewrite total_sum; now apply sumZ_upper).
  destruct (percs_values NumberToString m (total m) B T) as [ns F].
  apply Forall_forall. intros x I. apply in_map_iff in I as ([k v] & <- & I).
  assert (Iv : In v (Map_values m)) by (apply in_map_iff; exists (k, v); auto).
  specialize (B v Iv). clear POS T Iv. revert F I B. generalize (total m). intros t F I B.
  induction F as [|e n l ns (E & N & C) F IH]; [destruct I|].
  destruct I as [->|I]; [|now apply IH].
  cbn [snd] in *. exists n. split; [nia | exact E].
Qed.

Lemma StronglySorted_good {A : Type} (R R' : A -> A -> Prop) (good : A -> Prop)
  (l : list A) :
  (forall a b, good a -> good b -> R a b -> R' a b) ->
  Forall good l -> StronglySorted R l -> StronglySorted R' l.
Proof.
  intros H G S. induction S as [|x l S IH F]; [constructor|].
  inversion G as [|? ? Gx G']; subst. constructor; [now apply IH|].
  rewrite Forall_forall in *. intros y I. apply H; auto.
Qed.

Lemma hundredths_Qle (a b : Z) :
  a <= b -> (inject_Z a * (1 # 100) <= inject_Z b * (1 # 100))%Q.
Proof. intros H. unfold Qle. cbn. lia. Qed.

Lemma hundredths_Qeq (a b : Z) :
  (inject_Z a * (1 # 100) == inject_Z b * (1 # 100))%Q -> a = b.
Proof. unfold Qeq. cbn. lia. Qed.

(** C3. The ranking holds the shares in the order of their numeric values,
    the largest first; shares of equal value stay in the order of the map,
    which is the order in which the languages first appear among the
    repositories. With one repository of [A] and then one of [B], the
    ranking is [A], [B]. The order is that of the numbers, not of the
    strings: 10.00 goes before 5.00. *)
Theorem C3_ranking_is_sorted_and_stable
  (NumberToString : spec_float -> string) (repos : list GitHubRepo) :
  Z.of_nat (List.length repos) < 2 ^ 53 ->
  let shares := percMap NumberToString (langs (filterRepos repos)) in
  let ranked := sort byPercentage (Map_entries shares) in
  Map_keys shares = firstSeen [] repos
  /\ Forall (fun share => mathValue (snd share) <> None) shares
  /\ Permutation shares ranked
  /\ StronglySorted (fun a b => (numericValue b <= numericValue a)%Q) ranked
  /\ (forall q : Q,
        filter (fun share => Qeq_bool (numericValue share) q) ranked
        = filter (fun share => Qeq_bool (numericValue share) q) shares)
  /\ sort byPercentage
       (percMap NumberToString
          (langs (filterRepos [ mkGitHubRepo 1 "a" "u/a" 0 (Some "A")
                              ; mkGitHubRepo 2 "b" "u/b" 0 (Some "B") ])))
     = [ ("A", "50.00"); ("B", "50.00") ]
  /\ sort byPercentage [ ("A", "5.00"); ("B", "10.00"); ("C", "85.00") ]
     = [ ("C", "85.00"); ("B", "10.00"); ("A", "5.00") ].
Proof.
  intros B shares ranked.
  destruct (langs_shape (filterRepos repos)) as (ND & POS & TOT).
  set (m := langs (filterRepos repos)) in *.
  assert (T : total m < 2 ^ 53).
  { rewrite TOT. unfold filterRepos.
    pose proof (filter_length_le (fun r => match language r with
                                           | Some _ => true
                                           | None => false
                                           end) repos). lia. }
  assert (S : shares = map (fun '(key, val) => (key, perc NumberToString val (total m))) m)
    by (apply percMap_map; exact ND).
  assert (G : Forall isShare shares) by (rewrite S; now apply shares_isShare).
  split.
  { rewrite S. unfold Map_keys at 1. rewrite map_map.
    rewrite (map_ext _ fst) by (now intros [k v]).
    exact (keys_firstSeen repos []). }
  split.
  { apply Forall_forall. intros x I. rewrite Forall_forall in G.
    destruct (G x I) as (n & N & E). rewrite E, mathValue_fixedDigits by lia. discriminate. }
  split; [apply sort_Permutation|]. split.
  - apply (StronglySorted_good (fun a b => hundredths b <= hundredths a) _ isShare).
    + intros a b (na & Na & Ea) (nb & Nb & Eb) H.
      rewrite (hundredths_share a na), (hundredths_share b nb) in H by (assumption || lia).
      rewrite (numericValue_share a na), (numericValue_share b nb) by (assumption || lia).
      now apply hundredths_Qle.
    + apply sort_good, G.
    + apply (sort_sorted byPercentage hundredths isShare sortsAfter_isShare), G.
  - split; [|vm_compute; split; reflexivity]. intros q.
    apply (sort_stable byPercentage hundredths isShare sortsAfter_isShare); [|exact G].
    intros a b (na & Na & Ea) (nb & Nb & Eb) Fa Fb.
    rewrite (hundredths_share a na), (hundredths_share b nb) by (assumption || lia).
    rewrite (numericValue_share a na) in Fa by (assumption || lia).
    rewrite (numericValue_share b nb) in Fb by (assumption || lia).
    apply Qeq_bool_iff in Fa, Fb. apply hundredths_Qeq. now rewrite Fa, Fb.
Qed.

(** ** The number of languages to show *)

Lemma spanDigits_nonneg (s : string) (acc : Z) (c : nat) :
  0 <= acc -> 0 <= fst (fst (spanDigits s acc c)).
Proof.
  revert acc c. induction s as [|a s IH]; intros acc c H; cbn [spanDigits]; [exact H|].
  destruct (isDigit a) eqn:D; [|exact H].
  apply IH. apply isDigit_byte in D. lia.
Qed.

Lemma parseInt10_positive (t : string) :
  Num_lt (Z2Num 0) (parseInt10 t)
  = let '(sign, str) := spanSign (trimStart t) in
    let '(n, digits, _) := spanDigits str 0 0 in
    negb sign && negb (digits =? 0)%nat && (0 <? n).
Proof.
  unfold parseInt10. destruct (spanSign (trimStart t)) as [sign str].
  pose proof (spanDigits_nonneg str 0 0 ltac:(lia)) as N.
  destruct (spanDigits str 0 0) as [[n digits] rest]. cbn [fst] in N.
  destruct digits as [|d].
  - cbn [Nat.eqb negb]. rewrite andb_false_r. reflexivity.
  - change (Z2Num 0) with (S754_zero false).
    rewrite Num_lt_zero_normalize by lia. cbn [Nat.eqb negb]. rewrite andb_true_r.
    destruct sign; cbn [negb andb cond_Zopp]; [|reflexivity].
    apply Z.ltb_ge. lia.
Qed.

Lemma isPositiveInteger_spec (s : string) :
  isPositiveInteger s = true ->
  exists n d c s',
    spanDigits s 0 0 = (n, S d, EmptyString) /\ 0 < n
    /\ s = String c s' /\ isDigit c = true.
Proof.
  unfold isPositiveInteger.
  destruct (spanDigits s 0 0) as [[n digits] rest] eqn:E. intros H.
  apply andb_true_iff in H as [H P]. apply andb_true_iff in H as [D R].
  apply String.eqb_eq in R. subst rest. apply Z.ltb_lt in P.
  destruct digits as [|d]; [discriminate|].
  destruct s as [|c s']; [discriminate|]. cbn [spanDigits] in E.
  destruct (isDigit c) eqn:C; [|discriminate].
  exists n, d, c, s'. repeat split; assumption || reflexivity.
Qed.

(** C6, as the code has it. The count is [parseInt(top, 10)] when that is a
    positive number: when [top], after leading white space and an optional
    plus sign, starts with decimal digits of a positive value, whatever
    follows the digits. It is 5 in every other case: [top] is missing or
    empty, does not start with digits, starts with a minus sign, or its
    digits are all zeros. In particular the count of a positive integer in
    decimal digits is that integer. *)
Theorem C6_count_is_parseInt_or_5 (top : option string) :
  count top
  = match top with
    | None => Z2Num 5
    | Some t =>
        let '(sign, str) := spanSign (trimStart t) in
        let '(n, digits, _) := spanDigits str 0 0 in
        if negb sign && negb (digits =? 0)%nat && (0 <? n) then Z2Num n else Z2Num 5
    end
  /\ (forall s : string,
        isPositiveInteger s = true ->
        count (Some s) = Z2Num (fst (fst (spanDigits s 0 0)))).
Proof.
  assert (G : forall top : option string,
             count top
             = match top with
               | None => Z2Num 5
               | Some t =>
                   let '(sign, str) := spanSign (trimStart t) in
                   let '(n, digits, _) := spanDigits str 0 0 in
                   if negb sign && negb (digits =? 0)%nat && (0 <? n)
                   then Z2Num n else Z2Num 5
               end).
  { clear top. intros [t|]; [|reflexivity]. unfold count.
    destruct (String.eqb_spec t EmptyString) as [->|NE]; [reflexivity|]. cbn [negb andb].
    rewrite parseInt10_positive. unfold parseInt10.
    destruct (spanSign (trimStart t)) as [sign str].
    destruct (spanDigits str 0 0) as [[n digits] rest].
    destruct sign; [reflexivity|]. destruct digits as [|d]; [reflexivity|].
    cbn [negb andb Nat.eqb]. destruct (0 <? n); reflexivity. }
  split; [apply G|]. intros s H.
  destruct (isPositiveInteger_spec s H) as (n & d & c & s' & E & P & -> & C).
  rewrite G, (trimStart_digit c s' C). cbn [spanSign].
  pose proof (isDigit_byte c C) as B.
  rewrite (eqb_byte c "-") by (change (byteOf "-") with 45; lia).
  rewrite (eqb_byte c "+") by (change (byteOf "+") with 43; lia).
  rewrite E. cbn [fst negb andb Nat.eqb].
  replace (0 <? n) with true by (symmetry; apply Z.ltb_lt; exact P). reflexivity.
Qed.

Example count_examples :
  count None = Z2Num 5 /\ count (Some EmptyString) = Z2Num 5 /\ count (Some "0") = Z2Num 5
  /\ count (Some "-3") = Z2Num 5 /\ count (Some "abc") = Z2Num 5
  /\ count (Some "2") = Z2Num 2 /\ count (Some " +7") = Z2Num 7
  /\ count (Some "3.7") = Z2Num 3.
Proof. vm_compute. repeat split. Qed.

(** C6 fails as stated: [2abc] is not a positive integer, and the count is
    2, not 5. *)
Lemma C6_counterexample_2abc :
  isPositiveInteger "2abc" = false
  /\ count (Some "2abc") = Z2Num 2
  /\ count (Some "2abc") <> Z2Num 5.
Proof. vm_compute. repeat split. discriminate. Qed.

(** ** The rows of the card *)

Lemma ToIntegerOrInfinity_Z2Num (k : Z) :
  0 < k < 2 ^ 53 -> ToIntegerOrInfinity (Z2Num k) = Integer k.
Proof.
  intros H. destruct (Z2Num_normal k H) as (m & e & -> & _ & B & M).
  cbn [ToIntegerOrInfinity cond_Zopp]. f_equal.
  destruct (Z.leb_spec 0 e) as [C|C].
  - assert (e = 0) by lia. subst e. cbn in M. cbn. lia.
  - rewrite M. apply Z.div_mul. pose proof (pow2_pos (- e) ltac:(lia)). lia.
Qed.

Lemma slice0_Z2Num {A : Type} (l : list A) (k : Z) :
  0 < k < 2 ^ 53 ->
  slice0 l (Z2Num k) = firstn (Z.to_nat (Z.min k (Z.of_nat (List.length l)))) l.
Proof.
  intros H. unfold slice0. rewrite (ToIntegerOrInfinity_Z2Num k H).
  replace (k <? 0) with false by (symmetry; apply Z.ltb_ge; lia). reflexivity.
Qed.

Lemma Z2Num_large (k : Z) :
  2 ^ 53 <= k ->
  ToIntegerOrInfinity (Z2Num k) = PlusInfinity
  \/ exists z, ToIntegerOrInfinity (Z2Num k) = Integer z /\ 2 ^ 53 <= z.
Proof.
  intros K. destruct k as [|p|p]; try lia.
  destruct (Zdigits2_range (Zpos p) 53 (Zdigits2 (Zpos p))) as [D _];
    [lia | destruct p; cbn; lia | |].
  { split; [exact K | apply Zdigits2_bounds; lia]. }
  set (d := Zdigits2 (Zpos p)) in *.
  unfold Z2Num, binary_normalize, binary_round.
  change (Zpos (digits2_pos p)) with d. rewrite fexp_value.
  assert (A : shl_align p 0 (Z.max (d + 0 - 53) (-1074)) = (p, 0)).
  { unfold shl_align. destruct (Z.max (d + 0 - 53) (-1074) - 0) eqn:E; try reflexivity. lia. }
  rewrite A. unfold binary_round_aux.
  destruct (shr_fexp_m (Zpos p) 0 loc_Exact ltac:(lia)) as (r1 & E1 & M1 & _).
  fold d in E1, M1. rewrite fexp_value in E1, M1.
  replace (Z.max (Z.max (d + 0 - 53) (-1074) - 0) 0) with (d - 53) in E1, M1 by lia.
  rewrite E1. cbv beta iota.
  pose proof (truncated_mantissa (Zpos p) d ltac:(lia) eq_refl ltac:(lia)) as Q.
  rewrite <- M1 in Q.
  set (m1 := round_nearest_even (shr_m r1) (loc_of_shr_record r1)).
  assert (C : 2 ^ 52 <= m1 <= 2 ^ 53)
    by (unfold m1; destruct (round_nearest_even_cases (shr_m r1) (loc_of_shr_record r1)); lia).
  destruct (shr_fexp_m m1 (0 + (d - 53)) loc_Exact ltac:(lia)) as (r2 & E2 & M2 & _).
  rewrite fexp_value in E2, M2. rewrite E2. cbv beta iota.
  assert (M : 2 ^ 52 <= shr_m r2).
  { rewrite M2. destruct (Z.eq_dec m1 (2 ^ 53)) as [T|T].
    - rewrite T. change (Zdigits2 (2 ^ 53)) with 54.
      replace (Z.max (Z.max (54 + (0 + (d - 53)) - 53) (-1074) - (0 + (d - 53))) 0)
        with 1 by lia. reflexivity.
    - rewrite (Zdigits2_unique m1 53) by lia.
      replace (Z.max (Z.max (53 + (0 + (d - 53)) - 53) (-1074) - (0 + (d - 53))) 0)
        with 0 by lia. change (2 ^ 0) with 1. rewrite Z.div_1_r. lia. }
  set (e2 := 0 + (d - 53) + _) in *.
  assert (E : 1 <= e2) by (unfold e2; lia).
  destruct (shr_m r2) as [|m2|m2]; try lia.
  destruct (e2 <=? emax - prec); [|left; reflexivity].
  right. cbn [ToIntegerOrInfinity cond_Zopp].
  replace (0 <=? e2) with true by (symmetry; apply Z.leb_le; lia).
  eexists. split; [reflexivity|].
  assert (2 ^ 1 <= 2 ^ e2) by (apply Z.pow_le_mono_r; lia).
  change (2 ^ 1) with 2 in *. change (2 ^ 53) with (2 ^ 52 * 2). nia.
Qed.

Lemma slice0_positive {A : Type} (l : list A) (k : Z) :
  0 < k -> Z.of_nat (List.length l) < 2 ^ 53 ->
  slice0 l (Z2Num k) = firstn (Z.to_nat (Z.min k (Z.of_nat (List.length l)))) l.
Proof.
  intros P L. destruct (Z.lt_ge_cases k (2 ^ 53)) as [C|C].
  - apply slice0_Z2Num. lia.
  - replace (Z.min k (Z.of_nat (List.length l))) with (Z.of_nat (List.length l)) by lia.
    rewrite Nat2Z.id, firstn_all. unfold slice0.
    destruct (Z2Num_large k C) as [->|(z & -> & Z)]; [reflexivity|].
    replace (z <? 0) with false by (symmetry; apply Z.ltb_ge; lia).
    replace (Z.min z (Z.of_nat (List.length l))) with (Z.of_nat (List.length l)) by lia.
    now rewrite Nat2Z.id, firstn_all.
Qed.

Lemma includes_unlines (needle l : string) (ls : list string) :
  In l ls -> includes needle l = true -> includes needle (unlines ls) = true.
Proof.
  intros I H. induction ls as [|x ls IH]; [destruct I|].
  destruct ls as [|y ls].
  - destruct I as [->|[]]. exact H.
  - change (unlines (x :: y :: ls)) with (x ++ newline ++ unlines (y :: ls)).
    destruct I as [->|I].
    + now apply includes_append_l.
    + do 2 apply includes_append_r. now apply IH.
Qed.

Lemma includes_join (needle l : string) (ls : list string) :
  In l ls -> includes needle l = true -> includes needle (join ls) = true.
Proof.
  intros I H. induction ls as [|x ls IH]; [destruct I|].
  change (join (x :: ls)) with (x ++ join ls). destruct I as [->|I].
  - now apply includes_append_l.
  - apply includes_append_r. now apply IH.
Qed.

Lemma includes_self (s rest : string) : includes s (s ++ rest) = true.
Proof. apply includes_startsWith, startsWith_append. Qed.

Lemma langItem_includes_lang (lang perc : string) (index : Z) :
  includes lang (langItem (lang, perc) index) = true.
Proof.
  unfold langItem, langItemTemplate.
  apply includes_unlines
    with (l := "          <text " ++ attr "data-testid" "lang-name" ++ " " ++ attr "x" "2"
               ++ " " ++ attr "y" "15" ++ " " ++ attr "class" "lang-name" ++ ">"
               ++ lang ++ "</text>").
  - do 3 right. left. reflexivity.
  - do 9 apply includes_append_r. apply includes_self.
Qed.

Lemma svgDocument_includes (needle : string) (height : Z) (langItems : string) :
  includes needle langItems = true ->
  includes needle (svgDocument height langItems) = true.
Proof.
  intros H. unfold svgDocument.
  apply includes_unlines with (l := "      " ++ langItems).
  - repeat (first [left; reflexivity | right]).
  - now apply includes_append_r.
Qed.

Lemma mapi_from_In {A B : Type} (f : A -> Z -> B) (x : A) (l : list A) (start : Z) :
  In x l -> exists index, In (f x index) (mapi_from f start l).
Proof.
  revert start. induction l as [|y l IH]; intros start I; [destruct I|].
  cbn [mapi_from]. destruct I as [->|I].
  - exists start. now left.
  - destruct (IH (start + 1) I) as [index J]. exists index. now right.
Qed.

Lemma mapi_from_length {A B : Type} (f : A -> Z -> B) (l : list A) (start : Z) :
  List.length (mapi_from f start l) = List.length l.
Proof.
  revert start. induction l as [|y l IH]; intros start; cbn; [reflexivity | now rewrite IH].
Qed.

Lemma includes_refl (s : string) : includes s s = true.
Proof. rewrite <- (append_nil_r s) at 2. apply includes_self. Qed.

Lemma generateSvg_includes_row (percMap : Map string) (count : spec_float)
  (lang perc : string) :
  In (lang, perc) (topLangs percMap count) ->
  exists index,
    includes (langItemTemplate lang perc (stringToHexColor lang) index)
             (generateSvg percMap count) = true.
Proof.
  intros I.
  destruct (mapi_from_In langItem (lang, perc) (topLangs percMap count) 0 I) as [index J].
  exists index. unfold generateSvg. cbn zeta. apply svgDocument_includes.
  apply (includes_join _ _ _ J). apply includes_refl.
Qed.

(** C5. The colour of a language is a function of its name alone: in any
    two cards that show the language, whatever the other shares, the counts
    and the percentages of the language are, its row carries one and the
    same colour, the well-formed colour that [stringToHexColor] computes
    from the name. The computation has no other input: no state, no
    environment, no randomness. *)
Theorem C5_color_depends_on_name_only
  (lang : string) (percMap1 percMap2 : Map string) (count1 count2 : spec_float)
  (perc1 perc2 : string) :
  In (lang, perc1) (topLangs percMap1 count1) ->
  In (lang, perc2) (topLangs percMap2 count2) ->
  exists color : string,
    isHexColor color = true
    /\ stringToHexColor lang = color
    /\ (exists index1,
          includes (langItemTemplate lang perc1 color index1)
                   (generateSvg percMap1 count1) = true)
    /\ (exists index2,
          includes (langItemTemplate lang perc2 color index2)
                   (generateSvg percMap2 count2) = true).
Proof.
  intros I1 I2. exists (stringToHexColor lang).
  split; [apply stringToHexColor_isHexColor|]. split; [reflexivity|].
  split; now apply generateSvg_includes_row.
Qed.

(** C7. For a positive count [k] (and a map of fewer than [2^53] entries:
    an array has fewer than [2^32]), the card shows the first [min k n] of
    the [n] ranked shares and nothing else: it has one row for each of
    them, in their order, and the name of each of them stands in it. With a
    count of 2, the card of the reference set names Python and TypeScript
    and does not name JavaScript. *)
Theorem C7_card_shows_the_first_entries (percMap : Map string) (k : Z) :
  0 < k -> Z.of_nat (List.length percMap) < 2 ^ 53 ->
  let ranked := sort byPercentage (Map_entries percMap) in
  let shown := firstn (Z.to_nat (Z.min k (Z.of_nat (List.length ranked)))) ranked in
  topLangs percMap (Z2Num k) = shown
  /\ Z.of_nat (List.length shown) = Z.min k (Z.of_nat (List.length ranked))
  /\ List.length (mapi langItem shown) = List.length shown
  /\ generateSvg percMap (Z2Num k)
     = svgDocument (55 + Z.of_nat (List.length shown) * 40 + 30) (join (mapi langItem shown))
  /\ (forall lang perc,
        In (lang, perc) shown -> includes lang (generateSvg percMap (Z2Num k)) = true)
  /\ (let reference := [ ("TypeScript", "33.33"); ("JavaScript", "16.67")
                       ; ("Python", "50.00") ] in
      topLangs reference (Z2Num 2) = [ ("Python", "50.00"); ("TypeScript", "33.33") ]
      /\ includes "Python" (generateSvg reference (Z2Num 2)) = true
      /\ includes "TypeScript" (generateSvg reference (Z2Num 2)) = true
      /\ includes "JavaScript" (generateSvg reference (Z2Num 2)) = false).
Proof.
  intros K L ranked shown.
  assert (LR : List.length ranked = List.length percMap)
    by (symmetry; apply Permutation_length, sort_Permutation).
  assert (T : topLangs percMap (Z2Num k) = shown)
    by (unfold topLangs; rewrite slice0_positive; [reflexivity | exact K | fold ranked; lia]).
  assert (G : generateSvg percMap (Z2Num k)
              = svgDocument (55 + Z.of_nat (List.length shown) * 40 + 30)
                  (join (mapi langItem shown)))
    by (unfold generateSvg; cbn zeta; now rewrite T).
  split; [exact T|]. split.
  { unfold shown. rewrite length_firstn. lia. }
  split; [apply mapi_from_length|]. split; [exact G|]. split.
  - intros lang perc I. rewrite G. apply svgDocument_includes.
    destruct (mapi_from_In langItem (lang, perc) shown 0 I) as [index J].
    apply (includes_join _ _ _ J), langItem_includes_lang.
  - vm_compute. repeat split.
Qed.

(** ** The theorems at the inputs of the test suite *)

Lemma C2_witness_mockRepos :
  (exists r, In r mockRepos /\ language r <> None)
  /\ Z.of_nat (List.length mockRepos) < 2 ^ 53
  /\ (let shares := percMap (fun _ => EmptyString) (langs (filterRepos mockRepos)) in
      NoDup (Map_keys shares)
      /\ exists qs : list Q,
           Forall2 (fun share q => mathValue (snd share) = Some q) shares qs
           /\ (Qabs (Qsum qs - 100)
               <= (1 # 100) * inject_Z (Z.of_nat (List.length shares)))%Q).
Proof.
  assert (H1 : exists r, In r mockRepos /\ language r <> None).
  { exists (mkGitHubRepo 1 "repo1" "user/repo1" 1 (Some "TypeScript")).
    split; [left; reflexivity | discriminate]. }
  assert (H2 : Z.of_nat (List.length mockRepos) < 2 ^ 53) by reflexivity.
  split; [exact H1|]. split; [exact H2|].
  exact (C2_percentages_sum_to_100 (fun _ => EmptyString) mockRepos H1 H2).
Defined.

Lemma C3_witness_mockRepos :
  Z.of_nat (List.length mockRepos) < 2 ^ 53
  /\ (let shares := percMap (fun _ => EmptyString) (langs (filterRepos mockRepos)) in
      let ranked := sort byPercentage (Map_entries shares) in
      Map_keys shares = firstSeen [] mockRepos
      /\ Forall (fun share => mathValue (snd share) <> None) shares
      /\ Permutation shares ranked
      /\ StronglySorted (fun a b => (numericValue b <= numericValue a)%Q) ranked
      /\ (forall q : Q,
            filter (fun share => Qeq_bool (numericValue share) q) ranked
            = filter (fun share => Qeq_bool (numericValue share) q) shares)
      /\ sort byPercentage
           (percMap (fun _ => EmptyString)
              (langs (filterRepos [ mkGitHubRepo 1 "a" "u/a" 0 (Some "A")
                                  ; mkGitHubRepo 2 "b" "u/b" 0 (Some "B") ])))
         = [ ("A", "50.00"); ("B", "50.00") ]
      /\ sort byPercentage [ ("A", "5.00"); ("B", "10.00"); ("C", "85.00") ]
         = [ ("C", "85.00"); ("B", "10.00"); ("A", "5.00") ]).
Proof.
  assert (H : Z.of_nat (List.length mockRepos) < 2 ^ 53) by reflexivity.
  split; [exact H|].
  exact (C3_ranking_is_sorted_and_stable (fun _ => EmptyString) mockRepos H).
Defined.

Lemma C4_witness_one_repository_without_language :
  fetch (fun _ => EmptyString)
        (fun _ _ => Return (mkApiResponse 200 "OK"
                              (Return [mkGitHubRepo 7 "repo7" "user/repo7" 1 None])))
        (mkRequest "GET" (mkURL "/testuser" [])) (mkEnv "key")
  = mkResponse 200 (("Content-Type", "image/svg+xml") :: corsHeaders)
      (Some (svgDocument 85 EmptyString))
  /\ includes "NaN" (svgDocument 85 EmptyString) = false
  /\ wellFormed (svgDocument 85 EmptyString) = true.
Proof.
  pose proof
    (C4_no_language_gives_empty_chart (fun _ => EmptyString)
       (fun _ _ => Return (mkApiResponse 200 "OK"
                             (Return [mkGitHubRepo 7 "repo7" "user/repo7" 1 None])))
       (mkRequest "GET" (mkURL "/testuser" [])) (mkEnv "key")
       (mkApiResponse 200 "OK" (Return [mkGitHubRepo 7 "repo7" "user/repo7" 1 None]))
       [mkGitHubRepo 7 "repo7" "user/repo7" 1 None]
       eq_refl eq_refl eq_refl eq_refl) as W.
  destruct W as (_ & _ & W1 & W2 & _ & W3).
  - intros r [<-|[]]. reflexivity.
  - split; [exact W1|]. split; [exact W2 | exact W3].
Defined.

Lemma C7_witness_count_2 :
  0 < 2
  /\ Z.of_nat (List.length [ ("TypeScript", "33.33"); ("JavaScript", "16.67")
                           ; ("Python", "50.00") ]) < 2 ^ 53
  /\ topLangs [ ("TypeScript", "33.33"); ("JavaScript", "16.67"); ("Python", "50.00") ]
              (Z2Num 2)
     = firstn 2 (sort byPercentage
                   [ ("TypeScript", "33.33"); ("JavaScript", "16.67"); ("Python", "50.00") ]).
Proof.
  assert (H1 : 0 < 2) by reflexivity.
  assert (H2 : Z.of_nat (List.length [ ("TypeScript", "33.33"); ("JavaScript", "16.67")
                                     ; ("Python", "50.00") ]) < 2 ^ 53) by reflexivity.
  split; [exact H1|]. split; [exact H2|].
  exact (proj1 (C7_card_shows_the_first_entries
                  [ ("TypeScript", "33.33"); ("JavaScript", "16.67"); ("Python", "50.00") ]
                  2 H1 H2)).
Defined.

Lemma C5_witness_Python_in_two_cards :
  In ("Python", "50.00")
     (topLangs [ ("TypeScript", "33.33"); ("JavaScript", "16.67"); ("Python", "50.00") ]
               (Z2Num 2))
  /\ In ("Python", "100.00") (topLangs [ ("Python", "100.00") ] (Z2Num 5))
  /\ exists color : string,
       isHexColor color = true
       /\ stringToHexColor "Python" = color
       /\ (exists index1,
             includes (langItemTemplate "Python" "50.00" color index1)
                      (generateSvg [ ("TypeScript", "33.33"); ("JavaScript", "16.67")
                                   ; ("Python", "50.00") ] (Z2Num 2)) = true)
       /\ (exists index2,
             includes (langItemTemplate "Python" "100.00" color index2)
                      (generateSvg [ ("Python", "100.00") ] (Z2Num 5)) = true).
Proof.
  assert (H1 : In ("Python", "50.00")
                  (topLangs [ ("TypeScript", "33.33"); ("JavaScript", "16.67")
                            ; ("Python", "50.00") ] (Z2Num 2)))
    by (vm_compute; left; reflexivity).
  assert (H2 : In ("Python", "100.00") (topLangs [ ("Python", "100.00") ] (Z2Num 5)))
    by (vm_compute; left; reflexivity).
  split; [exact H1|]. split; [exact H2|].
  exact (C5_color_depends_on_name_only "Python" _ _ _ _ _ _ H1 H2).
Defined.

(** * Further properties *)

(** ** The body of an error response is read back by [JSON.parse] *)

Lemma readJSONString_escapeJSONChar (a : ascii) (fuel : nat) (rest : string) :
  readJSONString (S fuel) (escapeJSONChar a ++ rest)
  = prepend (String a EmptyString) (readJSONString fuel rest).
Proof. destruct a as [[] [] [] [] [] [] [] []]; reflexivity. Qed.

Lemma readJSONString_escapeJSON (s rest : string) (fuel : nat) :
  (String.length s < fuel)%nat ->
  readJSONString fuel (escapeJSON s ++ dquote ++ rest) = Some (s, rest).
Proof.
  revert fuel. induction s as [|a s IH]; intros fuel F.
  - destruct fuel as [|fuel]; [inversion F | reflexivity].
  - destruct fuel as [|fuel]; [inversion F|]. cbn [String.length] in F.
    cbn [escapeJSON]. rewrite append_assoc, readJSONString_escapeJSONChar.
    rewrite IH by lia. reflexivity.
Qed.

Lemma escapeJSON_length (s : string) : (String.length s <= String.length (escapeJSON s))%nat.
Proof.
  induction s as [|a s IH]; [apply Nat.le_refl|].
  cbn [escapeJSON String.length]. rewrite length_append.
  assert (1 <= String.length (escapeJSONChar a))%nat
    by (destruct a as [[] [] [] [] [] [] [] []]; cbn; lia).
  lia.
Qed.

Lemma readQuoted_QuoteJSONString (s rest : string) :
  readQuoted (QuoteJSONString s ++ rest) = Some (s, rest).
Proof.
  unfold QuoteJSONString, readQuoted. rewrite !append_assoc. cbn [dquote append skipSpace].
  change (isJSONSpace (ascii_of_nat 34)) with false. cbn iota.
  change (byteOf (ascii_of_nat 34) =? 34) with true. cbn iota.
  change (String (ascii_of_nat 34) rest) with (dquote ++ rest).
  apply readJSONString_escapeJSON.
  rewrite length_append. pose proof (escapeJSON_length s). lia.
Qed.

Lemma readMember_property (k v rest : string) :
  readMember ((QuoteJSONString k ++ ":" ++ QuoteJSONString v) ++ rest)
  = Some ((k, v), skipSpace rest).
Proof.
  unfold readMember. rewrite !append_assoc, readQuoted_QuoteJSONString.
  cbn [append skipSpace]. change (isJSONSpace ":") with false. cbn iota.
  change (byteOf ":" =? 58) with true. cbn iota.
  rewrite readQuoted_QuoteJSONString. reflexivity.
Qed.

Lemma readMembers_properties (p : string * string) (props : list (string * string))
  (fuel : nat) :
  (List.length props < fuel)%nat ->
  readMembers fuel (joinWith "," (JSON_properties (p :: props)) ++ "}") = Some (p :: props).
Proof.
  revert p fuel. induction props as [|q props IH]; intros [k v] fuel F.
  - destruct fuel as [|fuel]; [inversion F|].
    cbn [JSON_properties joinWith readMembers]. rewrite readMember_property. reflexivity.
  - destruct fuel as [|fuel]; [inversion F|]. cbn [List.length] in F.
    destruct q as [k' v'].
    change (joinWith "," (JSON_properties ((k, v) :: (k', v') :: props)))
      with ((QuoteJSONString k ++ ":" ++ QuoteJSONString v)
            ++ "," ++ joinWith "," (JSON_properties ((k', v') :: props))).
    cbn [readMembers].
    rewrite (append_assoc (_ ++ _ ++ _)), readMember_property.
    rewrite append_assoc. cbn [append skipSpace].
    change (isJSONSpace ",") with false. cbn iota.
    change (byteOf "," =? 44) with true. cbn iota.
    rewrite (IH (k', v') fuel ltac:(lia)). reflexivity.
Qed.

Lemma joinWith_properties_length (props : list (string * string)) :
  (List.length props <= String.length (joinWith "," (JSON_properties props)))%nat.
Proof.
  induction props as [|[k v] props IH]; [apply Nat.le_refl|].
  cbn [JSON_properties joinWith List.length].
  assert (Q : (1 <= String.length (QuoteJSONString k ++ ":" ++ QuoteJSONString v))%nat)
    by (unfold QuoteJSONString; cbn; lia).
  destruct (JSON_properties props) as [|x xs] eqn:E.
  - destruct props as [|[] ?]; [cbn [List.length]; lia | discriminate].
  - rewrite !length_append. cbn [String.length]. lia.
Qed.

(** [JSON.parse] reads back what [JSON.stringify] writes. *)
Lemma JSON_parse_stringify (props : list (string * string)) :
  JSON_parse (JSON_stringify props) = Some props.
Proof.
  destruct props as [|p props]; [reflexivity|].
  unfold JSON_stringify, JSON_parse. cbn [append skipSpace].
  change (isJSONSpace "{") with false. cbn iota.
  change (byteOf "{" =? 123) with true. cbn iota.
  destruct p as [k v].
  assert (E : exists rest,
             joinWith "," (JSON_properties ((k, v) :: props)) ++ "}"
             = String (ascii_of_nat 34) rest).
  { destruct props as [|[k' v'] props]; cbn [JSON_properties joinWith];
      unfold QuoteJSONString; rewrite !append_assoc; cbn [dquote append]; eexists; reflexivity. }
  destruct E as [rest E]. rewrite E. cbn [skipSpace].
  change (isJSONSpace (ascii_of_nat 34)) with false. cbn iota.
  change (byteOf (ascii_of_nat 34) =? 125) with false. cbn iota.
  rewrite <- E. apply readMembers_properties.
  rewrite length_append. pose proof (joinWith_properties_length ((k, v) :: props)) as L.
  cbn [List.length] in L. cbn [String.length]. lia.
Qed.

(** X1. Every error of the request to GitHub, whatever characters its
    message has, gives a response of status 500 whose body [JSON.parse]
    reads back as the two members [error] and [message], the second one
    being the message of the error, character for character. *)
Theorem error_body_is_read_back
  (NumberToString : spec_float -> string) (globalFetch : Fetch)
  (request : Request) (env : Env) (message : string) :
  method request = "GET" ->
  fetchGitHubRepos globalFetch (nullish (username (pathname (url request))) "undefined") env
  = Throw message ->
  let response := fetch NumberToString globalFetch request env in
  status response = 500
  /\ Headers_get (headers response) "Content-Type" = Some "application/json"
  /\ exists text,
       body response = Some text
       /\ JSON_parse text = Some [ ("error", "Failed to fetch repository data")
                                 ; ("message", message) ].
Proof.
  intros M T response. unfold response, fetch. rewrite M.
  cbn [String.eqb Ascii.eqb Bool.eqb negb]. cbn zeta. rewrite T. cbn [status headers body].
  split; [reflexivity|]. split; [reflexivity|].
  eexists. split; [reflexivity|]. apply JSON_parse_stringify.
Qed.

(** A status text with a quote, a backslash and a line feed in it. *)
Lemma error_body_is_read_back_witness :
  let statusText := "Not " ++ dquote ++ "Found" ++ dquote ++ backslash ++ newline in
  let globalFetch : Fetch := fun _ _ => Return (mkApiResponse 404 statusText (Return [])) in
  let request := getRequest "/" [] in
  let response := fetch (fun _ => EmptyString) globalFetch request (mkEnv "key") in
  method request = "GET"
  /\ fetchGitHubRepos globalFetch "undefined" (mkEnv "key")
     = Throw ("GitHub API error: 404 " ++ statusText)
  /\ status response = 500
  /\ Headers_get (headers response) "Content-Type" = Some "application/json"
  /\ exists text,
       body response = Some text
       /\ JSON_parse text = Some [ ("error", "Failed to fetch repository data")
                                 ; ("message", "GitHub API error: 404 " ++ statusText) ].
Proof.
  intros statusText globalFetch request response.
  split; [reflexivity|]. split; [reflexivity|].
  exact (error_body_is_read_back (fun _ => EmptyString) globalFetch request (mkEnv "key")
           ("GitHub API error: 404 " ++ statusText) eq_refl eq_refl).
Defined.

(** ** The methods and the headers of the handler *)

Lemma method_cases (m : string) :
  (m = "OPTIONS" /\ String.eqb m "OPTIONS" = true)
  \/ (m = "GET" /\ String.eqb m "OPTIONS" = false /\ String.eqb m "GET" = true)
  \/ (m <> "OPTIONS" /\ m <> "GET"
      /\ String.eqb m "OPTIONS" = false /\ String.eqb m "GET" = false).
Proof.
  destruct (String.eqb_spec m "OPTIONS") as [->|O]; [left; split; reflexivity|].
  destruct (String.eqb_spec m "GET") as [->|G]; [right; left; repeat split|].
  right; right. repeat split; assumption.
Qed.

(** X2. The handler answers every request, with one of three statuses and
    always with the three CORS headers. The status is 405 exactly for the
    methods other than [OPTIONS] and [GET], and 500 exactly when the method
    is [GET] and the request to GitHub throws; the body is empty exactly for
    [OPTIONS]. A request of another method than [GET] is answered whatever
    the network and the key are: GitHub is not asked. *)
Theorem every_response_has_the_CORS_headers
  (NumberToString : spec_float -> string) (globalFetch : Fetch)
  (request : Request) (env : Env) :
  let response := fetch NumberToString globalFetch request env in
  let user := nullish (username (pathname (url request))) "undefined" in
  (Headers_get (headers response) "Access-Control-Allow-Origin" = Some "*"
   /\ Headers_get (headers response) "Access-Control-Allow-Methods" = Some "GET, OPTIONS"
   /\ Headers_get (headers response) "Access-Control-Allow-Headers" = Some "Content-Type")
  /\ (status response = 200 \/ status response = 405 \/ status response = 500)
  /\ (status response = 405 <-> method request <> "OPTIONS" /\ method request <> "GET")
  /\ (status response = 405 -> body response = Some "Method not allowed")
  /\ (status response = 500
      <-> method request = "GET"
          /\ exists message, fetchGitHubRepos globalFetch user env = Throw message)
  /\ (body response = None <-> method request = "OPTIONS")
  /\ (method request <> "GET" ->
      forall (globalFetch' : Fetch) (env' : Env),
        fetch NumberToString globalFetch' request env' = response).
Proof.
  intros response user. unfold response, user, fetch.
  destruct (method_cases (method request)) as [[M E]|[(M & E1 & E2)|(M1 & M2 & E1 & E2)]].
  - rewrite E. cbn [status headers body]. rewrite M.
    split; [repeat split|]. split; [left; reflexivity|].
    split; [split; [discriminate | intros [H _]; now destruct H]|].
    split; [discriminate|].
    split; [split; [discriminate | intros [H _]; discriminate]|].
    split; [split; reflexivity|]. reflexivity.
  - rewrite E1, E2. cbn [negb]. cbn zeta. rewrite M.
    destruct (fetchGitHubRepos globalFetch
                (nullish (username (pathname (url request))) "undefined") env)
      as [repos|message]; cbn [status headers body].
    + split; [repeat split|]. split; [left; reflexivity|].
      split; [split; [discriminate | intros [_ H]; now destruct H]|].
      split; [discriminate|].
      split; [split; [discriminate | intros [_ [message H]]; discriminate]|].
      split; [split; discriminate|]. intros H. now destruct H.
    + split; [repeat split|]. split; [right; right; reflexivity|].
      split; [split; [discriminate | intros [_ H]; now destruct H]|].
      split; [discriminate|].
      split; [split; [intros _; split; [reflexivity | now exists message] | reflexivity]|].
      split; [split; discriminate|]. intros H. now destruct H.
  - rewrite E1, E2. cbn [negb status headers body].
    split; [repeat split|]. split; [right; left; reflexivity|].
    split; [split; [intros _; split; assumption | reflexivity]|].
    split; [reflexivity|].
    split; [split; [discriminate | intros [H _]; contradiction]|].
    split; [split; [discriminate | intros H; contradiction]|]. reflexivity.
Qed.

(** X3. The response to a [GET] depends on the network through one request
    only: the one for the first page, of 100 repositories, of the user of
    the path, sent with the key as a bearer token. Two networks that answer
    this request alike give the same response, so the key shows in the
    response only as far as GitHub's answer depends on it. *)
Theorem one_request_to_GitHub
  (NumberToString : spec_float -> string) (globalFetch globalFetch' : Fetch)
  (request : Request) (env env' : Env) :
  let user := nullish (username (pathname (url request))) "undefined" in
  globalFetch (reposUrl user) (reposHeaders env)
  = globalFetch' (reposUrl user) (reposHeaders env') ->
  fetch NumberToString globalFetch request env
  = fetch NumberToString globalFetch' request env'
  /\ reposUrl user
     = "https://api.github.com/users/" ++ user ++ "/repos?page=1&per_page=100&sort=updated"
  /\ Headers_get (reposHeaders env) "Authorization" = Some ("Bearer " ++ GH_KEY env)
  /\ Headers_get (reposHeaders env) "User-Agent" = Some "gh-lang-stats-ts".
Proof.
  intros user H. split; [|repeat split].
  unfold fetch, fetchGitHubRepos. fold user. rewrite H. reflexivity.
Qed.

(** Two networks that differ everywhere but at the request of the worker,
    and two keys that GitHub treats alike. *)
Lemma one_request_to_GitHub_witness :
  let request := getRequest "/testuser" [] in
  let asked (address : string) : bool :=
    String.eqb address
      "https://api.github.com/users/testuser/repos?page=1&per_page=100&sort=updated" in
  let globalFetch : Fetch :=
    fun address _ => if asked address then Return (okResponse mockRepos)
                     else Throw "unreachable" in
  let globalFetch' : Fetch :=
    fun address _ => if asked address then Return (okResponse mockRepos)
                     else Return (okResponse []) in
  globalFetch (reposUrl "testuser") (reposHeaders (mkEnv "key"))
  = globalFetch' (reposUrl "testuser") (reposHeaders (mkEnv "other key"))
  /\ fetch (fun _ => EmptyString) globalFetch request (mkEnv "key")
     = fetch (fun _ => EmptyString) globalFetch' request (mkEnv "other key").
Proof.
  intros request asked globalFetch globalFetch'.
  assert (H : globalFetch (reposUrl "testuser") (reposHeaders (mkEnv "key"))
              = globalFetch' (reposUrl "testuser") (reposHeaders (mkEnv "other key")))
    by reflexivity.
  split; [exact H|].
  exact (proj1 (one_request_to_GitHub (fun _ => EmptyString) globalFetch globalFetch'
                  request (mkEnv "key") (mkEnv "other key") H)).
Defined.

(** ** The user name of the path *)

Lemma string_of_list_ascii_snoc (l : list ascii) (a : ascii) (s : string) :
  string_of_list_ascii (l ++ [a]) ++ s = string_of_list_ascii l ++ String a s.
Proof. induction l as [|x l IH]; cbn; [reflexivity | now rewrite IH]. Qed.

Lemma string_of_list_ascii_rev_nonempty (a : ascii) (cur : list ascii) :
  String.eqb (string_of_list_ascii (rev (a :: cur))) EmptyString = false.
Proof.
  cbn [rev]. destruct (rev cur) as [|x l]; reflexivity.
Qed.

Lemma without_head (a b : ascii) (s : string) :
  without a (String b s) = true -> Ascii.eqb b a = false /\ without a s = true.
Proof.
  cbn [without]. intros H. apply andb_true_iff in H as [H1 H2].
  split; [now apply negb_true_iff | exact H2].
Qed.

Lemma startsWith_slash (rest : string) :
  startsWith "/" rest = true -> exists rest', rest = String "/" rest'.
Proof.
  destruct rest as [|a rest]; [discriminate|]. cbn [startsWith]. intros H.
  apply andb_true_iff in H as [H _]. apply Ascii.eqb_eq in H. subst a. now exists rest.
Qed.

(** The first part of the path that is not empty: what stands before the
    first slash, after the part [cur] read so far. *)
Lemma split_from_first (u rest : string) (a : ascii) (cur : list ascii) :
  without "/" u = true -> rest = EmptyString \/ startsWith "/" rest = true ->
  hd_error (filter (fun p => negb (String.eqb p EmptyString))
              (split_from "/" (u ++ rest) (a :: cur)))
  = Some (string_of_list_ascii (rev (a :: cur)) ++ u).
Proof.
  revert a cur. induction u as [|b u IH]; intros a cur W R.
  - cbn [append]. rewrite append_nil_r. destruct R as [->|R].
    + cbn [split_from filter]. rewrite string_of_list_ascii_rev_nonempty. reflexivity.
    + destruct (startsWith_slash rest R) as [rest' ->]. cbn [split_from Ascii.eqb Bool.eqb].
      cbn [filter]. rewrite string_of_list_ascii_rev_nonempty. reflexivity.
  - apply without_head in W as [B W]. cbn [append split_from]. rewrite B.
    rewrite (IH b (a :: cur) W R). f_equal.
    change (rev (b :: a :: cur)) with (rev (a :: cur) ++ [b])%list.
    apply string_of_list_ascii_snoc.
Qed.

Lemma username_slash (pathname : string) : username (String "/" pathname) = username pathname.
Proof. reflexivity. Qed.

Lemma username_slashes (k : nat) (pathname : string) :
  username (repeatString "/" k ++ pathname) = username pathname.
Proof.
  induction k as [|k IH]; [reflexivity|].
  cbn [repeatString]. rewrite append_assoc. cbn [append]. now rewrite username_slash.
Qed.

Lemma username_first (u rest : string) :
  u <> EmptyString -> without "/" u = true ->
  rest = EmptyString \/ startsWith "/" rest = true ->
  username (u ++ rest) = Some u.
Proof.
  intros N W R. destruct u as [|a u]; [contradiction|].
  apply without_head in W as [A W]. unfold username, split. cbn [append split_from].
  rewrite A. rewrite (split_from_first u rest a [] W R). reflexivity.
Qed.

(** A path is made of slashes only, or has a first part. *)
Lemma pathname_cases (pathname : string) :
  (exists k, pathname = repeatString "/" k)
  \/ (exists k u rest,
        pathname = repeatString "/" k ++ u ++ rest
        /\ u <> EmptyString /\ without "/" u = true
        /\ (rest = EmptyString \/ startsWith "/" rest = true)).
Proof.
  assert (P : forall s, exists u rest,
               s = u ++ rest /\ without "/" u = true
               /\ (rest = EmptyString \/ startsWith "/" rest = true)).
  { induction s as [|a s (u & rest & E & W & R)].
    - exists EmptyString, EmptyString. repeat split. now left.
    - destruct (Ascii.eqb_spec a "/") as [->|N].
      + exists EmptyString, (String "/" s). repeat split. now right.
      + exists (String a u), rest. cbn [append without]. rewrite <- E.
        apply Ascii.eqb_neq in N. rewrite N, W. repeat split. exact R. }
  induction pathname as [|a s IH].
  - left. now exists 0%nat.
  - destruct (Ascii.eqb_spec a "/") as [->|N].
    + destruct IH as [[k ->]|(k & u & rest & -> & H)].
      * left. now exists (S k).
      * right. exists (S k), u, rest. split; [reflexivity | exact H].
    + right. destruct (P s) as (u & rest & -> & W & R).
      exists 0%nat, (String a u), rest. cbn [repeatString append without].
      apply Ascii.eqb_neq in N. rewrite N, W. repeat split; [discriminate | exact R].
Qed.

(** X4. The user name is the first part of the path that is not empty:
    slashes before it are skipped and what follows its slash is ignored. It
    is never empty and holds no slash. There is none exactly when the path
    is made of slashes only. *)
Theorem username_is_the_first_part_of_the_path (pathname : string) :
  (forall u : string,
     username pathname = Some u
     <-> u <> EmptyString /\ without "/" u = true
         /\ exists (k : nat) (rest : string),
              pathname = repeatString "/" k ++ u ++ rest
              /\ (rest = EmptyString \/ startsWith "/" rest = true))
  /\ (username pathname = None <-> exists k : nat, pathname = repeatString "/" k).
Proof.
  assert (A : forall k, username (repeatString "/" k) = None).
  { intros k. rewrite <- (append_nil_r (repeatString "/" k)). now rewrite username_slashes. }
  assert (B : forall k u rest,
             u <> EmptyString -> without "/" u = true ->
             rest = EmptyString \/ startsWith "/" rest = true ->
             username (repeatString "/" k ++ u ++ rest) = Some u).
  { intros k u rest N W R. rewrite username_slashes. now apply username_first. }
  split.
  - intros u. split.
    + intros H. destruct (pathname_cases pathname) as [[k ->]|(k & u' & rest & -> & N & W & R)].
      * rewrite A in H. discriminate.
      * rewrite (B k u' rest N W R) in H. injection H as <-.
        split; [exact N|]. split; [exact W|]. now exists k, rest.
    + intros (N & W & k & rest & -> & R). now apply B.
  - split.
    + intros H. destruct (pathname_cases pathname) as [[k ->]|(k & u' & rest & -> & N & W & R)].
      * now exists k.
      * rewrite (B k u' rest N W R) in H. discriminate.
    + intros [k ->]. apply A.
Qed.

Example username_examples :
  username "/testuser" = Some "testuser"
  /\ username "//testuser/repos/" = Some "testuser"
  /\ username "/" = None
  /\ username EmptyString = None.
Proof. repeat split. Qed.

(** X5. A request whose path names no user is answered like the request
    for the user named [undefined]: this is the name that the worker asks
    GitHub for. *)
Theorem missing_username_is_the_user_undefined
  (NumberToString : spec_float -> string) (globalFetch : Fetch)
  (request : Request) (env : Env) (k : nat) :
  pathname (url request) = repeatString "/" k ->
  fetch NumberToString globalFetch request env
  = fetch NumberToString globalFetch
      (mkRequest (method request) (mkURL "/undefined" (searchParams (url request)))) env
  /\ fetchGitHubRepos globalFetch
       (nullish (username (pathname (url request))) "undefined") env
     = match globalFetch
               "https://api.github.com/users/undefined/repos?page=1&per_page=100&sort=updated"
               (reposHeaders env) with
       | Throw message => Throw message
       | Return response =>
           if api_ok response then api_json response
           else Throw ("GitHub API error: " ++ intToString 10 (api_status response) ++ " "
                       ++ api_statusText response)
       end.
Proof.
  intros P.
  assert (U : username (pathname (url request)) = None).
  { rewrite P, <- (append_nil_r (repeatString "/" k)). now rewrite username_slashes. }
  split.
  - unfold fetch. cbn [method url pathname searchParams]. rewrite U. reflexivity.
  - rewrite U. cbn [nullish]. unfold fetchGitHubRepos.
    change (reposUrl "undefined")
      with "https://api.github.com/users/undefined/repos?page=1&per_page=100&sort=updated".
    destruct (globalFetch _ _) as [response|message]; [|reflexivity].
    destruct (api_ok response); reflexivity.
Qed.

(** The request of the test suite for the path [/]: GitHub knows no user
    [undefined]. *)
Lemma missing_username_witness :
  let globalFetch : Fetch :=
    fun address _ =>
      if includes "undefined" address
      then Return (mkApiResponse 404 "Not Found" (Throw EmptyString))
      else Return (okResponse mockRepos) in
  let request := getRequest "/" [] in
  pathname (url request) = repeatString "/" 1
  /\ fetch (fun _ => EmptyString) globalFetch request (mkEnv "key")
     = fetch (fun _ => EmptyString) globalFetch (getRequest "/undefined" []) (mkEnv "key")
  /\ fetchGitHubRepos globalFetch "undefined" (mkEnv "key")
     = Throw "GitHub API error: 404 Not Found".
Proof.
  intros globalFetch request.
  assert (P : pathname (url request) = repeatString "/" 1) by reflexivity.
  split; [exact P|].
  destruct (missing_username_is_the_user_undefined (fun _ => EmptyString) globalFetch
              request (mkEnv "key") 1 P) as [H1 H2].
  split; [exact H1 | exact H2].
Defined.

(** ** The share of one language *)

Lemma Map_get_NoDup {V : Type} (m : Map V) (key : string) (value : V) :
  NoDup (Map_keys m) -> In (key, value) m -> Map_get m key = Some value.
Proof.
  induction m as [|[k v] m IH]; intros ND I; [destruct I|].
  cbn [Map_keys map fst] in ND. inversion ND as [|? ? NI ND']; subst.
  cbn [Map_get]. destruct I as [E|I].
  - injection E as -> ->. now rewrite String.eqb_refl.
  - destruct (String.eqb_spec k key) as [->|N]; [|now apply IH].
    exfalso. apply NI. apply in_map_iff. now exists (key, value).
Qed.

Lemma langs_get (repos : list GitHubRepo) (key : string) :
  Map_get (langs (filterRepos repos)) key
  = if (countLang key repos =? 0)%nat then None else Some (Z.of_nat (countLang key repos)).
Proof. unfold langs. fold tallyStep. now rewrite tally_get, countKey_filterRepos. Qed.

(** X6. The share of each language is a number of hundredths [n] printed
    with two decimals, less than one hundredth away from the true share
    [100 * c / t] of the [c] repositories of the language among the [t]
    that have one. It lies between 0.00 and 100.00 and is the true share
    whenever that is a whole number of hundredths; a language that all
    these repositories have gets [100.00]. *)
Theorem share_of_each_language
  (NumberToString : spec_float -> string) (repos : list GitHubRepo)
  (key share : string) :
  Z.of_nat (List.length repos) < 2 ^ 53 ->
  In (key, share) (percMap NumberToString (langs (filterRepos repos))) ->
  let c := Z.of_nat (countLang key repos) in
  let t := Z.of_nat (List.length (filterRepos repos)) in
  0 < c <= t
  /\ exists n : Z,
       share = fixedDigits 2 n
       /\ share = intToString 10 (n / 100) ++ "."
                  ++ String (digitChar (n / 10 mod 10))
                       (String (digitChar (n mod 10)) EmptyString)
       /\ 0 <= n <= 10000
       /\ - t < t * n - 10000 * c < t
       /\ ((10000 * c) mod t = 0 -> n = 10000 * c / t)
       /\ (c = t -> share = "100.00").
Proof.
  intros B I c t.
  destruct (langs_shape (filterRepos repos)) as (ND & POS & TOT).
  set (m := langs (filterRepos repos)) in *.
  assert (T : total m < 2 ^ 53).
  { rewrite TOT. unfold filterRepos.
    pose proof (filter_length_le (fun r => match language r with
                                           | Some _ => true
                                           | None => false
                                           end) repos). lia. }
  rewrite (percMap_map NumberToString m ND) in I.
  apply in_map_iff in I as ([k val] & E & I). injection E as -> <-.
  pose proof (Map_get_NoDup m key val ND I) as G. unfold m in G. rewrite langs_get in G.
  destruct (countLang key repos =? 0)%nat; [discriminate|]. injection G as G.
  assert (V : 0 < val <= total m).
  { rewrite total_sum. apply sumZ_upper; [exact POS|].
    apply in_map_iff. now exists (key, val). }
  destruct (perc_value NumberToString val (total m) V T) as (n & E & N & C).
  fold c in G. rewrite TOT in V, C, E |- *. fold t in V, C, E |- *. subst val.
  split; [exact V|]. exists n.
  assert (N' : 0 <= n <= 10000) by nia.
  split; [exact E|]. split; [rewrite E; apply fixedDigits_2; lia|].
  split; [exact N'|]. split; [exact C|]. split.
  - intros D. apply Z.mod_divide in D; [|lia]. destruct D as [q D]. rewrite D.
    rewrite Z.div_mul by lia. nia.
  - intros Q. rewrite E. replace n with 10000 by nia. reflexivity.
Qed.

(** Python in the repositories of the test suite: three of six. *)
Lemma share_of_each_language_witness :
  Z.of_nat (List.length mockRepos) < 2 ^ 53
  /\ In ("Python", "50.00") (percMap (fun _ => EmptyString) (langs (filterRepos mockRepos)))
  /\ 0 < Z.of_nat (countLang "Python" mockRepos)
       <= Z.of_nat (List.length (filterRepos mockRepos))
  /\ exists n : Z,
       "50.00" = fixedDigits 2 n
       /\ "50.00" = intToString 10 (n / 100) ++ "."
                    ++ String (digitChar (n / 10 mod 10))
                         (String (digitChar (n mod 10)) EmptyString)
       /\ 0 <= n <= 10000
       /\ - Z.of_nat (List.length (filterRepos mockRepos))
          < Z.of_nat (List.length (filterRepos mockRepos)) * n
            - 10000 * Z.of_nat (countLang "Python" mockRepos)
          < Z.of_nat (List.length (filterRepos mockRepos))
       /\ ((10000 * Z.of_nat (countLang "Python" mockRepos))
             mod Z.of_nat (List.length (filterRepos mockRepos)) = 0
           -> n = 10000 * Z.of_nat (countLang "Python" mockRepos)
                  / Z.of_nat (List.length (filterRepos mockRepos)))
       /\ (Z.of_nat (countLang "Python" mockRepos)
           = Z.of_nat (List.length (filterRepos mockRepos)) -> "50.00" = "100.00").
Proof.
  assert (H1 : Z.of_nat (List.length mockRepos) < 2 ^ 53) by reflexivity.
  assert (H2 : In ("Python", "50.00")
                  (percMap (fun _ => EmptyString) (langs (filterRepos mockRepos))))
    by (vm_compute; right; right; left; reflexivity).
  split; [exact H1|]. split; [exact H2|].
  exact (share_of_each_language (fun _ => EmptyString) mockRepos "Python" "50.00" H1 H2).
Defined.

(** ** The tally and the rows *)

Lemma filterRepos_nil (repos : list GitHubRepo) :
  filterRepos repos = [] <-> forall r, In r repos -> language r = None.
Proof.
  split.
  - intros E r I. destruct (language r) as [l|] eqn:L; [|reflexivity].
    assert (J : In r (filterRepos repos)) by (apply filterRepos_In; rewrite L; split; [exact I | discriminate]).
    rewrite E in J. destruct J.
  - intros H. destruct (filterRepos repos) as [|r rs] eqn:E; [reflexivity|].
    assert (J : In r (filterRepos repos)) by (rewrite E; now left).
    apply filterRepos_In in J as [J N]. now apply H in J.
Qed.

Lemma sumZ_length (l : list Z) : Forall (fun v => 0 < v) l -> Z.of_nat (List.length l) <= sumZ l.
Proof.
  induction 1 as [|v l V F IH]; [apply Z.le_refl|]. cbn [List.length sumZ]. lia.
Qed.

Lemma filterRepos_length (repos : list GitHubRepo) :
  (List.length (filterRepos repos)
   + List.length (filter (fun r => match language r with
                                   | None => true
                                   | Some _ => false
                                   end) repos)
   = List.length repos)%nat.
Proof.
  unfold filterRepos. induction repos as [|r repos IH]; [reflexivity|].
  cbn [filter]. destruct (language r); cbn [List.length]; lia.
Qed.

(** X7. The tally counts every repository that has a language once, under
    one key: its keys are distinct, every count is at least 1, and the
    counts add up to the number of these repositories, which [total] is.
    So there are at most as many languages as repositories, and the tally
    is empty exactly when no repository has a language. *)
Theorem tally_counts_every_repository_once (repos : list GitHubRepo) :
  let tally := langs (filterRepos repos) in
  NoDup (Map_keys tally)
  /\ Forall (fun val => 1 <= val) (Map_values tally)
  /\ total tally = Z.of_nat (List.length (filterRepos repos))
  /\ total tally
     = Z.of_nat (List.length repos)
       - Z.of_nat (List.length (filter (fun r => match language r with
                                                 | None => true
                                                 | Some _ => false
                                                 end) repos))
  /\ Z.of_nat (List.length tally) <= total tally <= Z.of_nat (List.length repos)
  /\ (tally = [] <-> forall r, In r repos -> language r = None).
Proof.
  intros tally. destruct (langs_shape (filterRepos repos)) as (ND & POS & TOT).
  fold tally in ND, POS, TOT.
  pose proof (filterRepos_length repos) as P.
  split; [exact ND|]. split.
  { apply Forall_forall. intros v I. rewrite Forall_forall in POS. specialize (POS v I). lia. }
  split; [exact TOT|]. split; [lia|]. split.
  { split; [|lia]. rewrite total_sum.
    replace (List.length tally) with (List.length (Map_values tally))
      by (unfold Map_values; apply length_map).
    now apply sumZ_length. }
  rewrite <- filterRepos_nil. split.
  - intros E. rewrite E in TOT. cbn in TOT.
    destruct (filterRepos repos); [reflexivity | cbn in TOT; lia].
  - intros E. unfold tally. rewrite E. reflexivity.
Qed.

Lemma count_positive (top : option string) : exists k : Z, 0 < k /\ count top = Z2Num k.
Proof.
  destruct top as [t|]; [|exists 5; split; [lia | reflexivity]]. unfold count.
  destruct (negb (String.eqb t EmptyString)); cbn [andb]; [|exists 5; split; [lia | reflexivity]].
  rewrite parseInt10_positive. unfold parseInt10.
  destruct (spanSign (trimStart t)) as [sign str].
  destruct (spanDigits str 0 0) as [[n digits] rest].
  destruct sign; [exists 5; split; [lia | reflexivity]|].
  destruct digits as [|d]; [exists 5; split; [lia | reflexivity]|].
  cbn [negb andb Nat.eqb]. destruct (Z.ltb_spec 0 n) as [P|P].
  - exists n. split; [exact P | reflexivity].
  - exists 5. split; [lia | reflexivity].
Qed.

Lemma NoDup_firstn {A : Type} (n : nat) (l : list A) : NoDup l -> NoDup (firstn n l).
Proof.
  revert n. induction l as [|x l IH]; intros n ND; [now rewrite firstn_nil|].
  destruct n as [|n]; [constructor|]. cbn [firstn]. inversion ND as [|? ? NI ND']; subst.
  constructor; [|now apply IH]. intros I. apply NI.
  rewrite <- (firstn_skipn n l). apply in_or_app. now left.
Qed.

Lemma In_firstn {A : Type} (n : nat) (l : list A) (x : A) : In x (firstn n l) -> In x l.
Proof.
  intros I. rewrite <- (firstn_skipn n l). apply in_or_app. now left.
Qed.

(** X8. Whatever the [top] parameter is, the rows of the card are the
    first [k] ranked shares for a positive [k]: a user with a language gets
    at least one row, no language gets two rows, every row is a share of
    the map, and without the parameter there are 5 rows or, with fewer
    languages, one for each. *)
Theorem rows_whatever_top_is (percMap : Map string) (top : option string) :
  Z.of_nat (List.length percMap) < 2 ^ 53 ->
  NoDup (Map_keys percMap) ->
  let rows := topLangs percMap (count top) in
  (exists k : Z,
     0 < k /\ count top = Z2Num k
     /\ rows = firstn (Z.to_nat (Z.min k (Z.of_nat (List.length percMap))))
                 (sort byPercentage (Map_entries percMap)))
  /\ (percMap <> [] -> rows <> [])
  /\ (List.length rows <= List.length percMap)%nat
  /\ (top = None -> List.length rows = Nat.min 5 (List.length percMap))
  /\ NoDup (map fst rows)
  /\ (forall row, In row rows -> In row percMap).
Proof.
  intros L ND rows.
  pose proof (sort_Permutation byPercentage (Map_entries percMap)) as P.
  assert (LR : List.length (sort byPercentage (Map_entries percMap)) = List.length percMap)
    by (symmetry; apply Permutation_length, P).
  assert (R : forall k, 0 < k ->
              topLangs percMap (Z2Num k)
              = firstn (Z.to_nat (Z.min k (Z.of_nat (List.length percMap))))
                  (sort byPercentage (Map_entries percMap))).
  { intros k K. unfold topLangs. rewrite slice0_positive, LR; [reflexivity | exact K | lia]. }
  destruct (count_positive top) as (k & K & C).
  assert (E : rows = firstn (Z.to_nat (Z.min k (Z.of_nat (List.length percMap))))
                       (sort byPercentage (Map_entries percMap)))
    by (unfold rows; rewrite C; now apply R).
  assert (LE : List.length rows
               = Z.to_nat (Z.min k (Z.of_nat (List.length percMap)))).
  { rewrite E, length_firstn, LR. lia. }
  split; [now exists k|]. split.
  { intros N EQ. rewrite EQ in LE. cbn [List.length] in LE.
    destruct percMap; [contradiction | cbn [List.length] in LE; lia]. }
  split; [lia|]. split.
  { intros ->. unfold rows. change (count None) with (Z2Num 5).
    rewrite (R 5 ltac:(lia)), length_firstn, LR. lia. }
  split.
  - rewrite E, <- firstn_map. apply NoDup_firstn.
    apply (Permutation_NoDup (l := Map_keys percMap)); [|exact ND].
    unfold Map_keys. apply Permutation_map, P.
  - intros row I. rewrite E in I. apply In_firstn in I.
    apply (Permutation_in row (Permutation_sym P)) in I. exact I.
Qed.

(** The shares of the test suite, with [top=2abc]. *)
Lemma rows_whatever_top_is_witness :
  let percMap := [ ("TypeScript", "33.33"); ("JavaScript", "16.67"); ("Python", "50.00") ] in
  Z.of_nat (List.length percMap) < 2 ^ 53
  /\ NoDup (Map_keys percMap)
  /\ topLangs percMap (count (Some "2abc")) = [ ("Python", "50.00"); ("TypeScript", "33.33") ]
  /\ NoDup (map fst (topLangs percMap (count (Some "2abc")))).
Proof.
  intros percMap.
  assert (H1 : Z.of_nat (List.length percMap) < 2 ^ 53) by reflexivity.
  assert (H2 : NoDup (Map_keys percMap)).
  { repeat constructor; cbn; intuition discriminate. }
  split; [exact H1|]. split; [exact H2|]. split; [reflexivity|].
  exact (proj1 (proj2 (proj2 (proj2 (proj2
    (rows_whatever_top_is percMap (Some "2abc") H1 H2)))))).
Defined.

(** X9. A larger count only adds rows below: the rows for a count [k] are
    the first [k] rows for every larger count, in the same order. *)
Theorem larger_count_adds_rows_below (percMap : Map string) (k k' : Z) :
  0 < k <= k' ->
  Z.of_nat (List.length percMap) < 2 ^ 53 ->
  topLangs percMap (Z2Num k) = firstn (Z.to_nat k) (topLangs percMap (Z2Num k'))
  /\ (List.length (topLangs percMap (Z2Num k))
      <= List.length (topLangs percMap (Z2Num k')))%nat.
Proof.
  intros K L.
  assert (LR : List.length (sort byPercentage (Map_entries percMap)) = List.length percMap)
    by (symmetry; apply Permutation_length, sort_Permutation).
  unfold topLangs. rewrite !slice0_positive by (rewrite ?LR; lia).
  rewrite LR. split.
  - rewrite firstn_firstn. f_equal. lia.
  - rewrite !length_firstn, LR. lia.
Qed.

(** The shares of the test suite: the two rows of [top=2] are the first two
    of the three of [top=3]. *)
Lemma larger_count_adds_rows_below_witness :
  let percMap := [ ("TypeScript", "33.33"); ("JavaScript", "16.67"); ("Python", "50.00") ] in
  0 < 2 <= 3
  /\ Z.of_nat (List.length percMap) < 2 ^ 53
  /\ topLangs percMap (Z2Num 3)
     = [ ("Python", "50.00"); ("TypeScript", "33.33"); ("JavaScript", "16.67") ]
  /\ topLangs percMap (Z2Num 2) = firstn 2 (topLangs percMap (Z2Num 3)).
Proof.
  intros percMap.
  assert (H1 : 0 < 2 <= 3) by lia.
  assert (H2 : Z.of_nat (List.length percMap) < 2 ^ 53) by reflexivity.
  split; [exact H1|]. split; [exact H2|]. split; [reflexivity|].
  exact (proj1 (larger_count_adds_rows_below percMap 2 3 H1 H2)).
Defined.

(** ** The card is balanced markup *)

Lemma scanMarkup_text (t s : string) (name : list ascii) (open : list (list ascii))
  (roots : nat) :
  plainText t = true ->
  scanMarkup (t ++ s) InText (name :: open) roots = scanMarkup s InText (name :: open) roots.
Proof.
  unfold plainText. induction t as [|a t IH]; intros P; [reflexivity|].
  apply without_head in P as [A P]. cbn [append scanMarkup]. rewrite A. now apply IH.
Qed.

Lemma plainValue_head (a : ascii) (s : string) :
  plainValue (String a s) = true ->
  Ascii.eqb a "<" = false /\ Ascii.eqb a (ascii_of_nat 34) = false /\ plainValue s = true.
Proof.
  unfold plainValue. intros H. apply andb_true_iff in H as [H1 H2].
  apply without_head in H1 as [A1 H1]. apply without_head in H2 as [A2 H2].
  rewrite H1, H2. repeat split; assumption.
Qed.

Lemma scanMarkup_value (v s : string) (name : list ascii) (open : list (list ascii))
  (roots : nat) :
  plainValue v = true ->
  scanMarkup (v ++ s) (InValue name) open roots = scanMarkup s (InValue name) open roots.
Proof.
  induction v as [|a v IH]; intros P; [reflexivity|].
  apply plainValue_head in P as (A1 & A2 & P). cbn [append scanMarkup].
  rewrite A1, A2. now apply IH.
Qed.

Lemma plainValue_plainText (s : string) : plainValue s = true -> plainText s = true.
Proof. unfold plainValue. intros H. now apply andb_true_iff in H as [H _]. Qed.

Lemma scanMarkup_langItemTemplate (lang perc color : string) (index : Z) (s : string)
  (name : list ascii) (open : list (list ascii)) (roots : nat) :
  plainText lang = true -> plainValue perc = true -> plainValue color = true ->
  plainValue (intToString 10 (index * 40)) = true ->
  scanMarkup (langItemTemplate lang perc color index ++ s) InText (name :: open) roots
  = scanMarkup s InText (name :: open) roots.
Proof.
  intros L P C I. unfold langItemTemplate.
  generalize dependent (intToString 10 (index * 40)). intros i I.
  unfold attr. cbn [unlines]. unfold newline, dquote.
  rewrite !append_assoc. cbn [append].
  cbn.
  rewrite (scanMarkup_value i) by exact I.
  cbn.
  rewrite (scanMarkup_text lang) by exact L.
  cbn.
  rewrite (scanMarkup_text perc) by now apply plainValue_plainText.
  cbn.
  rewrite (scanMarkup_value perc) by exact P.
  cbn.
  rewrite (scanMarkup_value color) by exact C.
  cbn. reflexivity.
Qed.

Lemma plainValue_cons (a : ascii) (s : string) :
  Ascii.eqb a "<" = false -> Ascii.eqb a (ascii_of_nat 34) = false ->
  plainValue s = true -> plainValue (String a s) = true.
Proof.
  unfold plainValue. intros A1 A2 H. apply andb_true_iff in H as [H1 H2].
  cbn [without]. now rewrite A1, A2, H1, H2.
Qed.

Lemma plainValue_append (a b : string) :
  plainValue a = true -> plainValue b = true -> plainValue (a ++ b) = true.
Proof.
  induction a as [|x a IH]; intros A B; [exact B|].
  apply plainValue_head in A as (A1 & A2 & A). cbn [append].
  apply plainValue_cons; auto.
Qed.

Lemma plainValue_digit (a : ascii) (s : string) :
  isDigit a = true -> plainValue s = true -> plainValue (String a s) = true.
Proof.
  intros D H. apply isDigit_byte in D.
  apply plainValue_cons; [| |exact H]; apply eqb_byte.
  - change (byteOf "<") with 60. lia.
  - change (byteOf (ascii_of_nat 34)) with 34. lia.
Qed.

Lemma plainValue_digitsRadix (fuel : nat) (n : Z) (acc : string) :
  0 <= n -> plainValue acc = true -> plainValue (digitsRadix fuel 10 n acc) = true.
Proof.
  revert n acc. induction fuel as [|fuel IH]; intros n acc N A; [exact A|].
  rewrite digitsRadix_S.
  assert (D : plainValue (String (digitChar (n mod 10)) acc) = true).
  { apply plainValue_digit; [|exact A]. apply digitChar_decimal, Z.mod_pos_bound. lia. }
  destruct (n / 10 =? 0); [exact D|]. apply IH; [apply Z.div_pos; lia | exact D].
Qed.

Lemma plainValue_intToString (n : Z) : 0 <= n -> plainValue (intToString 10 n) = true.
Proof.
  intros N. unfold intToString.
  replace (n <? 0) with false by (symmetry; apply Z.ltb_ge; exact N).
  now apply plainValue_digitsRadix.
Qed.

Lemma plainValue_fixedDigits (n : Z) : 0 <= n -> plainValue (fixedDigits 2 n) = true.
Proof.
  intros N. rewrite fixedDigits_2 by exact N.
  apply plainValue_append; [apply plainValue_intToString, Z.div_pos; lia|].
  cbn [append]. apply plainValue_cons; [reflexivity | reflexivity|].
  apply plainValue_digit; [apply digitChar_decimal, Z.mod_pos_bound; lia|].
  apply plainValue_digit; [apply digitChar_decimal, Z.mod_pos_bound; lia|]. reflexivity.
Qed.

Lemma plainValue_allLowerHex (s : string) : allLowerHex s = true -> plainValue s = true.
Proof.
  induction s as [|a s IH]; intros H; [reflexivity|]. cbn [allLowerHex] in H.
  apply andb_true_iff in H as [A H]. unfold isLowerHex in A.
  apply plainValue_cons; [| |now apply IH]; apply eqb_byte.
  - change (byteOf "<") with 60. apply orb_true_iff in A as [A|A].
    + apply isDigit_byte in A. lia.
    + apply andb_true_iff in A as [A1 A2]. apply Z.leb_le in A1. lia.
  - change (byteOf (ascii_of_nat 34)) with 34. apply orb_true_iff in A as [A|A].
    + apply isDigit_byte in A. lia.
    + apply andb_true_iff in A as [A1 A2]. apply Z.leb_le in A1. lia.
Qed.

Lemma plainValue_stringToHexColor (str : string) : plainValue (stringToHexColor str) = true.
Proof.
  pose proof (stringToHexColor_isHexColor str) as H.
  destruct (stringToHexColor str) as [|a s]; [discriminate|]. cbn [isHexColor] in H.
  apply andb_true_iff in H as [H X]. apply andb_true_iff in H as [A _].
  apply Ascii.eqb_eq in A. subst a.
  apply plainValue_cons; [reflexivity | reflexivity | now apply plainValue_allLowerHex].
Qed.

Lemma scanMarkup_rows (rows : list (string * string)) (index : Z) (s : string)
  (name : list ascii) (open : list (list ascii)) (roots : nat) :
  (forall lang perc, In (lang, perc) rows ->
                     plainText lang = true /\ plainValue perc = true) ->
  0 <= index ->
  scanMarkup (join (mapi_from langItem index rows) ++ s) InText (name :: open) roots
  = scanMarkup s InText (name :: open) roots.
Proof.
  revert index. induction rows as [|[lang perc] rows IH]; intros index P I; [reflexivity|].
  cbn [mapi_from]. change (join (?x :: ?l)) with (x ++ join l).
  rewrite append_assoc. cbn [langItem].
  destruct (P lang perc (or_introl eq_refl)) as [L V].
  rewrite scanMarkup_langItemTemplate;
    [ | exact L | exact V | apply plainValue_stringToHexColor
      | apply plainValue_intToString; lia ].
  apply IH; [|lia]. intros l p J. apply P. now right.
Qed.

Lemma wellFormed_svgDocument (height : Z) (langItems : string) :
  0 <= height ->
  (forall s name open roots,
     scanMarkup (langItems ++ s) InText (name :: open) roots
     = scanMarkup s InText (name :: open) roots) ->
  wellFormed (svgDocument height langItems) = true.
Proof.
  intros H R. pose proof (plainValue_intToString height H) as P.
  unfold wellFormed, svgDocument.
  generalize dependent (intToString 10 height). intros h P.
  unfold attr. cbn [unlines]. unfold newline, dquote.
  rewrite !append_assoc. cbn [append]. cbn.
  rewrite (scanMarkup_value h) by exact P. cbn.
  rewrite (scanMarkup_value h) by exact P. cbn.
  rewrite R. reflexivity.
Qed.

Lemma In_slice0 {A : Type} (l : list A) (end_ : spec_float) (x : A) :
  In x (slice0 l end_) -> In x l.
Proof.
  unfold slice0. destruct (ToIntegerOrInfinity end_) as [| |z]; [auto | intros [] |].
  destruct (z <? 0); apply In_firstn.
Qed.

Lemma card_is_balanced (percMap : Map string) (count : spec_float) :
  (forall lang perc, In (lang, perc) percMap ->
                     plainText lang = true /\ plainValue perc = true) ->
  wellFormed (generateSvg percMap count) = true.
Proof.
  intros P. unfold generateSvg. cbn zeta. apply wellFormed_svgDocument; [lia|].
  intros s name open roots. apply scanMarkup_rows; [|lia].
  intros lang perc I. apply P. unfold topLangs in I. apply In_slice0 in I.
  apply (Permutation_in _ (Permutation_sym (sort_Permutation byPercentage _))) in I.
  exact I.
Qed.

(** X10. The card is balanced markup for every count, as long as no language
    name holds a [<] and no percentage holds a [<] or a double quote: every
    element that the card and its rows open is closed, whatever the number
    of rows. The names go into the card as they are: one with a tag in it
    breaks the balance. *)
Theorem card_is_balanced_markup (percMap : Map string) (count : spec_float) :
  (forall lang perc, In (lang, perc) percMap ->
                     plainText lang = true /\ plainValue perc = true) ->
  wellFormed (generateSvg percMap count) = true
  /\ wellFormed (generateSvg [ ("</svg>", "100.00") ] (Z2Num 5)) = false.
Proof.
  intros P. split; [exact (card_is_balanced percMap count P)|]. vm_compute. reflexivity.
Qed.

Lemma langs_keys (repos : list GitHubRepo) (key : string) :
  In key (Map_keys (langs (filterRepos repos)))
  <-> exists r, In r repos /\ language r = Some key.
Proof.
  rewrite Map_get_In, langs_get, <- countLang_pos.
  destruct (countLang key repos =? 0)%nat eqn:E.
  - apply Nat.eqb_eq in E. split; intros H; contradiction.
  - apply Nat.eqb_neq in E. split; intros H; [exact E | discriminate].
Qed.

(** X11. The card of a user. When GitHub answers the request of a [GET]
    with a list of repositories whose language names hold no [<], the
    response has status 200 and the type [image/svg+xml], and its body is
    the card of the shares of these repositories: balanced markup, with one
    row for each of the shares that [top] lets through, filled with the
    name, the share and the colour of the language. *)
Theorem card_of_a_user
  (NumberToString : spec_float -> string) (globalFetch : Fetch)
  (request : Request) (env : Env) (repos : list GitHubRepo) :
  method request = "GET" ->
  fetchGitHubRepos globalFetch (nullish (username (pathname (url request))) "undefined") env
  = Return repos ->
  Z.of_nat (List.length repos) < 2 ^ 53 ->
  (forall r lang, In r repos -> language r = Some lang -> plainText lang = true) ->
  let response := fetch NumberToString globalFetch request env in
  let shares := percMap NumberToString (langs (filterRepos repos)) in
  let count := count (searchParams_get (searchParams (url request)) "top") in
  status response = 200
  /\ Headers_get (headers response) "Content-Type" = Some "image/svg+xml"
  /\ body response = Some (generateSvg shares count)
  /\ wellFormed (generateSvg shares count) = true
  /\ (forall lang share,
        In (lang, share) (topLangs shares count) ->
        exists index,
          includes (langItemTemplate lang share (stringToHexColor lang) index)
                   (generateSvg shares count) = true).
Proof.
  intros M F B P response shares cnt.
  split; [|split; [|split]].
  - unfold response, fetch. rewrite M. cbn [String.eqb Ascii.eqb Bool.eqb negb]. cbn zeta.
    rewrite F. reflexivity.
  - unfold response, fetch. rewrite M. cbn [String.eqb Ascii.eqb Bool.eqb negb]. cbn zeta.
    rewrite F. reflexivity.
  - unfold response, fetch. rewrite M. cbn [String.eqb Ascii.eqb Bool.eqb negb]. cbn zeta.
    rewrite F. reflexivity.
  - split; [|intros lang share I; now apply generateSvg_includes_row].
    apply card_is_balanced.
    destruct (langs_shape (filterRepos repos)) as (ND & POS & TOT).
    assert (T : total (langs (filterRepos repos)) < 2 ^ 53).
    { rewrite TOT. pose proof (filterRepos_length repos). lia. }
    pose proof (shares_isShare NumberToString _ POS T) as S.
    unfold shares. rewrite (percMap_map NumberToString _ ND).
    intros lang perc I. split.
    + apply in_map_iff in I as ([k v] & E & I). injection E as -> _.
      assert (K : In lang (Map_keys (langs (filterRepos repos))))
        by (apply in_map_iff; now exists (lang, v)).
      apply langs_keys in K as (r & J & L). exact (P r lang J L).
    + rewrite Forall_forall in S. destruct (S (lang, perc) I) as (n & N & E).
      cbn [snd] in E. rewrite E. apply plainValue_fixedDigits. lia.
Qed.

(** The shares of the test suite, for a count of 2. *)
Lemma card_is_balanced_markup_witness :
  let percMap := [ ("TypeScript", "33.33"); ("JavaScript", "16.67"); ("Python", "50.00") ] in
  (forall lang perc, In (lang, perc) percMap ->
                     plainText lang = true /\ plainValue perc = true)
  /\ wellFormed (generateSvg percMap (Z2Num 2)) = true.
Proof.
  intros percMap.
  assert (H : forall lang perc, In (lang, perc) percMap ->
                                plainText lang = true /\ plainValue perc = true).
  { intros lang perc [E|[E|[E|[]]]]; injection E as <- <-; split; reflexivity. }
  split; [exact H|].
  exact (proj1 (card_is_balanced_markup percMap (Z2Num 2) H)).
Defined.

(** The request of the test suite for [/testuser?top=2]. *)
Lemma card_of_a_user_witness :
  let globalFetch : Fetch := fun _ _ => Return (okResponse mockRepos) in
  let request := getRequest "/testuser" [ ("top", "2") ] in
  let response := fetch (fun _ => EmptyString) globalFetch request (mkEnv "key") in
  method request = "GET"
  /\ fetchGitHubRepos globalFetch "testuser" (mkEnv "key") = Return mockRepos
  /\ Z.of_nat (List.length mockRepos) < 2 ^ 53
  /\ (forall r lang, In r mockRepos -> language r = Some lang -> plainText lang = true)
  /\ status response = 200
  /\ Headers_get (headers response) "Content-Type" = Some "image/svg+xml"
  /\ body response
     = Some (generateSvg [ ("TypeScript", "33.33"); ("JavaScript", "16.67")
                         ; ("Python", "50.00") ] (Z2Num 2))
  /\ wellFormed (generateSvg [ ("TypeScript", "33.33"); ("JavaScript", "16.67")
                             ; ("Python", "50.00") ] (Z2Num 2)) = true.
Proof.
  intros globalFetch request response.
  assert (H1 : method request = "GET") by reflexivity.
  assert (H2 : fetchGitHubRepos globalFetch
                 (nullish (username (pathname (url request))) "undefined") (mkEnv "key")
               = Return mockRepos) by reflexivity.
  assert (H3 : Z.of_nat (List.length mockRepos) < 2 ^ 53) by reflexivity.
  assert (H4 : forall r lang, In r mockRepos -> language r = Some lang ->
                              plainText lang = true).
  { intros r lang I L.
    repeat (destruct I as [<-|I]; [cbn in L; try discriminate; injection L as <-; reflexivity|]).
    destruct I. }
  split; [exact H1|]. split; [exact H2|]. split; [exact H3|]. split; [exact H4|].
  destruct (card_of_a_user (fun _ => EmptyString) globalFetch request (mkEnv "key")
              mockRepos H1 H2 H3 H4) as (R1 & R2 & R3 & R4 & _).
  split; [exact R1|]. split; [exact R2|]. split; [exact R3 | exact R4].
Defined.

(** ** The shares and the order of the repositories *)

Lemma filter_length_Permutation {A : Type} (f : A -> bool) (l l' : list A) :
  Permutation l l' -> List.length (filter f l) = List.length (filter f l').
Proof.
  induction 1 as [|x l l' P IH|x y l|l l' l'' P IH P' IH'].
  - reflexivity.
  - cbn [filter]. destruct (f x); cbn [List.length]; now rewrite IH.
  - cbn [filter]. destruct (f x), (f y); reflexivity.
  - now rewrite IH.
Qed.

Lemma In_Map_get {V : Type} (m : Map V) (key : string) (value : V) :
  Map_get m key = Some value -> In (key, value) m.
Proof.
  induction m as [|[k v] m IH]; [discriminate|]. cbn [Map_get].
  destruct (String.eqb_spec k key) as [->|N].
  - intros E. injection E as ->. now left.
  - intros E. right. now apply IH.
Qed.

Lemma Map_get_map {V W : Type} (f : V -> W) (m : Map V) (key : string) :
  Map_get (map (fun '(k, v) => (k, f v)) m) key
  = match Map_get m key with
    | Some v => Some (f v)
    | None => None
    end.
Proof.
  induction m as [|[k v] m IH]; [reflexivity|]. cbn [map Map_get].
  destruct (String.eqb k key); [reflexivity | exact IH].
Qed.

(** The share of a language is computed from its number of repositories
    and the number of repositories that have a language. *)
Lemma percMap_get (NumberToString : spec_float -> string) (repos : list GitHubRepo)
  (key : string) :
  Map_get (percMap NumberToString (langs (filterRepos repos))) key
  = if (countLang key repos =? 0)%nat then None
    else Some (perc NumberToString (Z.of_nat (countLang key repos))
                 (Z.of_nat (List.length (filterRepos repos)))).
Proof.
  destruct (langs_shape (filterRepos repos)) as (ND & _ & TOT).
  rewrite (percMap_map NumberToString _ ND), TOT.
  rewrite (Map_get_map (fun val => perc NumberToString val
                                     (Z.of_nat (List.length (filterRepos repos))))).
  rewrite langs_get. destruct (countLang key repos =? 0)%nat; reflexivity.
Qed.

(** X12. The share of a language depends on the repositories only through
    the number of those of the language and the number of those that have a
    language: listing the repositories in another order changes no share. *)
Theorem shares_do_not_depend_on_the_order
  (NumberToString : spec_float -> string) (repos repos' : list GitHubRepo) (key : string) :
  Permutation repos repos' ->
  Map_get (percMap NumberToString (langs (filterRepos repos'))) key
  = Map_get (percMap NumberToString (langs (filterRepos repos))) key
  /\ Map_get (percMap NumberToString (langs (filterRepos repos))) key
     = (if (countLang key repos =? 0)%nat then None
        else Some (perc NumberToString (Z.of_nat (countLang key repos))
                     (Z.of_nat (List.length (filterRepos repos))))).
Proof.
  intros P. split; [|apply percMap_get]. rewrite !percMap_get.
  unfold countLang, filterRepos.
  rewrite (filter_length_Permutation _ repos repos' P).
  rewrite (filter_length_Permutation (fun r => match language r with
                                               | Some _ => true
                                               | None => false
                                               end) repos repos' P).
  reflexivity.
Qed.

(** The repositories of the test suite, the first two exchanged with the
    third: JavaScript is then the first key, with the same share. *)
Lemma shares_do_not_depend_on_the_order_witness :
  let repos' := [ mkGitHubRepo 3 "repo3" "user/repo3" 1 (Some "JavaScript")
                ; mkGitHubRepo 1 "repo1" "user/repo1" 1 (Some "TypeScript")
                ; mkGitHubRepo 2 "repo2" "user/repo2" 1 (Some "TypeScript")
                ; mkGitHubRepo 4 "repo4" "user/repo4" 1 (Some "Python")
                ; mkGitHubRepo 5 "repo5" "user/repo5" 1 (Some "Python")
                ; mkGitHubRepo 6 "repo6" "user/repo6" 1 (Some "Python")
                ; mkGitHubRepo 7 "repo7" "user/repo7" 1 None ] in
  Permutation mockRepos repos'
  /\ Map_keys (langs (filterRepos repos')) = [ "JavaScript"; "TypeScript"; "Python" ]
  /\ Map_get (percMap (fun _ => EmptyString) (langs (filterRepos repos'))) "JavaScript"
     = Map_get (percMap (fun _ => EmptyString) (langs (filterRepos mockRepos))) "JavaScript".
Proof.
  intros repos'.
  assert (H : Permutation mockRepos repos').
  { unfold mockRepos, repos'.
    eapply Permutation_trans; [apply perm_skip, perm_swap|]. apply perm_swap. }
  split; [exact H|]. split; [reflexivity|].
  exact (proj1 (shares_do_not_depend_on_the_order (fun _ => EmptyString) mockRepos repos'
                  "JavaScript" H)).
Defined.
